(** * AuToGraFS: the framework maker of [autografs.py]

    A shallow embedding of class [Autografs]: [make], [get_sbu_dict],
    [align], [tag] and [list_available_sbu], together with the parts of
    numpy, scipy and ASE those methods call.

    - Floating-point numbers are an interface, [FloatOps], with two
      instances: IEEE 754 binary64 as the Standard Library specifies it
      ([SpecFloat], what numpy's [float64] computes), and the real numbers
      (the arithmetic the geometry is designed in).
    - Python objects that are mutated in place ([ase.Atoms]) live in a
      store; a method is a function from the world (store and random
      state) to an outcome (a raised exception or a value) and a world. *)

From Stdlib Require Import ZArith SpecFloat Reals Lra Lia.
From stdpp Require Import base list strings pretty gmap.

(** ** Floating-point numbers *)

Class FloatOps (F : Type) := {
  f_zero : F;                      (* 0.0 *)
  f_one : F;                       (* 1.0 *)
  f_two : F;                       (* 2.0 *)
  f_1em6 : F;                      (* 1e-6 *)
  f_add : F → F → F;
  f_sub : F → F → F;
  f_mul : F → F → F;
  f_div : F → F → F;
  f_sqrt : F → F;
  f_lt : F → F → bool;             (* x < y *)
  f_ge : F → F → bool;             (* x >= y *)
  f_isnan : F → bool;
  f_isfinite : F → bool;
  f_of_nat : nat → F;              (* an element count, as a float *)
  f_single : F → F                 (* rounding to numpy.float32 *)
}.

(** IEEE 754 binary64, round to nearest even. *)
Module B64.
Definition prec : Z := 53.
Definition emax : Z := 1024.

Definition of_Z (z : Z) : spec_float := binary_normalize prec emax z 0 false.

(** The literal [n]e-[d], correctly rounded. *)
Definition dec (n : Z) (d : Z) : spec_float :=
  SFdiv prec emax (of_Z n) (of_Z (10 ^ d)).

Definition isnan (x : spec_float) : bool :=
  match x with S754_nan => true | _ => false end.

Definition isfinite (x : spec_float) : bool :=
  match x with S754_nan | S754_infinity _ => false | _ => true end.

(** binary64 to binary32 and back (the way back is exact). *)
Definition single (x : spec_float) : spec_float :=
  match x with
  | S754_finite s m e => binary_round 24 128 s m e
  | _ => x
  end.
End B64.

#[export] Instance binary64 : FloatOps spec_float := {
  f_zero := S754_zero false;
  f_one := B64.of_Z 1;
  f_two := B64.of_Z 2;
  f_1em6 := B64.dec 1 6;
  f_add := SFadd B64.prec B64.emax;
  f_sub := SFsub B64.prec B64.emax;
  f_mul := SFmul B64.prec B64.emax;
  f_div := SFdiv B64.prec B64.emax;
  f_sqrt := SFsqrt B64.prec B64.emax;
  f_lt := SFltb;
  f_ge := λ x y, SFleb y x;
  f_isnan := B64.isnan;
  f_isfinite := B64.isfinite;
  f_of_nat := λ n, B64.of_Z (Z.of_nat n);
  f_single := B64.single
}.

(** The real numbers: no rounding, no NaN, no infinity. *)
Module Real.
Definition ltb (x y : R) : bool := if Rlt_dec x y then true else false.
Definition geb (x y : R) : bool := if Rge_dec x y then true else false.
End Real.

#[export] Instance real_ops : FloatOps R := {|
  f_zero := 0%R;
  f_one := 1%R;
  f_two := 2%R;
  f_1em6 := (1 / 1000000)%R;
  f_add := Rplus;
  f_sub := Rminus;
  f_mul := Rmult;
  f_div := Rdiv;
  f_sqrt := sqrt;
  f_lt := Real.ltb;
  f_ge := Real.geb;
  f_isnan := λ _, false;
  f_isfinite := λ _, true;
  f_of_nat := INR;
  f_single := λ x, x
|}.

(** ** Python exceptions *)

Inductive exn :=
  | ValueError (msg : string)
  | IndexError (msg : string)
  | KeyError (key : string)
  | TypeError (msg : string)
  | UnboundLocalError (name : string)
  | LinAlgError (msg : string).

(** [UnboundLocalError] is a subclass of [NameError]. *)
Definition isinstance_NameError (e : exn) : bool :=
  match e with UnboundLocalError _ => true | _ => false end.

Definition isinstance_ValueError (e : exn) : bool :=
  match e with ValueError _ => true | _ => false end.

Definition raised {A} (r : exn + A) : Prop := ∃ e, r = inl e.

(** ** numpy: arrays of shape (3,), (n,) and (n,3) *)

Record vec3 (F : Type) := V3 { vx : F; vy : F; vz : F }.
Arguments V3 {F} _ _ _.
Arguments vx {F} _.
Arguments vy {F} _.
Arguments vz {F} _.

(** A 3x3 array, by rows. *)
Record mat3 (F : Type) := M3 { row0 : vec3 F; row1 : vec3 F; row2 : vec3 F }.
Arguments M3 {F} _ _ _.
Arguments row0 {F} _.
Arguments row1 {F} _.
Arguments row2 {F} _.

Module np.
Section Numpy.
Context {F : Type} `{FloatOps F}.

Definition vmap (f : F → F) (v : vec3 F) : vec3 F :=
V3 (f (vx v)) (f (vy v)) (f (vz v)).

Definition vzip (f : F → F → F) (u v : vec3 F) : vec3 F :=
V3 (f (vx u) (vx v)) (f (vy u) (vy v)) (f (vz u) (vz v)).

Definition vall (p : F → bool) (v : vec3 F) : bool :=
p (vx v) && p (vy v) && p (vz v).

Definition zeros3 : vec3 F := V3 f_zero f_zero f_zero.

(** [numpy.add.reduce]: the first element, then the others from left
  to right; 0.0 for no element. *)
Definition add_reduce (xs : list F) : F :=
match xs with
| [] => f_zero
| x :: xs => foldl f_add x xs
end.

Definition add_reduce_axis0 (ps : list (vec3 F)) : vec3 F :=
match ps with
| [] => zeros3
| p :: ps => foldl (vzip f_add) p ps
end.

(** [a.mean()] of a 1-d array: the sum over the count. *)
Definition mean (xs : list F) : F :=
f_div (add_reduce xs) (f_of_nat (length xs)).

(** [a.mean(axis=0)] of an (n,3) array. *)
Definition mean_axis0 (ps : list (vec3 F)) : vec3 F :=
vmap (λ s, f_div s (f_of_nat (length ps))) (add_reduce_axis0 ps).

(** [numpy.linalg.norm(v)]: the square root of [v.dot(v)]. *)
Definition norm (v : vec3 F) : F :=
f_sqrt (f_add (f_add (f_mul (vx v) (vx v)) (f_mul (vy v) (vy v)))
              (f_mul (vz v) (vz v))).

(** [numpy.linalg.norm(a, axis=1)]. *)
Definition norm_axis1 (ps : list (vec3 F)) : list F := norm <$> ps.

(** [a - v] and [a -= v] for an (n,3) array and a (3,) array. *)
Definition sub_rows (ps : list (vec3 F)) (v : vec3 F) : list (vec3 F) :=
(λ p, vzip f_sub p v) <$> ps.

(** [a / b] for 1-d arrays, with numpy's broadcasting: equal lengths
  go element by element, a length of 1 is stretched, anything else
  cannot be broadcast. Dividing by zero raises nothing. *)
Definition divide (xs ys : list F) : exn + list F :=
if decide (length xs = length ys) then inr (zip_with f_div xs ys)
else match xs, ys with
     | [x], _ => inr (f_div x <$> ys)
     | _, [y] => inr ((λ x, f_div x y) <$> xs)
     | _, _ => inl (ValueError "operands could not be broadcast together")
     end.

(** [numpy.eye(3) * v]: column [j] of the identity times [v[j]]. *)
Definition eye3_times (v : vec3 F) : mat3 F :=
M3 (V3 (f_mul f_one (vx v)) (f_mul f_zero (vy v)) (f_mul f_zero (vz v)))
   (V3 (f_mul f_zero (vx v)) (f_mul f_one (vy v)) (f_mul f_zero (vz v)))
   (V3 (f_mul f_zero (vx v)) (f_mul f_zero (vy v)) (f_mul f_one (vz v))).

Definition col0 (m : mat3 F) : vec3 F := V3 (vx (row0 m)) (vx (row1 m)) (vx (row2 m)).
Definition col1 (m : mat3 F) : vec3 F := V3 (vy (row0 m)) (vy (row1 m)) (vy (row2 m)).
Definition col2 (m : mat3 F) : vec3 F := V3 (vz (row0 m)) (vz (row1 m)) (vz (row2 m)).

Definition transpose (m : mat3 F) : mat3 F := M3 (col0 m) (col1 m) (col2 m).

Definition dot3 (u v : vec3 F) : F :=
f_add (f_add (f_mul (vx u) (vx v)) (f_mul (vy u) (vy v))) (f_mul (vz u) (vz v)).

(** [p.dot(m)] for a (3,) array and a (3,3) array. *)
Definition vec_dot (p : vec3 F) (m : mat3 F) : vec3 F :=
V3 (dot3 p (col0 m)) (dot3 p (col1 m)) (dot3 p (col2 m)).

(** [a.dot(m)] for an (n,3) array and a (3,3) array. *)
Definition dot (ps : list (vec3 F)) (m : mat3 F) : list (vec3 F) :=
(λ p, vec_dot p m) <$> ps.

(** [a.dot(b)] for two (3,3) arrays. *)
Definition matmul (a b : mat3 F) : mat3 F :=
M3 (vec_dot (row0 a) b) (vec_dot (row1 a) b) (vec_dot (row2 a) b).

(** [numpy.argmin] of a 1-d array: the first index of the least
  element, a NaN counting as least; an empty array is refused. *)
Fixpoint argmin_from (mp : F) (best i : nat) (xs : list F) : nat :=
match xs with
| [] => best
| x :: xs =>
    if f_ge x mp then argmin_from mp best (S i) xs
    else if f_isnan x then i
    else argmin_from x i (S i) xs
end.

Definition argmin (xs : list F) : exn + nat :=
match xs with
| [] => inl (ValueError "attempt to get argmin of an empty sequence")
| x :: xs => inr (if f_isnan x then 0 else argmin_from x 0 1 xs)
end.

(** [numpy.ones(3, dtype=numpy.float32)] divided in place by its norm. *)
Definition ones_direction : vec3 F :=
let one := f_single f_one in
let n := f_single (norm (V3 one one one)) in
let d := f_single (f_div one n) in
V3 d d d.

Definition all_finite (ps : list (vec3 F)) : bool :=
forallb (vall f_isfinite) ps.

Definition mat_finite (m : mat3 F) : bool :=
vall f_isfinite (row0 m) && vall f_isfinite (row1 m) && vall f_isfinite (row2 m).
End Numpy.
End np.

(** ** The store of Python objects *)

Inductive info_value :=
  | MMTypes (types : list string)
  | Bonds (bonds : list (list nat))
  | InfoText (text : string).

(** One atom of an [ase.Atoms]: its row in the arrays [symbols],
    [positions] and [tags]. *)
Module Atom.
Record t (F : Type) := mk {
  symbol : string;
  position : vec3 F;
  tag : Z
}.
Arguments mk {F} _ _ _.
Arguments symbol {F} _.
Arguments position {F} _.
Arguments tag {F} _.
End Atom.

Module Atoms.
Record t (F : Type) := mk {
  atom_list : list (Atom.t F);
  info : gmap string info_value
}.
Arguments mk {F} _ _.
Arguments atom_list {F} _.
Arguments info {F} _.

Definition symbols {F} (a : t F) : list string := Atom.symbol <$> atom_list a.
Definition positions {F} (a : t F) : list (vec3 F) := Atom.position <$> atom_list a.
Definition tags {F} (a : t F) : list Z := Atom.tag <$> atom_list a.
End Atoms.

(** A reference to an [ase.Atoms] object. *)
Abbreviation loc := nat.

(** The state of [random]: the draws to come and how many were made. *)
Record random_state := mkRandom { draws : nat → nat; cursor : nat }.

Record world (F : Type) := mkWorld {
  heap : list (Atoms.t F);
  rand : random_state
}.
Arguments mkWorld {F} _ _.
Arguments heap {F} _.
Arguments rand {F} _.

(** A Python computation: it ends in an exception or a value, and leaves
    a world behind either way. *)
Definition Py (F A : Type) : Type := world F → (exn + A) * world F.

#[export] Instance sum_ret : MRet (sum exn) := λ A x, inr x.
#[export] Instance sum_bind : MBind (sum exn) := λ A B k m,
  match m with inl e => inl e | inr x => k x end.

#[export] Instance py_ret {F} : MRet (Py F) := λ A x w, (inr x, w).
#[export] Instance py_bind {F} : MBind (Py F) := λ A B k m w,
  match m w with
  | (inl e, w') => (inl e, w')
  | (inr x, w') => k x w'
  end.

Definition raise {F A} (e : exn) : Py F A := λ w, (inl e, w).

(** A computation that leaves the store alone. *)
Definition lift {F A} (r : exn + A) : Py F A := λ w, (r, w).

Definition outcome {F A} (r : (exn + A) * world F) : exn + A := r.1.
Definition final_heap {F A} (r : (exn + A) * world F) : list (Atoms.t F) := heap r.2.

Section Store.
Context {F : Type}.

Definition deref (l : loc) : Py F (Atoms.t F) := λ w,
  match heap w !! l with
  | Some a => (inr a, w)
  | None => (inl (TypeError "no such object"), w)
  end.

Definition alloc (a : Atoms.t F) : Py F loc := λ w,
  (inr (length (heap w)), mkWorld (heap w ++ [a]) (rand w)).

Definition assign (l : loc) (a : Atoms.t F) : Py F unit := λ w,
  (inr tt, mkWorld (<[l := a]> (heap w)) (rand w)).
End Store.

(** ** ASE: the methods of [ase.Atoms] the maker calls *)

Module ase.
Section Ase.
Context {F : Type}.

Definition with_positions (a : Atoms.t F) (ps : list (vec3 F)) : Atoms.t F :=
Atoms.mk (zip_with (λ x p, Atom.mk (Atom.symbol x) p (Atom.tag x)) (Atoms.atom_list a) ps) (Atoms.info a).

Definition with_tag (a : Atoms.t F) (i : nat) (t : Z) : Atoms.t F :=
Atoms.mk (alter (λ x, Atom.mk (Atom.symbol x) (Atom.position x) t) i (Atoms.atom_list a)) (Atoms.info a).

(** [atoms.copy()]: a new object with copies of the arrays. *)
Definition copy (l : loc) : Py F loc := a ← deref l; alloc a.

Definition len (l : loc) : Py F nat := a ← deref l; mret (length (Atoms.atom_list a)).

(** [atoms.positions] and [atoms.get_positions()], read. *)
Definition get_positions (l : loc) : Py F (list (vec3 F)) :=
a ← deref l; mret (Atoms.positions a).

(** [atoms.positions = ps]: the array is overwritten in place; a
  different number of rows is refused. *)
Definition set_positions (l : loc) (ps : list (vec3 F)) : Py F unit :=
a ← deref l;
if decide (length ps = length (Atoms.atom_list a))
then assign l (with_positions a ps)
else raise (ValueError "Array has wrong length").

(** [atoms[i]], an [Atom] that refers to row [i] of [atoms]. *)
Definition getitem (l : loc) (i : nat) : Py F (Atom.t F) :=
a ← deref l;
match Atoms.atom_list a !! i with
| Some x => mret x
| None => raise (IndexError "index out of range")
end.

(** [atom.tag = t] for the [Atom] at row [i] of [l]: written through
  to the [Atoms] object. *)
Definition set_tag (l : loc) (i : nat) (t : Z) : Py F unit :=
a ← deref l; assign l (with_tag a i t).

(** [atoms[indices]] for a list of indices: a new object with those
  rows, in that order. *)
Definition getitem_list (l : loc) (indices : list nat) : Py F loc :=
a ← deref l;
match mapM (λ i, Atoms.atom_list a !! i) indices with
| Some xs => alloc (Atoms.mk xs (Atoms.info a))
| None => raise (IndexError "index out of range")
end.
End Ase.
End ase.

(** ** scipy.linalg *)

(** LAPACK's [gesdd] for a 3x3 matrix: the factors [u], [w], [vt] of
    a singular value decomposition, or nothing when the iteration does
    not converge. *)
Class Lapack (F : Type) := { gesdd : mat3 F → option (mat3 F * vec3 F * mat3 F) }.

Module scipy.
Section Scipy.
Context {F : Type} `{FloatOps F} `{Lapack F}.

Definition nonfinite : exn := ValueError "array must not contain infs or NaNs".

(** [scipy.linalg.svd(m)] for a 3x3 matrix. *)
Definition svd (m : mat3 F) : exn + (mat3 F * vec3 F * mat3 F) :=
if np.mat_finite m then
  match gesdd m with
  | Some r => inr r
  | None => inl (LinAlgError "SVD did not converge")
  end
else inl nonfinite.

(** Column [i] of [a] against column [j] of [b], summed over the rows. *)
Definition gram_entry (pi pj : vec3 F → F) (b a : list (vec3 F)) : F :=
foldl f_add f_zero (zip_with (λ q p, f_mul (pi q) (pj p)) b a).

(** [b.T.dot(a)] for two (n,3) arrays. *)
Definition gram (b a : list (vec3 F)) : mat3 F :=
M3 (V3 (gram_entry vx vx b a) (gram_entry vx vy b a) (gram_entry vx vz b a))
   (V3 (gram_entry vy vx b a) (gram_entry vy vy b a) (gram_entry vy vz b a))
   (V3 (gram_entry vz vx b a) (gram_entry vz vy b a) (gram_entry vz vz b a)).

(** [scipy.linalg.orthogonal_procrustes(a, b)]: both arrays are
  checked for infs and NaNs, then for equal shapes; the result is
  [u.dot(vt)] and the sum of the singular values, for the
  decomposition of [b.T.dot(a).T]. *)
Definition orthogonal_procrustes (a b : list (vec3 F)) : exn + (mat3 F * F) :=
if negb (np.all_finite a) then inl nonfinite
else if negb (np.all_finite b) then inl nonfinite
else if negb (bool_decide (length a = length b))
then inl (ValueError "the shapes of A and B differ")
else
  '(u, w, vt) ← svd (np.transpose (gram b a));
  mret (np.matmul u vt, f_add (f_add (vx w) (vy w)) (vz w)).
End Scipy.
End scipy.

(** ** Python dictionaries, in insertion order *)

Module dict.
Section Dict.
Context {K V : Type} `{EqDecision K}.

Fixpoint get (d : list (K * V)) (k : K) : option V :=
match d with
| [] => None
| (k', v) :: d => if decide (k' = k) then Some v else get d k
end.

(** [d[k] = v]: an existing key keeps its place. *)
Fixpoint set (d : list (K * V)) (k : K) (v : V) : list (K * V) :=
match d with
| [] => [(k, v)]
| (k', v') :: d => if decide (k' = k) then (k, v) :: d else (k', v') :: set d k v
end.

Definition keys (d : list (K * V)) : list K := fst <$> d.
End Dict.
End dict.

(** ** The collaborators of the maker

    The classes [Topology], [SBU] and [Framework] and the function
    [analyze_mm] are imported by [autografs.py] from modules of the
    package that hold the analysis of point groups, of bonds and the
    optimiser. What they compute is a parameter of the development. *)

Class Collaborators (F : Type) := {
  (** The slots a [Topology] finds in the atoms of a net: index,
      fragment and shape of each. *)
  topology_slots : Atoms.t F → list (nat * Atoms.t F * string);
  (** The shape an [SBU] finds for its atoms. *)
  sbu_shape : Atoms.t F → string;
  (** [analyze_mm(atoms)]: the bonds and the types. *)
  analyze_mm : Atoms.t F → info_value * info_value;
  (** The positions [Framework.refine] gives the fragment of a slot,
      from the starting scale and the positions of all fragments. *)
  refined_positions :
    (F + vec3 F) → list (nat * list (vec3 F)) → nat → list (vec3 F)
}.

(** Modelled from the spec: class [Topology] of
    [autografs.utils.topologies] is not part of [autografs.py]. A
    topology has a name, the atoms of the net, and for every slot index
    a fragment geometry and a shape label; it is built once from the
    database entry. *)
Module Topology.
Record t := mk {
  name : string;
  atoms : loc;
  fragments : list (nat * loc);
  shapes : list (nat * string)
}.

Section Topology.
Context {F : Type} `{Collaborators F}.

Fixpoint add_slots (slots : list (nat * Atoms.t F * string)) (top : t) : Py F t :=
  match slots with
  | [] => mret top
  | (index, fragment, shape) :: slots =>
      l ← alloc fragment;
      add_slots slots
        (mk (name top) (atoms top)
            (dict.set (fragments top) index l)
            (dict.set (shapes top) index shape))
  end.

(** [Topology(name=name, atoms=atoms)] *)
Definition new (name : string) (atoms : loc) : Py F t :=
  a ← deref atoms;
  add_slots (topology_slots a) (mk name atoms [] []).

(** [topology.get_atoms()] *)
Definition get_atoms (top : t) : Py F loc := mret (atoms top).
End Topology.
End Topology.

(** Modelled from the spec: class [SBU] of [autografs.utils.sbu] is not
    part of [autografs.py]. A building unit has a name, its atoms and a
    shape label. *)
Module SBU.
Record t := mk { name : string; atoms : loc; shape : string }.

Section SBU.
Context {F : Type} `{Collaborators F}.

(** [SBU(name=name, atoms=atoms)] *)
Definition new (name : string) (atoms : loc) : Py F t :=
  a ← deref atoms;
  mret (mk name atoms (sbu_shape a)).

(** [sbu.get_atoms()] *)
Definition get_atoms (sbu : t) : Py F (Atoms.t F) := deref (atoms sbu).
End SBU.
End SBU.

(** Modelled from the spec: class [Framework] of [autografs.framework]
    is not part of [autografs.py]. A framework holds the atoms of the
    topology and the aligned fragments indexed by slot; [append] adds
    the fragment of one slot, [refine] applies the optimiser's solution
    to the positions of every fragment. *)
Module Framework.
Record fragment := mkFragment {
  sbu : loc;
  mmtypes : info_value;
  bonds : info_value
}.

Record t := mk {
  topology : option loc;
  fragments : list (nat * fragment)
}.

Definition new : t := mk None [].

Definition set_topology (fw : t) (topology : loc) : t :=
  mk (Some topology) (fragments fw).

Definition append (fw : t) (index : nat) (sbu : loc) (mmtypes bonds : info_value) : t :=
  mk (topology fw) (dict.set (fragments fw) index (mkFragment sbu mmtypes bonds)).

Section Framework.
Context {F : Type} `{Collaborators F}.

Fixpoint all_positions (fs : list (nat * fragment)) : Py F (list (nat * list (vec3 F))) :=
  match fs with
  | [] => mret []
  | (index, f) :: fs =>
      ps ← ase.get_positions (sbu f);
      rest ← all_positions fs;
      mret ((index, ps) :: rest)
  end.

Fixpoint move (alpha0 : F + vec3 F) (all : list (nat * list (vec3 F)))
    (fs : list (nat * fragment)) : Py F unit :=
  match fs with
  | [] => mret tt
  | (index, f) :: fs =>
      ase.set_positions (sbu f) (refined_positions alpha0 all index) ;;
      move alpha0 all fs
  end.

(** [framework.refine(alpha0=alpha0)] *)
Definition refine (fw : t) (alpha0 : F + vec3 F) : Py F unit :=
  all ← all_positions (fragments fw);
  move alpha0 all (fragments fw).
End Framework.
End Framework.

(** ** [random.choice] *)

Definition random_choice {F A} (seq : list A) : Py F A := λ w,
  let k := draws (rand w) (cursor (rand w)) `mod` length seq in
  match seq !! k with
  | Some x => (inr x, mkWorld (heap w) (mkRandom (draws (rand w)) (S (cursor (rand w)))))
  | None => (inl (IndexError "Cannot choose from an empty sequence"), w)
  end.

(** The object [self]: the two databases read by the constructor. *)
Module Self.
Record t := mk {
  topologies : gmap string loc;
  sbu : gmap string loc
}.
End Self.

(** [d[k]] for a database. *)
Definition getitem {F} (d : gmap string loc) (k : string) : Py F loc :=
  match d !! k with
  | Some l => mret l
  | None => raise (KeyError k)
  end.

(** A local variable of a function: unbound until it is assigned. *)
Definition read_local {F A} (name : string) (v : option A) : Py F A :=
  match v with
  | Some x => mret x
  | None => raise (UnboundLocalError name)
  end.

(** ** Class [Autografs] *)

Module Autografs.
Section Aligner.
Context {F : Type} `{FloatOps F} `{Lapack F}.

(** The body of the loop of [tag], for the atom at row [i] of [sbu]. *)
Definition tag_atom (sbu fragment : loc) (i : nat) : Py F unit :=
atom ← ase.getitem sbu i;
if bool_decide (Atom.symbol atom ≠ "X") then mret tt
else
  let ps := Atom.position atom in
  pf ← ase.get_positions fragment;
  let d := np.norm_axis1 (np.sub_rows pf ps) in
  fi ← lift (np.argmin d);
  f ← ase.getitem fragment fi;
  ase.set_tag sbu i (Atom.tag f).

Fixpoint tag_loop (sbu fragment : loc) (rows : list nat) : Py F unit :=
match rows with
| [] => mret tt
| i :: rows => tag_atom sbu fragment i ;; tag_loop sbu fragment rows
end.

(** [tag(self, sbu, fragment)]: transfer the tags of the fragment to
  the closest dummies of the sbu. *)
Definition tag (sbu fragment : loc) : Py F unit :=
n ← ase.len sbu;
tag_loop sbu fragment (seq 0 n).

(** The indices of the dummies: [[x.index for x in sbu if x.symbol=="X"]]. *)
Definition dummies (xs : list (Atom.t F)) : list nat :=
(fst <$> filter (λ ix, Atom.symbol ix.2 = "X") (imap pair xs)).

(** Lines 141 to 151 of [align], "get the scaling factor": from the
  centred positions of the dummies, the centred positions of the
  fragment and the centre the fragment had, the vector [alpha]. *)
Definition scaling_factor (sbu_X fragment : list (vec3 F)) (fragment_cop : vec3 F)
  : exn + vec3 F :=
let size_sbu := np.norm_axis1 sbu_X in
let size_fragment := np.norm_axis1 fragment in
ratio ← np.divide size_sbu size_fragment;
let alpha := f_mul f_two (np.mean ratio) in
let ncop := np.norm fragment_cop in
let direction :=
  if f_lt ncop f_1em6 then np.ones_direction
  else np.vmap (λ c, f_div c ncop) fragment_cop in
mret (np.vmap (f_mul alpha) direction).

(** [align(self, fragment, sbu)]: the aligned copy of the sbu and the
  scaling factor. *)
Definition align (fragment sbu : loc) : Py F (loc * vec3 F) :=
(* first, we work with copies *)
sbu ← ase.copy sbu;
fragment ← ase.copy fragment;
(* normalize and center *)
fpos ← ase.get_positions fragment;
let fragment_cop := np.mean_axis0 fpos in
ase.set_positions fragment (np.sub_rows fpos fragment_cop) ;;
spos ← ase.get_positions sbu;
ase.set_positions sbu (np.sub_rows spos (np.mean_axis0 spos)) ;;
(* identify dummies in sbu *)
atoms ← deref sbu;
let sbu_Xis := dummies (Atoms.atom_list atoms) in
sbu_X ← ase.getitem_list sbu sbu_Xis;
(* get the scaling factor *)
xpos ← ase.get_positions sbu_X;
fpos ← ase.get_positions fragment;
alpha ← lift (scaling_factor xpos fpos fragment_cop);
(* scaling for better alignment *)
ase.set_positions fragment (np.dot fpos (np.eye3_times alpha)) ;;
(* getting the rotation matrix *)
X0 ← ase.get_positions sbu_X;
X1 ← ase.get_positions fragment;
Rs ← lift (scipy.orthogonal_procrustes X0 X1);
spos ← ase.get_positions sbu;
ase.set_positions sbu (np.dot spos Rs.1) ;;
(* tag the atoms *)
tag sbu fragment ;;
mret (sbu, alpha).
End Aligner.

Section Maker.
Context {F : Type} `{FloatOps F} `{Lapack F} `{Collaborators F}.

(** The inner loop of [get_sbu_dict]: the building units of
  [sbu_names], in order ([by_shape] is a [defaultdict(list)], read
  at one key only: the units of that shape). *)
Fixpoint sbu_of_names (self : Self.t) (sbu_names : list string)
  : Py F (list SBU.t) :=
match sbu_names with
| [] => mret []
| name :: sbu_names =>
    atoms ← getitem (Self.sbu self) name;
    sbu ← SBU.new name atoms;
    rest ← sbu_of_names self sbu_names;
    mret (sbu :: rest)
end.

Definition by_shape (units : list SBU.t) (shape : string) : list SBU.t :=
filter (λ u, SBU.shape u = shape) units.

Fixpoint get_sbu_dict_loop (self : Self.t) (slots : list (nat * string))
  (sbu_names : option (list string)) (sbu_dict : list (nat * SBU.t))
  : Py F (list (nat * SBU.t)) :=
match slots with
| [] => mret sbu_dict
| (index, shape) :: slots =>
    names ← match sbu_names with
            | Some names => mret names
            | None => raise (TypeError "'NoneType' object is not iterable")
            end;
    units ← sbu_of_names self names;
    (* here, should accept probabilities also *)
    sbu ← random_choice (by_shape units shape);
    get_sbu_dict_loop self slots sbu_names (dict.set sbu_dict index sbu)
end.

(** [get_sbu_dict(self, topology, sbu_names)] *)
Definition get_sbu_dict (self : Self.t) (topology : Topology.t)
  (sbu_names : option (list string)) : Py F (list (nat * SBU.t)) :=
get_sbu_dict_loop self (Topology.shapes topology) sbu_names [].

(** [alpha += f]: [alpha] is the float 0.0 at first, an array after. *)
Definition iadd (alpha : F + vec3 F) (f : vec3 F) : F + vec3 F :=
match alpha with
| inl x => inr (np.vmap (f_add x) f)
| inr v => inr (np.vzip f_add v f)
end.

(** The body of the loop of [make]. *)
Definition make_slot (topology : Topology.t) (idx : nat) (sbu : SBU.t)
  (aligned : Framework.t) (alpha : F + vec3 F) : Py F (Framework.t * (F + vec3 F)) :=
fragment_atoms ← match dict.get (Topology.fragments topology) idx with
                 | Some l => mret l
                 | None => raise (KeyError (pretty idx))
                 end;
let sbu_atoms := SBU.atoms sbu in
(* check if has all info *)
atoms ← deref sbu_atoms;
let sbu_info := Atoms.info atoms in
let has_mmtypes := sbu_info !! "mmtypes" in
let has_bonds := sbu_info !! "bonds" in
bonds_types ← match has_bonds, has_mmtypes with
              | Some sbu_bonds, Some sbu_types => mret (sbu_bonds, sbu_types)
              | _, _ => a ← SBU.get_atoms sbu; mret (analyze_mm a)
              end;
(* align and get the scaling factor *)
r ← align fragment_atoms sbu_atoms;
let alpha := iadd alpha r.2 in
mret (Framework.append aligned idx r.1 bonds_types.2 bonds_types.1, alpha).

Fixpoint make_loop (topology : Topology.t) (items : list (nat * SBU.t))
  (aligned : Framework.t) (alpha : F + vec3 F) : Py F (Framework.t * (F + vec3 F)) :=
match items with
| [] => mret (aligned, alpha)
| (idx, sbu) :: items =>
    r ← make_slot topology idx sbu aligned alpha;
    make_loop topology items r.1 r.2
end.

(** [make(self, topology_name, sbu_names, sbu_dict)] down to "carry
    on": the topology, the empty framework and the slot assignment. *)
Definition make_assignment (self : Self.t) (topology_name : string)
    (sbu_names : option (list string)) (sbu_dict : option (list (nat * SBU.t)))
    : Py F (Topology.t * Framework.t * list (nat * SBU.t)) :=
  atoms ← getitem (Self.topologies self) topology_name;
  topology ← Topology.new topology_name atoms;
  (* container for the aligned SBUs *)
  let aligned := Framework.new in
  tatoms ← Topology.get_atoms topology;
  let aligned := Framework.set_topology aligned tatoms in
  (* identify the corresponding SBU *)
  sbu_dict ← match sbu_dict with
             | None => get_sbu_dict self topology sbu_names
             | Some d => mret d
             end;
  mret (topology, aligned, sbu_dict).

(** [make(self, topology_name, sbu_names, sbu_dict)] up to the call
    of [refine]: the framework and the scale it is refined from. *)
Definition make_aligned (self : Self.t) (topology_name : string)
    (sbu_names : option (list string)) (sbu_dict : option (list (nat * SBU.t)))
    : Py F (Framework.t * (F + vec3 F)) :=
  tad ← make_assignment self topology_name sbu_names sbu_dict;
  let alpha := inl f_zero in
  (* carry on *)
  make_loop tad.1.1 tad.2 tad.1.2 alpha.

(** [make(self, topology_name, sbu_names, sbu_dict)] *)
Definition make (self : Self.t) (topology_name : string)
  (sbu_names : option (list string)) (sbu_dict : option (list (nat * SBU.t)))
  : Py F Framework.t :=
r ← make_aligned self topology_name sbu_names sbu_dict;
(* refine the cell scaling using a good starting point *)
Framework.refine r.1 r.2 ;;
mret r.1.

(** [atoms[key]] for a string: [ase.Atoms.__getitem__] makes an array
  of a key that is neither an integer nor a slice and asks for its
  length; the array of a string has no dimension, and [len] refuses
  it. No [ase.Atoms] is read. *)
Definition getitem_str {A} (l : loc) (key : string) : Py F A :=
raise (TypeError "len() of unsized object").

Fixpoint filter_shapes (self : Self.t) (shapes : list string)
  (sbu : list (string * list string)) : Py F (list (string * list string)) :=
match shapes with
| [] => mret sbu
| shape :: shapes =>
    names ← match dict.get sbu shape with
            | Some names => mret names
            | None => raise (KeyError shape)
            end;
    kept ← mapM (λ sbuk : string,
                   l ← getitem (Self.sbu self) sbuk;
                   s ← getitem_str l "Shape";
                   mret (sbuk, bool_decide (s = shape))) names;
    filter_shapes self shapes (dict.set sbu shape (fst <$> filter (λ kb, kb.2 = true) kept))
end.

(** [list_available_sbu(self, topology)] *)
Definition list_available_sbu (self : Self.t) (topology : string)
  : Py F (list (string * list string)) :=
(* [shapes] is assigned further down: it is a local, unbound here *)
let shapes : option (list string) := None in
shapes_read ← read_local "shapes" shapes;
let sbu := foldl (λ d shape, dict.set d shape (fst <$> map_to_list (Self.sbu self)))
                 [] shapes_read in
if bool_decide (topology ≠ "") then
  l ← getitem (Self.topologies self) topology;
  shapes ← getitem_str l "Shapes";
  filter_shapes self shapes sbu
else mret sbu.

(** The exceptions of [list_available_topologies]: those of the other
    methods, and the [AttributeError] of a key of the database of
    topologies, a [str], asked for [get_atomic_numbers]. *)
Inductive listing_exn :=
  | Raised (e : exn)
  | AttributeError (msg : string).

(** [[self.sbu[sbuk]["Shape"] for sbuk in sbu]] *)
Definition shapes_of_names (self : Self.t) (sbu : list string) : Py F (list string) :=
mapM (λ sbuk : string, l ← getitem (Self.sbu self) sbuk; getitem_str l "Shape") sbu.

(** [list_available_topologies(self, sbu, full)]. The loop over the
    items of the database ends at its first statement, on the first
    key; with no key it leaves the list of topologies empty. *)
Definition list_available_topologies (self : Self.t) (sbu : list string) (full : bool)
  : world F → (listing_exn + list string) * world F := λ w,
if bool_decide (sbu ≠ []) then
  match shapes_of_names self sbu w with
  | (inl e, w') => (inl (Raised e), w')
  | (inr shapes, w') =>
      match map_to_list (Self.topologies self) with
      | [] => (inr [], w')
      | (tk, tv) :: _ =>
          (inl (AttributeError "'str' object has no attribute 'get_atomic_numbers'"), w')
      end
  end
else (inr (fst <$> map_to_list (Self.topologies self)), w).
End Maker.
End Autografs.

(** ** What [tag] and [align] compute from the values of their arguments *)

Module Summary.
Section Summary.
Context {F : Type} `{FloatOps F} `{Lapack F}.

(** One turn of the loop of [tag] on the value [a] of the sbu. *)
Definition tag_row (fa a : Atoms.t F) (i : nat) : (exn + unit) * Atoms.t F :=
  match Atoms.atom_list a !! i with
  | None => (inl (IndexError "index out of range"), a)
  | Some x =>
      if bool_decide (Atom.symbol x ≠ "X") then (inr tt, a)
      else
        match np.argmin (np.norm_axis1 (np.sub_rows (Atoms.positions fa) (Atom.position x))) with
        | inl e => (inl e, a)
        | inr fi =>
            match Atoms.atom_list fa !! fi with
            | None => (inl (IndexError "index out of range"), a)
            | Some y => (inr tt, ase.with_tag a i (Atom.tag y))
            end
        end
  end.

Fixpoint tag_rows (fa a : Atoms.t F) (rows : list nat) : (exn + unit) * Atoms.t F :=
  match rows with
  | [] => (inr tt, a)
  | i :: rows =>
      match tag_row fa a i with
      | (inl e, a') => (inl e, a')
      | (inr _, a') => tag_rows fa a' rows
      end
  end.

(** [atoms.positions -= atoms.positions.mean(axis=0)] *)
Definition centre (a : Atoms.t F) : Atoms.t F :=
  ase.with_positions a (np.sub_rows (Atoms.positions a) (np.mean_axis0 (Atoms.positions a))).

(** [sbu[sbu_Xis]] *)
Definition dummy_atoms (a : Atoms.t F) : Atoms.t F :=
  Atoms.mk (filter (λ x, Atom.symbol x = "X") (Atoms.atom_list a)) (Atoms.info a).

(** The outcome of [align] for a fragment [fa] and an sbu [sa], and the
    three objects it creates: the copy of the sbu, the copy of the
    fragment and the dummies. *)
Definition align_objects (fa sa : Atoms.t F) : (exn + vec3 F) * list (Atoms.t F) :=
  let sa1 := centre sa in
  let fa1 := centre fa in
  let sx := dummy_atoms sa1 in
  match Autografs.scaling_factor (Atoms.positions sx) (Atoms.positions fa1)
          (np.mean_axis0 (Atoms.positions fa)) with
  | inl e => (inl e, [sa1; fa1; sx])
  | inr alpha =>
      let fa2 := ase.with_positions fa1 (np.dot (Atoms.positions fa1) (np.eye3_times alpha)) in
      match scipy.orthogonal_procrustes (Atoms.positions sx) (Atoms.positions fa2) with
      | inl e => (inl e, [sa1; fa2; sx])
      | inr Rs =>
          let sa2 := ase.with_positions sa1 (np.dot (Atoms.positions sa1) Rs.1) in
          match tag_rows fa2 sa2 (seq 0 (length (Atoms.atom_list sa2))) with
          | (inl e, sa3) => (inl e, [sa3; fa2; sx])
          | (inr _, sa3) => (inr alpha, [sa3; fa2; sx])
          end
      end
  end.

(** The matrix [R] that [align] computes for a fragment and an sbu. *)
Definition rotation (fa sa : Atoms.t F) : exn + mat3 F :=
  let sa1 := centre sa in
  let fa1 := centre fa in
  let sx := dummy_atoms sa1 in
  alpha ← Autografs.scaling_factor (Atoms.positions sx) (Atoms.positions fa1)
            (np.mean_axis0 (Atoms.positions fa));
  let fa2 := ase.with_positions fa1 (np.dot (Atoms.positions fa1) (np.eye3_times alpha)) in
  Rs ← scipy.orthogonal_procrustes (Atoms.positions sx) (Atoms.positions fa2);
  mret Rs.1.
End Summary.
End Summary.

(** ** The aligner in the words of its specification *)

Module Spec.
Section Spec.
Context {F : Type} `{FloatOps F}.

(** The connection points of a unit: its atoms of symbol "X", in order. *)
Definition connection_points (a : Atoms.t F) : list (Atom.t F) :=
  filter (λ x, Atom.symbol x = "X") (Atoms.atom_list a).

Definition centroid (ps : list (vec3 F)) : vec3 F := np.mean_axis0 ps.

(** The Euclidean distance of [p] from [c]. *)
Definition distance (p c : vec3 F) : F := np.norm (np.vzip f_sub p c).

Definition normalized (v : vec3 F) : vec3 F := np.vmap (λ c, f_div c (np.norm v)) v.

(** The scale of a slot: twice the mean, over the connection points, of
    the distance of the connection point from the centroid of the unit
    over the distance of the fragment point from the centroid of the
    fragment, times a direction: the normalized centroid of the
    fragment, or the normalized all-ones vector when the norm of that
    centroid is below 1e-6. *)
Definition scale (fa sa : Atoms.t F) : vec3 F :=
  let cf := centroid (Atoms.positions fa) in
  let cs := centroid (Atoms.positions sa) in
  let ratios :=
    zip_with (λ x p, f_div (distance (Atom.position x) cs) (distance p cf))
      (connection_points sa) (Atoms.positions fa) in
  let magnitude := f_mul f_two (np.mean ratios) in
  let direction :=
    if f_lt (np.norm cf) f_1em6 then np.ones_direction else normalized cf in
  np.vmap (f_mul magnitude) direction.

Definition identity : mat3 F :=
  M3 (V3 f_one f_zero f_zero) (V3 f_zero f_one f_zero) (V3 f_zero f_zero f_one).

(** [m] times its transpose is the identity. *)
Definition orthogonal (m : mat3 F) : Prop := np.matmul m (np.transpose m) = identity.

(** The determinant, expanded along the first row. *)
Definition det (m : mat3 F) : F :=
  let minor (a b c d : F) := f_sub (f_mul a d) (f_mul b c) in
  f_add
    (f_sub (f_mul (vx (row0 m)) (minor (vy (row1 m)) (vz (row1 m)) (vy (row2 m)) (vz (row2 m))))
           (f_mul (vy (row0 m)) (minor (vx (row1 m)) (vz (row1 m)) (vx (row2 m)) (vz (row2 m)))))
    (f_mul (vz (row0 m)) (minor (vx (row1 m)) (vy (row1 m)) (vx (row2 m)) (vy (row2 m)))).

(** Row [j] of [ps] is the first of the rows nearest to [q]: no row is
    nearer, and every row before it is farther. *)
Definition nearest_first (ps : list (vec3 F)) (q : vec3 F) (j : nat) : Prop :=
  ∃ pj, ps !! j = Some pj ∧
    (∀ k p, ps !! k = Some p → f_ge (distance p q) (distance pj q) = true) ∧
    (∀ k p, ps !! k = Some p → k < j → f_ge (distance pj q) (distance p q) = false).
End Spec.
End Spec.

(** ** Classes of arithmetic *)

(** What IEEE 754 arithmetic does with a zero divisor and with operands
    that are not finite. *)
Class NonFinite (F : Type) `{FloatOps F} : Prop := {
  of_nat_0 : f_of_nat 0 = f_zero;
  div_zero x : f_isfinite (f_div x f_zero) = false;
  div_nonfinite x y : f_isfinite x = false → f_isfinite (f_div x y) = false;
  add_nonfinite_l x y : f_isfinite x = false → f_isfinite (f_add x y) = false;
  add_nonfinite_r x y : f_isfinite y = false → f_isfinite (f_add x y) = false;
  mul_nonfinite_l x y : f_isfinite x = false → f_isfinite (f_mul x y) = false;
  mul_nonfinite_r x y : f_isfinite y = false → f_isfinite (f_mul x y) = false
}.

(** [>=] on numbers that are not NaN is a total preorder. *)
Class FloatOrder (F : Type) `{FloatOps F} : Prop := {
  ge_total x y : f_isnan x = false → f_isnan y = false →
    f_ge x y = true ∨ f_ge y x = true;
  ge_trans x y z : f_ge x y = true → f_ge y z = true → f_ge x z = true
}.

(** Addition without rounding: commutative and associative. *)
Class ExactAdd (F : Type) `{FloatOps F} : Prop := {
  add_comm x y : f_add x y = f_add y x;
  add_assoc x y z : f_add (f_add x y) z = f_add x (f_add y z)
}.

(** ** Singular value decompositions, in real arithmetic *)

Module Rotation.
Definition diag (w : vec3 R) : mat3 R :=
  (M3 (V3 (vx w) 0 0) (V3 0 (vy w) 0) (V3 0 0 (vz w)))%R.

(** [u], [w], [vt] are a singular value decomposition of [m]. *)
Definition is_svd (m u : mat3 R) (w : vec3 R) (vt : mat3 R) : Prop :=
  Spec.orthogonal u ∧ Spec.orthogonal vt ∧ (0 <= vx w)%R ∧ (0 <= vy w)%R ∧ (0 <= vz w)%R
  ∧ m = np.matmul (np.matmul u (diag w)) vt.
End Rotation.

(** What LAPACK returns is a singular value decomposition. *)
Class LapackSpec `{Lapack R} : Prop :=
  gesdd_svd m u w vt : gesdd m = Some (u, w, vt) → Rotation.is_svd m u w vt.

(** ** Predicates of the statements *)

Section Predicates.
Context {F : Type} `{FloatOps F} `{Lapack F} `{Collaborators F}.
Implicit Types (h : list (Atoms.t F)) (w : world F) (fw : Framework.t).

(** [j] is the first index of a least element of [xs]. *)
Definition first_least (xs : list F) (j : nat) : Prop :=
  ∃ m, xs !! j = Some m ∧
    (∀ k x, xs !! k = Some x → f_ge x m = true) ∧
    (∀ k x, xs !! k = Some x → k < j → f_ge m x = false).

(** What [tag] has done to the atom [x] of the sbu when [x'] is left:
    symbol and position are kept; a dummy has the tag of the first of
    the points of the fragment nearest to it, another atom its own. *)
Definition tagged (fa : Atoms.t F) (x x' : Atom.t F) : Prop :=
  Atom.symbol x' = Atom.symbol x ∧ Atom.position x' = Atom.position x ∧
  if decide (Atom.symbol x = "X")
  then ∃ j y, Atoms.atom_list fa !! j = Some y ∧ Atom.tag x' = Atom.tag y
              ∧ Spec.nearest_first (Atoms.positions fa) (Atom.position x) j
  else Atom.tag x' = Atom.tag x.

(** No distance from a point of the fragment to the atom is a NaN. *)
Definition no_nan_distance (fa : Atoms.t F) (x : Atom.t F) : Prop :=
  ∀ p, p ∈ Atoms.positions fa → f_isnan (Spec.distance p (Atom.position x)) = false.

(** [m] keeps the first [n] objects of the store as they are, whether it
    returns or raises, and what it returns satisfies [Q]. *)
Definition keeps {A} (n : nat) (m : Py F A) (Q : A → Prop) : Prop :=
  ∀ w, n ≤ length (heap w) →
    n ≤ length (heap (m w).2) ∧ take n (heap (m w).2) = take n (heap w) ∧
    ∀ x, (m w).1 = inr x → Q x.

(** The aligned units of a framework are objects created after the
    first [n] of the store. *)
Definition fresh_fragments (n : nat) (fw : Framework.t) : Prop :=
  Forall (λ kf, n ≤ Framework.sbu kf.2) (Framework.fragments fw).

(** The building unit a name of the pool stands for. *)
Definition resolve (self : Self.t) h (name : string) : option SBU.t :=
  l ← Self.sbu self !! name;
  a ← h !! l;
  Some (SBU.mk name l (sbu_shape a)).

(** No unit of the pool has the shape. *)
Definition no_candidate (self : Self.t) h (pool : list string) (shape : string) : Prop :=
  ∀ name u, name ∈ pool → resolve self h name = Some u → SBU.shape u ≠ shape.

(** The exception of [random.choice] on an empty list. *)
Definition empty_choice : exn := IndexError "Cannot choose from an empty sequence".

(** The fragments of the topology are objects of the store. *)
Definition fragments_stored (top : Topology.t) h : Prop :=
  ∀ idx fl, dict.get (Topology.fragments top) idx = Some fl → is_Some (h !! fl).

(** The units of a slot assignment are objects of the store. *)
Definition units_stored (items : list (nat * SBU.t)) h : Prop :=
  ∀ idx sbu, (idx, sbu) ∈ items → is_Some (h !! SBU.atoms sbu).

(** The scale [align] returns for the fragment and the unit of a slot,
    on the world [w]. *)
Definition slot_scale (w : world F) (top : Topology.t) (item : nat * SBU.t) : vec3 F :=
  match dict.get (Topology.fragments top) item.1 with
  | Some fl =>
      match outcome (Autografs.align fl (SBU.atoms item.2) w) with
      | inr r => r.2
      | inl _ => np.zeros3
      end
  | None => np.zeros3
  end.

(** [align] returns for the fragment and the unit of a slot. *)
Definition slot_aligned (w : world F) (top : Topology.t) (item : nat * SBU.t) : Prop :=
  ∃ fl r, dict.get (Topology.fragments top) item.1 = Some fl ∧
    outcome (Autografs.align fl (SBU.atoms item.2) w) = inr r.

(** The keys of a dictionary after [d[k] = v]. *)
Definition add_key (ks : list nat) (k : nat) : list nat :=
  if decide (k ∈ ks) then ks else ks ++ [k].

(** Every object of [h] is in [h'], with the same symbols. *)
Definition same_symbols h h' : Prop :=
  ∀ l a, h !! l = Some a → ∃ a', h' !! l = Some a' ∧ Atoms.symbols a' = Atoms.symbols a.
End Predicates.

(** ** Examples on binary64 *)

Module Example.
Definition zero : spec_float := S754_zero false.

Definition is_zero (x : spec_float) : bool :=
  match x with S754_zero _ => true | _ => false end.

Definition identity : mat3 spec_float :=
  M3 (V3 (B64.of_Z 1) zero zero) (V3 zero (B64.of_Z 1) zero) (V3 zero zero (B64.of_Z 1)).

Definition sign (x : spec_float) : spec_float :=
  match x with
  | S754_finite true _ _ | S754_infinity true | S754_zero true => B64.of_Z (-1)
  | _ => B64.of_Z 1
  end.

(** A stand-in for LAPACK that decomposes the matrices whose
    decomposition is immediate: diagonal, with entries that do not grow
    in absolute value. The factors are the signs of the diagonal, its
    absolute values and the identity. The other matrices are left
    without a decomposition. *)
Definition gesdd_diagonal (m : mat3 spec_float)
    : option (mat3 spec_float * vec3 spec_float * mat3 spec_float) :=
  let d0 := vx (row0 m) in
  let d1 := vy (row1 m) in
  let d2 := vz (row2 m) in
  if is_zero (vy (row0 m)) && is_zero (vz (row0 m))
     && is_zero (vx (row1 m)) && is_zero (vz (row1 m))
     && is_zero (vx (row2 m)) && is_zero (vy (row2 m))
     && SFleb (SFabs d1) (SFabs d0) && SFleb (SFabs d2) (SFabs d1)
  then Some (M3 (V3 (sign d0) zero zero) (V3 zero (sign d1) zero) (V3 zero zero (sign d2)),
             V3 (SFabs d0) (SFabs d1) (SFabs d2), identity)
  else None.

#[export] Instance lapack : Lapack spec_float := {| gesdd := gesdd_diagonal |}.

Definition shape_of_count (n : nat) : string :=
  match n with
  | 2 => "linear"
  | 3 => "triangle"
  | 4 => "tetrahedral"
  | _ => "point"
  end.

(** The slots of a net, for the examples: the tag of an atom of the net
    is the index of its slot; the points of a fragment are tagged with
    their row in the net. *)
Definition rows_of_slot (a : Atoms.t spec_float) (k : Z) : list (Atom.t spec_float) :=
  (λ ix : nat * Atom.t spec_float, Atom.mk (Atom.symbol ix.2) (Atom.position ix.2) (Z.of_nat ix.1))
    <$> filter (λ ix : nat * Atom.t spec_float, Atom.tag ix.2 = k) (imap pair (Atoms.atom_list a)).

Definition slots_of_net (a : Atoms.t spec_float) : list (nat * Atoms.t spec_float * string) :=
  (λ k : Z, (Z.to_nat k, Atoms.mk (rows_of_slot a k) ∅,
             shape_of_count (length (rows_of_slot a k))))
    <$> remove_dups (Atoms.tags a).

#[export] Instance collaborators : Collaborators spec_float := {|
  topology_slots := slots_of_net;
  sbu_shape := λ a, shape_of_count (length (Spec.connection_points a));
  analyze_mm := λ a, (Bonds [], MMTypes (Atoms.symbols a));
  refined_positions := λ alpha0 all index, default [] (dict.get all index)
|}.

Definition point (x y z : spec_float) (t : Z) : Atom.t spec_float := Atom.mk "X" (V3 x y z) t.
Definition dummy (x y z : spec_float) : Atom.t spec_float := Atom.mk "X" (V3 x y z) 0.
Definition carbon (x y z : spec_float) : Atom.t spec_float := Atom.mk "C" (V3 x y z) 0.
Definition i (z : Z) : spec_float := B64.of_Z z.

(** A net of three slots on the x axis, two points each. *)
Definition chain : Atoms.t spec_float :=
  Atoms.mk [point (i 6) zero zero 0; point (i 4) zero zero 0;
            point (i 11) zero zero 1; point (i 9) zero zero 1;
            point (i 16) zero zero 2; point (i 14) zero zero 2] ∅.

(** A linear unit: two dummies at [x] and [-x] on the x axis and a
    carbon between them. *)
Definition linear (x : spec_float) : Atoms.t spec_float :=
  Atoms.mk [dummy x zero zero; dummy (SFopp x) zero zero; carbon zero zero zero] ∅.

(** A net of one slot of three points. *)
Definition triangle_net : Atoms.t spec_float :=
  Atoms.mk [point (i 1) zero zero 0; point zero (i 1) zero 0; point zero zero (i 1) 0] ∅.

(** A fragment of one point: the point is its centroid. *)
Definition point_fragment : Atoms.t spec_float :=
  Atoms.mk [point (i 1) (i 2) (i 2) 0] ∅.

(** A unit with one dummy, at distance 1 from the centroid. *)
Definition single : Atoms.t spec_float :=
  Atoms.mk [dummy (i 1) zero zero; carbon (i (-1)) zero zero] ∅.

(** The fragment of the first slot of [chain]. *)
Definition slot0 : Atoms.t spec_float :=
  Atoms.mk [point (i 6) zero zero 0; point (i 4) zero zero 1] ∅.

(** A unit without connection point. *)
Definition bare : Atoms.t spec_float :=
  Atoms.mk [carbon (i 1) zero zero; carbon (i (-1)) zero zero] ∅.

(** An octahedral fragment around (2,2,1), and the unit whose dummies
    are its points seen in a mirror: the third coordinate is negated. *)
Definition octahedron : Atoms.t spec_float :=
  Atoms.mk [point (i 3) (i 2) (i 1) 0; point (i 1) (i 2) (i 1) 1;
            point (i 2) (i 3) (i 1) 2; point (i 2) (i 1) (i 1) 3;
            point (i 2) (i 2) (i 2) 4; point (i 2) (i 2) zero 5] ∅.

Definition mirrored : Atoms.t spec_float :=
  Atoms.mk [dummy (i 1) zero zero; dummy (i (-1)) zero zero;
            dummy zero (i 1) zero; dummy zero (i (-1)) zero;
            dummy zero zero (i (-1)); dummy zero zero (i 1)] ∅.

Definition store : list (Atoms.t spec_float) :=
  [chain; linear (B64.dec 5 2); linear (B64.dec 1 1); linear (B64.dec 15 2); triangle_net].

Definition self : Self.t :=
  Self.mk {["chain" := 0; "triangle" := 4]} {["A" := 1; "B" := 2; "C" := 3]}.

Definition rng0 : random_state := mkRandom (λ _, 0) 0.

Definition world0 : world spec_float := mkWorld store rng0.

(** A store of two objects: a fragment at 0 and a unit at 1. *)
Definition pair_world (fragment unit : Atoms.t spec_float) : world spec_float :=
  mkWorld [fragment; unit] rng0.

Definition unit_a : SBU.t := SBU.mk "A" 1 "linear".
Definition unit_b : SBU.t := SBU.mk "B" 2 "linear".
Definition unit_c : SBU.t := SBU.mk "C" 3 "linear".

Definition assignment : list (nat * SBU.t) := [(0, unit_a); (1, unit_b); (2, unit_c)].

(** The same slot assignment, filled in the opposite order. *)
Definition assignment_reversed : list (nat * SBU.t) := [(2, unit_c); (1, unit_b); (0, unit_a)].

Definition no_topology : Topology.t := Topology.mk "" 0 [] [].

(** What [Topology] builds for the nets of [self]. *)
Definition chain_built : (exn + Topology.t) * world spec_float :=
  Eval vm_compute in Topology.new "chain" 0 world0.

Definition chain_topology : Topology.t :=
  match chain_built.1 with inr top => top | inl _ => no_topology end.

Definition triangle_built : (exn + Topology.t) * world spec_float :=
  Eval vm_compute in Topology.new "triangle" 4 world0.

Definition triangle_topology : Topology.t :=
  match triangle_built.1 with inr top => top | inl _ => no_topology end.

(** What [make] returns for [assignment] on the net "chain". *)
Definition chain_made : (exn + Framework.t) * world spec_float :=
  Eval vm_compute in Autografs.make self "chain" None (Some assignment) world0.

Definition chain_framework : Framework.t :=
  match chain_made.1 with inr fw => fw | inl _ => Framework.new end.

Definition chain_aligned : (exn + Framework.t * (spec_float + vec3 spec_float)) * world spec_float :=
  Eval vm_compute in Autografs.make_aligned self "chain" None (Some assignment) world0.

Definition chain_scale : spec_float + vec3 spec_float :=
  match chain_aligned.1 with inr r => r.2 | inl _ => inl zero end.

(** The reflection in the plane of the first two axes. *)
Definition reflection : mat3 spec_float :=
  M3 (V3 (i 1) zero zero) (V3 zero (i 1) zero) (V3 zero zero (i (-1))).

End Example.

(** ** An example in real arithmetic *)

Module RealExample.
Definition sign (x : R) : R := if Rle_dec 0 x then 1%R else (-1)%R.

Definition is_zero (x : R) : bool := if Req_dec_T x 0 then true else false.

(** A decomposition of the diagonal matrices: the signs of the diagonal,
    its absolute values and the identity. The other matrices are left
    without one. *)
Definition gesdd_signed (m : mat3 R) : option (mat3 R * vec3 R * mat3 R) :=
  let d0 := vx (row0 m) in
  let d1 := vy (row1 m) in
  let d2 := vz (row2 m) in
  if is_zero (vy (row0 m)) && is_zero (vz (row0 m))
     && is_zero (vx (row1 m)) && is_zero (vz (row1 m))
     && is_zero (vx (row2 m)) && is_zero (vy (row2 m))
  then Some (Rotation.diag (V3 (sign d0) (sign d1) (sign d2)),
             V3 (Rabs d0) (Rabs d1) (Rabs d2), Spec.identity)
  else None.

#[export] Instance lapack : Lapack R := {| gesdd := gesdd_signed |}.

Definition point (x y z : R) (t : Z) : Atom.t R := Atom.mk "X" (V3 x y z) t.

(** The fragment of a slot of two points, at (6,0,0) and (4,0,0). *)
Definition fragment : Atoms.t R := Atoms.mk [point 6 0 0 1; point 4 0 0 2] ∅.

(** A linear unit: dummies at (2,0,0) and (-2,0,0), a carbon between. *)
Definition unit : Atoms.t R :=
  Atoms.mk [point 2 0 0 0; point (-2) 0 0 0; Atom.mk "C" (V3 0 0 0)%R 0] ∅.

Definition world0 : world R := mkWorld [fragment; unit] (mkRandom (λ _, 0) 0).
End RealExample.

(** ** Predicates of the further statements *)

Section MorePredicates.
Context {F : Type} `{FloatOps F}.

(** What one turn of the loop of [tag] leaves of the atom [x] of the
    unit: the atom itself when it is no dummy, the atom with the tag of
    the row of the fragment that [numpy.argmin] picks when it is. *)
Definition retag (fa : Atoms.t F) (x : Atom.t F) : exn + Atom.t F :=
  if bool_decide (Atom.symbol x ≠ "X") then inr x
  else
    match np.argmin (np.norm_axis1 (np.sub_rows (Atoms.positions fa) (Atom.position x))) with
    | inl e => inl e
    | inr fi =>
        match Atoms.atom_list fa !! fi with
        | Some y => inr (Atom.mk (Atom.symbol x) (Atom.position x) (Atom.tag y))
        | None => inl (IndexError "index out of range")
        end
    end.

(** The exception of [numpy.argmin] on an empty array. *)
Definition empty_argmin : exn := ValueError "attempt to get argmin of an empty sequence".

(** The atom [x'] of the aligned unit stands for the atom [x] of the
    unit: the same symbol; a dummy carries a tag of the fragment,
    another atom its own tag. *)
Definition aligned_atom (fa : Atoms.t F) (x x' : Atom.t F) : Prop :=
  Atom.symbol x' = Atom.symbol x ∧
  if decide (Atom.symbol x = "X") then Atom.tag x' ∈ Atoms.tags fa
  else Atom.tag x' = Atom.tag x.

(** A computation that leaves the state of [random] as it is. *)
Definition draws_nothing {A} (m : Py F A) : Prop := ∀ w, rand (m w).2 = rand w.


(** Two 1-d arrays of [n] and of [m] elements can be broadcast
    together: the lengths are equal, or one of them is 1. *)
Definition broadcast (n m : nat) : Prop := n = m ∨ n = 1 ∨ m = 1.

End MorePredicates.

Section MakerPredicates.
Context {F : Type} `{Collaborators F}.

(** The bonds and the types [make] hands to [append] for a unit: those
    of its [info] when it has both keys, those [analyze_mm] computes
    when a key is missing. *)
Definition force_field (sa : Atoms.t F) : info_value * info_value :=
  match Atoms.info sa !! "bonds", Atoms.info sa !! "mmtypes" with
  | Some sbu_bonds, Some sbu_types => (sbu_bonds, sbu_types)
  | _, _ => analyze_mm sa
  end.
End MakerPredicates.

(** ** [utils/io.py]: what [read_cgd] does with one topology

    [read_cgd] cuts the file of nets at every "END", and the text of a
    topology into lines and the lines into words. The loop over the
    lines and the treatment of the group follow, from the words on.
    Every exception they raise is caught by [read_cgd], which goes on
    to the next topology. *)

(** What Python and ASE read from a word or hold in a table. *)
Class Parsers (F : Type) := {
  (** [numpy.float32(word)]: nothing when the word is no number; a
      number is one [f_single] leaves as it is. *)
  float32 : string → option F;
  (** [int(word)]: nothing when the word is no integer. *)
  int : string → option Z;
  (** [ase.data.chemical_symbols] *)
  chemical_symbols : list string
}.

Module cgd.
(** [l[k]] for a Python list and an integer: a negative [k] counts from
    the end. *)
Definition subscript {A} (l : list A) (k : Z) : exn + A :=
  let i := if (k <? 0)%Z then (Z.of_nat (length l) + k)%Z else k in
  match (if (i <? 0)%Z then None else l !! Z.to_nat i) with
  | Some x => inr x
  | None => inl (IndexError "list index out of range")
  end.

(** The blanks of [str.strip]: the ASCII characters Python takes for
    white space, tab to carriage return, the four separators and the
    space. *)
Definition is_space (c : Ascii.ascii) : bool :=
  let n := Ascii.nat_of_ascii c in
  (9 <=? n) && (n <=? 13) || (28 <=? n) && (n <=? 32).

Fixpoint lstrip (word : string) : string :=
  match word with
  | EmptyString => EmptyString
  | String c rest => if is_space c then lstrip rest else word
  end.

Fixpoint rstrip (word : string) : string :=
  match word with
  | EmptyString => EmptyString
  | String c rest =>
      match rstrip rest with
      | EmptyString => if is_space c then EmptyString else String c EmptyString
      | rest' => String c rest'
      end
  end.

(** [word.strip()] *)
Definition strip (word : string) : string := lstrip (rstrip word).

(** [word.startswith(prefix)] *)
Definition startswith (word prefix : string) : bool := String.prefix prefix word.

Section Arrays.
Context {F : Type} `{FloatOps F} `{Parsers F}.

(** [numpy.array(words, dtype=numpy.float32)] *)
Definition float32_array (words : list string) : exn + list F :=
  match mapM float32 words with
  | Some xs => inr xs
  | None => inl (ValueError "could not convert string to float")
  end.

(** 0.5 *)
Definition half : F := f_div f_one f_two.

(** [numpy.eye(s) * c], by rows. *)
Definition eye_times (s : nat) (c : F) : list (list F) :=
  (λ k, (λ j, f_mul (if bool_decide (k = j) then f_one else f_zero) c) <$> seq 0 s)
    <$> seq 0 s.

(** [r.dot(m)] for a row of [s] numbers and an array of [s] rows and
    [s] columns. The sum of a column has one term that can be other
    than a zero, so that the order of the terms is of no account. *)
Definition row_dot (s : nat) (r : list F) (m : list (list F)) : list F :=
  (λ j, np.add_reduce (zip_with (λ x row, f_mul x (default f_zero (row !! j))) r m))
    <$> seq 0 s.

(** Lines 81 to 85: the two dummies of an edge, from its two ends as
    arrays of [float32]. The mean and the difference are [float32], the
    product with the array of [float64] and the sum after it are
    [float64]. *)
Definition edge_nodes (s : nat) (x0 x1 : list F) : exn + (list F * list F) :=
  if negb (bool_decide (length x0 = length x1))
  then inl (ValueError "all the input array dimensions except for the concatenation axis must match exactly")
  else
    let com := zip_with (λ a b, f_single (f_div (f_single (f_add a b)) f_two)) x0 x1 in
    let xx0 := zip_with (λ a c, f_single (f_sub a c)) x0 com in
    let xx1 := zip_with (λ a c, f_single (f_sub a c)) x1 com in
    if negb (bool_decide (length x0 = s))
    then inl (ValueError "shapes not aligned")
    else
      let h0 := row_dot s xx0 (eye_times s half) in
      let h1 := row_dot s xx1 (eye_times s half) in
      inr (zip_with f_add h0 com, zip_with f_add h1 com).

(** The locals of the loop over the lines of a topology. *)
Record block := mkBlock {
  name : option string;
  group : option string;
  cell : list F;
  symbols : list string;
  nodes : list (list F)
}.

Definition empty : block := mkBlock None None [] [] [].

(** The body of the loop, lines 59 to 87, for the words [l] of a line. *)
Definition read_line (b : block) (l : list string) : exn + block :=
  l0 ← subscript l 0;
  if startswith l0 "NAME" then
    l1 ← subscript l 1;
    mret (mkBlock (Some (strip l1)) (group b) (cell b) (symbols b) (nodes b))
  else if startswith l0 "GROUP" then
    l1 ← subscript l 1;
    mret (mkBlock (name b) (Some l1) (cell b) (symbols b) (nodes b))
  else if startswith l0 "CELL" then
    c ← float32_array (drop 1 l);
    mret (mkBlock (name b) (group b) c (symbols b) (nodes b))
  else if startswith l0 "NODE" then
    l2 ← subscript l 2;
    k ← match int l2 with
        | Some k => inr k
        | None => inl (ValueError "invalid literal for int() with base 10")
        end;
    this_symbol ← subscript chemical_symbols k;
    this_node ← float32_array (drop 3 l);
    mret (mkBlock (name b) (group b) (cell b) (symbols b ++ [this_symbol])
            (nodes b ++ [this_node]))
  else
    edge_center ← (if startswith l0 "#"
                   then l1 ← subscript l 1; mret (startswith l1 "EDGE_CENTER")
                   else mret false);
    if edge_center : bool then
      this_node ← float32_array (drop 2 l);
      mret (mkBlock (name b) (group b) (cell b) (symbols b ++ ["He"])
              (nodes b ++ [this_node]))
    else if startswith l0 "EDGE" then
      let s := (length l - 1) / 2 in
      let midl := (length l + 1) / 2 in
      x0 ← float32_array (take (midl - 1) (drop 1 l));
      x1 ← float32_array (drop midl l);
      xx ← edge_nodes s x0 x1;
      mret (mkBlock (name b) (group b) (cell b) (symbols b ++ ["X"; "X"])
              (nodes b ++ [xx.1; xx.2]))
    else mret b.

(** The loop over the lines, from the locals [b]. *)
Fixpoint read_lines (b : block) (lines : list (list string)) : exn + block :=
  match lines with
  | [] => inr b
  | l :: lines => b' ← read_line b l; read_lines b' lines
  end.

(** The character ":", code 58. *)
Definition colon : Ascii.ascii := Ascii.ascii_of_nat 58.

(** [word.split(":")] *)
Fixpoint split_colon (word : string) : list string :=
  match word with
  | EmptyString => [EmptyString]
  | String c rest =>
      if Ascii.eqb c colon then EmptyString :: split_colon rest
      else match split_colon rest with
           | [] => [String c EmptyString]
           | part :: parts => String c part :: parts
           end
  end.

(** [":".join(parts)] *)
Fixpoint join_colon (parts : list string) : string :=
  match parts with
  | [] => EmptyString
  | [part] => part
  | part :: parts => String.append part (String colon (join_colon parts))
  end.

(** [":" in word] *)
Fixpoint has_colon (word : string) : bool :=
  match word with
  | EmptyString => false
  | String c rest => Ascii.eqb c colon || has_colon rest
  end.

(** Lines 101 to 108: the group and its setting. A topology without a
    "GROUP" line has [None] for a group, in which nothing can be looked
    for. *)
Definition group_setting (group : option string) : exn + (string * Z) :=
  match group with
  | None => inl (TypeError "argument of type 'NoneType' is not iterable")
  | Some g =>
      if has_colon g then
        match split_colon g with
        | [g'; setting] => inr (g', default 1%Z (int (strip setting)))
        | _ => inl (ValueError "too many values to unpack (expected 2)")
        end
      else inr (g, 1%Z)
  end.
End Arrays.
End cgd.

(** ** More examples on binary64 *)

Module Example2.
Import Example.

(** A fragment without point. *)
Definition no_point : Atoms.t spec_float := Atoms.mk [] ∅.

(** The fragment of a slot of two points around the origin. *)
Definition origin_slot : Atoms.t spec_float :=
  Atoms.mk [point (i 1) zero zero 0; point (i (-1)) zero zero 1] ∅.

(** What [align] returns for [origin_slot] and a linear unit. *)
Definition origin_aligned : (exn + loc * vec3 spec_float) * world spec_float :=
  Eval vm_compute in Autografs.align 0 1 (pair_world origin_slot (linear (i 2))).

Definition origin_scale : vec3 spec_float :=
  match origin_aligned.1 with inr r => r.2 | inl _ => np.zeros3 end.

(** A fragment of three points on a line, the second at their
    centroid. *)
Definition line_fragment : Atoms.t spec_float :=
  Atoms.mk [point (i 6) zero zero 0; point (i 5) zero zero 1; point (i 4) zero zero 2] ∅.

(** A fragment with a coordinate that is not a number. *)
Definition nan_fragment : Atoms.t spec_float :=
  Atoms.mk [point S754_nan zero zero 0; point (i 1) zero zero 1] ∅.

(** What [get_sbu_dict] returns for the net "chain" and a pool of two
    linear units. *)
Definition chain_assigned : (exn + list (nat * SBU.t)) * world spec_float :=
  Eval vm_compute in
    Autografs.get_sbu_dict self chain_topology (Some ["A"; "B"]) chain_built.2.

Definition chain_assignment : list (nat * SBU.t) :=
  match chain_assigned.1 with inr d => d | inl _ => [] end.

(** The value of a word of decimal digits. *)
Definition digit (c : Ascii.ascii) : option Z :=
  let n := Ascii.nat_of_ascii c in
  if (48 <=? n) && (n <=? 57) then Some (Z.of_nat (n - 48)) else None.

Fixpoint digits (acc : Z) (word : string) : option Z :=
  match word with
  | EmptyString => Some acc
  | String c rest => d ← digit c; digits (10 * acc + d) rest
  end.

Definition number (word : string) : option Z :=
  match word with
  | EmptyString => None
  | _ => digits 0 word
  end.

(** A stand-in for the parsers of Python and numpy, for the examples:
    it reads the words of decimal digits, and holds the first symbols of
    the table of ASE. *)
#[export] Instance parsers : Parsers spec_float := {|
  float32 := λ word, (λ n, B64.single (B64.of_Z n)) <$> number word;
  int := number;
  chemical_symbols := ["X"; "H"; "He"; "Li"; "Be"; "B"; "C"]
|}.

(** The words of the lines of a net of one node and one edge. *)
Definition net_lines : list (list string) :=
  [["NAME"; "net"]; ["GROUP"; "P1"]; ["CELL"; "1"; "1"; "1"; "90"; "90"; "90"];
   ["NODE"; "1"; "2"; "0"; "0"; "0"]; ["EDGE"; "0"; "0"; "0"; "1"; "0"; "0"]].

Definition net_block : exn + cgd.block (F:=spec_float) :=
  Eval vm_compute in cgd.read_lines cgd.empty net_lines.

Definition net_read : cgd.block (F:=spec_float) :=
  match net_block with inr b => b | inl _ => cgd.empty end.
End Example2.

(** * Lemmas and theorems *)

(** ** Running computations on an extended store *)

Section Run.
Context {F : Type}.
Implicit Types (h l : list (Atoms.t F)) (r : random_state) (a : Atoms.t F).

Lemma bind_run {A B} (m : Py F A) (k : A → Py F B) w x w' :
  m w = (inr x, w') → (m ≫= k) w = k x w'.
Proof. intros Hm. unfold mbind, py_bind. by rewrite Hm. Qed.

Lemma bind_raise {A B} (m : Py F A) (k : A → Py F B) w e w' :
  m w = (inl e, w') → (m ≫= k) w = (inl e, w').
Proof. intros Hm. unfold mbind, py_bind. by rewrite Hm. Qed.

Lemma lookup_ext h l i : (h ++ l) !! (length h + i) = l !! i.
Proof. rewrite lookup_app_r by lia. f_equal. lia. Qed.

Lemma deref_base h l r x a :
  h !! x = Some a → deref x (mkWorld (h ++ l) r) = (inr a, mkWorld (h ++ l) r).
Proof. intros Hx. unfold deref. simpl. by rewrite (lookup_app_l_Some _ _ _ _ Hx). Qed.

Lemma deref_ext h l r i a :
  l !! i = Some a → deref (length h + i) (mkWorld (h ++ l) r) = (inr a, mkWorld (h ++ l) r).
Proof. intros Hi. unfold deref. simpl. by rewrite lookup_ext, Hi. Qed.

Lemma alloc_ext h l r a :
  alloc a (mkWorld (h ++ l) r) = (inr (length h + length l), mkWorld (h ++ (l ++ [a])) r).
Proof. unfold alloc. simpl. by rewrite length_app, app_assoc. Qed.

Lemma assign_ext h l r i a :
  assign (length h + i) a (mkWorld (h ++ l) r) = (inr tt, mkWorld (h ++ <[i:=a]> l) r).
Proof. unfold assign. simpl. by rewrite insert_app_r. Qed.

Lemma copy_base h l r x a :
  h !! x = Some a →
  ase.copy x (mkWorld (h ++ l) r) = (inr (length h + length l), mkWorld (h ++ (l ++ [a])) r).
Proof.
  intros Hx. unfold ase.copy.
  rewrite (bind_run _ _ _ _ _ (deref_base h l r x a Hx)). apply alloc_ext.
Qed.

Lemma get_positions_ext h l r i a :
  l !! i = Some a →
  ase.get_positions (length h + i) (mkWorld (h ++ l) r)
  = (inr (Atoms.positions a), mkWorld (h ++ l) r).
Proof.
  intros Hi. unfold ase.get_positions.
  by rewrite (bind_run _ _ _ _ _ (deref_ext h l r i a Hi)).
Qed.

Lemma set_positions_ext h l r i a ps :
  l !! i = Some a → length ps = length (Atoms.atom_list a) →
  ase.set_positions (length h + i) ps (mkWorld (h ++ l) r)
  = (inr tt, mkWorld (h ++ <[i:=ase.with_positions a ps]> l) r).
Proof.
  intros Hi Hlen. unfold ase.set_positions.
  rewrite (bind_run _ _ _ _ _ (deref_ext h l r i a Hi)).
  rewrite decide_True by done. apply assign_ext.
Qed.

Lemma len_ext h l r i a :
  l !! i = Some a →
  ase.len (length h + i) (mkWorld (h ++ l) r)
  = (inr (length (Atoms.atom_list a)), mkWorld (h ++ l) r).
Proof.
  intros Hi. unfold ase.len.
  by rewrite (bind_run _ _ _ _ _ (deref_ext h l r i a Hi)).
Qed.

Lemma getitem_list_ext h l r i a indices xs :
  l !! i = Some a → mapM (λ k, Atoms.atom_list a !! k) indices = Some xs →
  ase.getitem_list (length h + i) indices (mkWorld (h ++ l) r)
  = (inr (length h + length l), mkWorld (h ++ (l ++ [Atoms.mk xs (Atoms.info a)])) r).
Proof.
  intros Hi Hxs. unfold ase.getitem_list.
  rewrite (bind_run _ _ _ _ _ (deref_ext h l r i a Hi)).
  rewrite Hxs. apply alloc_ext.
Qed.
End Run.

Section TagRun.
Context {F : Type} `{FloatOps F}.
Implicit Types (h l : list (Atoms.t F)) (r : random_state) (a fa : Atoms.t F).

Lemma getitem_ext h l r i a k :
  l !! i = Some a →
  ase.getitem (length h + i) k (mkWorld (h ++ l) r)
  = (match Atoms.atom_list a !! k with
     | Some x => inr x
     | None => inl (IndexError "index out of range")
     end, mkWorld (h ++ l) r).
Proof.
  intros Hi. unfold ase.getitem.
  rewrite (bind_run _ _ _ _ _ (deref_ext h l r i a Hi)).
  by destruct (Atoms.atom_list a !! k).
Qed.

Lemma set_tag_ext h l r i a k t :
  l !! i = Some a →
  ase.set_tag (length h + i) k t (mkWorld (h ++ l) r)
  = (inr tt, mkWorld (h ++ <[i:=ase.with_tag a k t]> l) r).
Proof.
  intros Hi. unfold ase.set_tag.
  rewrite (bind_run _ _ _ _ _ (deref_ext h l r i a Hi)). apply assign_ext.
Qed.

Lemma tag_atom_run h l r i j k a fa :
  l !! i = Some a → l !! j = Some fa → i ≠ j →
  Autografs.tag_atom (length h + i) (length h + j) k (mkWorld (h ++ l) r)
  = ((Summary.tag_row fa a k).1, mkWorld (h ++ <[i:=(Summary.tag_row fa a k).2]> l) r).
Proof.
  intros Hi Hj Hne. unfold Autografs.tag_atom, Summary.tag_row.
  destruct (Atoms.atom_list a !! k) as [x|] eqn:Hk.
  - rewrite (bind_run _ _ _ x _ (eq_trans (getitem_ext h l r i a k Hi) ltac:(by rewrite Hk))).
    destruct (bool_decide (Atom.symbol x ≠ "X")); simpl.
    { by rewrite list_insert_id. }
    rewrite (bind_run _ _ _ _ _ (get_positions_ext h l r j fa Hj)).
    destruct (np.argmin _) as [e|fi] eqn:Hfi.
    { rewrite (bind_raise _ _ _ e _ (eq_refl : lift (inl e) _ = _)).
      simpl. by rewrite list_insert_id. }
    rewrite (bind_run _ _ _ fi _ (eq_refl : lift (inr fi) _ = _)).
    destruct (Atoms.atom_list fa !! fi) as [y|] eqn:Hy.
    + rewrite (bind_run _ _ _ y _ (eq_trans (getitem_ext h l r j fa fi Hj) ltac:(by rewrite Hy))).
      by apply set_tag_ext.
    + rewrite (bind_raise _ _ _ (IndexError "index out of range") _
                 (eq_trans (getitem_ext h l r j fa fi Hj) ltac:(by rewrite Hy))).
      simpl. by rewrite list_insert_id.
  - rewrite (bind_raise _ _ _ (IndexError "index out of range") _
               (eq_trans (getitem_ext h l r i a k Hi) ltac:(by rewrite Hk))).
    simpl. by rewrite list_insert_id.
Qed.

Lemma tag_loop_run h l r i j rows a fa :
  l !! i = Some a → l !! j = Some fa → i ≠ j →
  Autografs.tag_loop (length h + i) (length h + j) rows (mkWorld (h ++ l) r)
  = ((Summary.tag_rows fa a rows).1, mkWorld (h ++ <[i:=(Summary.tag_rows fa a rows).2]> l) r).
Proof.
  intros Hi Hj Hne. revert l a Hi Hj.
  induction rows as [|k rows IH]; intros l a Hi Hj; simpl.
  { unfold mret, py_ret. by rewrite list_insert_id. }
  pose proof (tag_atom_run h l r i j k a fa Hi Hj Hne) as Hrow.
  destruct (Summary.tag_row fa a k) as [[e|[]] a'] eqn:Ha'; simpl in Hrow.
  - by rewrite (bind_raise _ _ _ _ _ Hrow).
  - rewrite (bind_run _ _ _ _ _ Hrow).
    rewrite (IH (<[i:=a']> l) a').
    + by rewrite list_insert_insert_eq.
    + apply list_lookup_insert_eq. by eapply lookup_lt_Some.
    + by rewrite list_lookup_insert_ne.
Qed.

Lemma tag_ext h l r i j a fa :
  l !! i = Some a → l !! j = Some fa → i ≠ j →
  Autografs.tag (length h + i) (length h + j) (mkWorld (h ++ l) r)
  = ((Summary.tag_rows fa a (seq 0 (length (Atoms.atom_list a)))).1,
     mkWorld (h ++ <[i:=(Summary.tag_rows fa a (seq 0 (length (Atoms.atom_list a)))).2]> l) r).
Proof.
  intros Hi Hj Hne. unfold Autografs.tag.
  rewrite (bind_run _ _ _ _ _ (len_ext h l r i a Hi)).
  by apply tag_loop_run.
Qed.
End TagRun.

Section Shapes.
Context {F : Type} `{FloatOps F}.
Implicit Types (a : Atoms.t F) (ps : list (vec3 F)).

Lemma length_positions a : length (Atoms.positions a) = length (Atoms.atom_list a).
Proof. apply length_fmap. Qed.

Lemma length_sub_rows ps v : length (np.sub_rows ps v) = length ps.
Proof. apply length_fmap. Qed.

Lemma length_dot ps m : length (np.dot ps m) = length ps.
Proof. apply length_fmap. Qed.

Lemma length_with_positions a ps :
  length ps = length (Atoms.atom_list a) →
  length (Atoms.atom_list (ase.with_positions a ps)) = length (Atoms.atom_list a).
Proof. intros Hlen. simpl. rewrite length_zip_with. lia. Qed.

Lemma positions_with_positions a ps :
  length ps = length (Atoms.atom_list a) →
  Atoms.positions (ase.with_positions a ps) = ps.
Proof.
  unfold Atoms.positions, ase.with_positions. simpl.
  generalize (Atoms.atom_list a). clear a. intros xs. revert xs.
  induction ps as [|p ps IH]; intros [|x xs] Hlen; simpl in *; try done.
  f_equal. apply IH. lia.
Qed.

Lemma symbols_with_positions a ps :
  length ps = length (Atoms.atom_list a) →
  Atoms.symbols (ase.with_positions a ps) = Atoms.symbols a.
Proof.
  unfold Atoms.symbols, ase.with_positions. simpl.
  generalize (Atoms.atom_list a). clear a. intros xs. revert ps.
  induction xs as [|x xs IH]; intros [|p ps] Hlen; simpl in *; try done.
  f_equal. apply IH. lia.
Qed.

Lemma tags_with_positions a ps :
  length ps = length (Atoms.atom_list a) →
  Atoms.tags (ase.with_positions a ps) = Atoms.tags a.
Proof.
  unfold Atoms.tags, ase.with_positions. simpl.
  generalize (Atoms.atom_list a). clear a. intros xs. revert ps.
  induction xs as [|x xs IH]; intros [|p ps] Hlen; simpl in *; try done.
  f_equal. apply IH. lia.
Qed.

Lemma length_centre a :
  length (Atoms.atom_list (Summary.centre a)) = length (Atoms.atom_list a).
Proof.
  apply length_with_positions. by rewrite length_sub_rows, length_positions.
Qed.

Lemma dummies_lookup_from (p xs : list (Atom.t F)) :
  mapM (λ k, (p ++ xs) !! k)
    (fst <$> filter (λ ix : nat * Atom.t F, Atom.symbol ix.2 = "X")
               (imap (λ i x, (length p + i, x)) xs))
  = Some (filter (λ x, Atom.symbol x = "X") xs).
Proof.
  revert p. induction xs as [|x xs IH]; intros p; [done|].
  rewrite imap_cons.
  assert (Hshift : imap ((λ i y, (length p + i, y)) ∘ S) xs
                   = imap (λ i y, (length (p ++ [x]) + i, y)) xs).
  { apply imap_ext. intros i y _. simpl. rewrite length_app. simpl. f_equal. lia. }
  rewrite Hshift. specialize (IH (p ++ [x])). rewrite <- app_assoc in IH. simpl in IH.
  rewrite !filter_cons. simpl.
  set (rest := fst <$> filter _ (imap _ xs)) in *.
  destruct (decide (Atom.symbol x = "X")) as [HX|HX]; simpl.
  - rewrite Nat.add_0_r, list_lookup_middle by done. simpl.
    unfold rest, fmap in IH. by rewrite IH.
  - unfold rest, fmap in IH. apply IH.
Qed.

Lemma dummies_lookup (xs : list (Atom.t F)) :
  mapM (λ k, xs !! k) (Autografs.dummies xs)
  = Some (filter (λ x, Atom.symbol x = "X") xs).
Proof. apply (dummies_lookup_from [] xs). Qed.
End Shapes.

Section AlignRun.
Context {F : Type} `{FloatOps F} `{Lapack F}.
Implicit Types (h l : list (Atoms.t F)) (r : random_state) (a fa sa : Atoms.t F).

(** [align] on a store that holds the fragment and the sbu: the outcome
    and the new objects are those of the summary, the store is otherwise
    as it was. *)
Lemma align_run w f s fa sa :
  heap w !! f = Some fa → heap w !! s = Some sa →
  Autografs.align f s w
  = (match (Summary.align_objects fa sa).1 with
     | inl e => inl e
     | inr alpha => inr (length (heap w), alpha)
     end,
     mkWorld (heap w ++ (Summary.align_objects fa sa).2) (rand w)).
Proof.
  destruct w as [h r]. simpl. intros Hf Hs.
  unfold Autografs.align, Summary.align_objects.
  set (sa1 := Summary.centre sa). set (fa1 := Summary.centre fa).
  set (sx := Summary.dummy_atoms sa1).
  rewrite <- (app_nil_r h) at 1.
  rewrite (bind_run _ _ _ _ _ (copy_base h [] r s sa Hs)). simpl length. simpl app.
  rewrite (bind_run _ _ _ _ _ (copy_base h [sa] r f fa Hf)). simpl length. simpl app.
  rewrite (bind_run _ _ _ _ _ (get_positions_ext h [sa; fa] r 1 fa eq_refl)).
  rewrite (bind_run _ _ _ _ _ (set_positions_ext h [sa; fa] r 1 fa _ eq_refl
             ltac:(by rewrite length_sub_rows, length_positions))).
  change (<[1:=_]> [sa; fa]) with [sa; fa1].
  rewrite (bind_run _ _ _ _ _ (get_positions_ext h [sa; fa1] r 0 sa eq_refl)).
  rewrite (bind_run _ _ _ _ _ (set_positions_ext h [sa; fa1] r 0 sa _ eq_refl
             ltac:(by rewrite length_sub_rows, length_positions))).
  change (<[0:=_]> [sa; fa1]) with [sa1; fa1].
  rewrite (bind_run _ _ _ _ _ (deref_ext h [sa1; fa1] r 0 sa1 eq_refl)).
  rewrite (bind_run _ _ _ _ _ (getitem_list_ext h [sa1; fa1] r 0 sa1 _ _ eq_refl
             (dummies_lookup (Atoms.atom_list sa1)))).
  simpl length. simpl app. fold (Summary.dummy_atoms sa1). fold sx.
  rewrite (bind_run _ _ _ _ _ (get_positions_ext h [sa1; fa1; sx] r 2 sx eq_refl)).
  rewrite (bind_run _ _ _ _ _ (get_positions_ext h [sa1; fa1; sx] r 1 fa1 eq_refl)).
  destruct (Autografs.scaling_factor _ _ _) as [e|alpha].
  { by rewrite (bind_raise _ _ _ e _ (eq_refl : lift (inl e) _ = _)). }
  rewrite (bind_run _ _ _ alpha _ (eq_refl : lift (inr alpha) _ = _)).
  rewrite (bind_run _ _ _ _ _ (set_positions_ext h [sa1; fa1; sx] r 1 fa1 _ eq_refl
             ltac:(by rewrite length_dot, length_positions))).
  set (fa2 := ase.with_positions fa1 _).
  change (<[1:=_]> [sa1; fa1; sx]) with [sa1; fa2; sx].
  rewrite (bind_run _ _ _ _ _ (get_positions_ext h [sa1; fa2; sx] r 2 sx eq_refl)).
  rewrite (bind_run _ _ _ _ _ (get_positions_ext h [sa1; fa2; sx] r 1 fa2 eq_refl)).
  destruct (scipy.orthogonal_procrustes _ _) as [e|Rs].
  { by rewrite (bind_raise _ _ _ e _ (eq_refl : lift (inl e) _ = _)). }
  rewrite (bind_run _ _ _ Rs _ (eq_refl : lift (inr Rs) _ = _)).
  rewrite (bind_run _ _ _ _ _ (get_positions_ext h [sa1; fa2; sx] r 0 sa1 eq_refl)).
  rewrite (bind_run _ _ _ _ _ (set_positions_ext h [sa1; fa2; sx] r 0 sa1 _ eq_refl
             ltac:(by rewrite length_dot, length_positions))).
  set (sa2 := ase.with_positions sa1 _).
  change (<[0:=_]> [sa1; fa2; sx]) with [sa2; fa2; sx].
  pose proof (tag_ext h [sa2; fa2; sx] r 0 1 sa2 fa2 eq_refl eq_refl ltac:(done)) as Htag.
  destruct (Summary.tag_rows fa2 sa2 _) as [[e|[]] sa3]; simpl in Htag.
  { by rewrite (bind_raise _ _ _ e _ Htag). }
  rewrite (bind_run _ _ _ _ _ Htag). simpl.
  by rewrite Nat.add_0_r.
Qed.
End AlignRun.

Section Cardinality.
Context {F : Type} `{FloatOps F} `{Lapack F}.
Implicit Types (a fa sa : Atoms.t F).

Lemma with_positions_fmap a (g : vec3 F → vec3 F) :
  Atoms.atom_list (ase.with_positions a (g <$> Atoms.positions a))
  = (λ x, Atom.mk (Atom.symbol x) (g (Atom.position x)) (Atom.tag x)) <$> Atoms.atom_list a.
Proof.
  unfold ase.with_positions, Atoms.positions. cbn [Atoms.atom_list].
  induction (Atoms.atom_list a) as [|x xs IH]; [done|].
  rewrite !fmap_cons. cbn [zip_with]. by rewrite IH.
Qed.

Lemma filter_dummies_fmap (g : vec3 F → vec3 F) (xs : list (Atom.t F)) :
  filter (λ x, Atom.symbol x = "X")
    ((λ x, Atom.mk (Atom.symbol x) (g (Atom.position x)) (Atom.tag x)) <$> xs)
  = (λ x, Atom.mk (Atom.symbol x) (g (Atom.position x)) (Atom.tag x))
      <$> filter (λ x, Atom.symbol x = "X") xs.
Proof.
  induction xs as [|x xs IH]; [done|].
  rewrite fmap_cons, !filter_cons. cbn [Atom.symbol].
  destruct (decide (Atom.symbol x = "X")); by rewrite ?fmap_cons, IH.
Qed.

(** The positions of the dummies of a centred unit are the centred
    positions of its connection points. *)
Lemma positions_dummies_centre a :
  Atoms.positions (Summary.dummy_atoms (Summary.centre a))
  = np.sub_rows (Atom.position <$> Spec.connection_points a)
      (np.mean_axis0 (Atoms.positions a)).
Proof.
  unfold Summary.dummy_atoms, Summary.centre, np.sub_rows.
  unfold Atoms.positions at 1. cbn [Atoms.atom_list].
  rewrite (with_positions_fmap a
    (λ p, np.vzip f_sub p (np.mean_axis0 (Atoms.positions a)))).
  rewrite (filter_dummies_fmap
    (λ p, np.vzip f_sub p (np.mean_axis0 (Atoms.positions a)))).
  unfold Spec.connection_points. by rewrite <- !list_fmap_compose.
Qed.

Lemma positions_centre a :
  Atoms.positions (Summary.centre a)
  = np.sub_rows (Atoms.positions a) (np.mean_axis0 (Atoms.positions a)).
Proof.
  apply positions_with_positions. by rewrite length_sub_rows, length_positions.
Qed.

Lemma divide_length (xs ys zs : list F) :
  np.divide xs ys = inr zs →
  length xs = length ys ∨ length xs = 1 ∨ length ys = 1.
Proof.
  unfold np.divide. destruct (decide (length xs = length ys)); [by left|].
  destruct xs as [|x [|x' xs]], ys as [|y [|y' ys]]; simpl; intros; simplify_eq; auto.
Qed.

(** [orthogonal_procrustes] refuses arrays of different lengths with a
    [ValueError], whatever they hold. *)
Lemma orthogonal_procrustes_shapes (a b : list (vec3 F)) :
  length a ≠ length b →
  ∃ msg, scipy.orthogonal_procrustes a b = inl (ValueError msg).
Proof.
  intros Hne. unfold scipy.orthogonal_procrustes, scipy.nonfinite.
  destruct (np.all_finite a); simpl; [|eauto].
  destruct (np.all_finite b); simpl; [|eauto].
  rewrite bool_decide_false by done. simpl. eauto.
Qed.

Lemma scaling_factor_error (xs ys : list (vec3 F)) c e :
  Autografs.scaling_factor xs ys c = inl e →
  e = ValueError "operands could not be broadcast together".
Proof.
  unfold Autografs.scaling_factor, np.divide.
  destruct (decide _); simpl; [done|].
  destruct (np.norm_axis1 xs) as [|x [|x' xs']], (np.norm_axis1 ys) as [|y [|y' ys']];
    simpl; intros; by simplify_eq.
Qed.

Lemma align_objects_mismatch fa sa :
  length (Spec.connection_points sa) ≠ length (Atoms.atom_list fa) →
  ∃ msg, (Summary.align_objects fa sa).1 = inl (ValueError msg).
Proof.
  intros Hne. unfold Summary.align_objects.
  destruct (Autografs.scaling_factor _ _ _) as [e|alpha] eqn:Hscale; simpl.
  { apply scaling_factor_error in Hscale. subst e. eauto. }
  destruct (orthogonal_procrustes_shapes
              (Atoms.positions (Summary.dummy_atoms (Summary.centre sa)))
              (Atoms.positions (ase.with_positions (Summary.centre fa)
                 (np.dot (Atoms.positions (Summary.centre fa)) (np.eye3_times alpha)))))
    as [msg Hmsg].
  { rewrite positions_dummies_centre, length_sub_rows, length_fmap.
    rewrite positions_with_positions by (by rewrite length_dot, length_positions).
    by rewrite length_dot, length_positions, length_centre. }
  rewrite Hmsg. simpl. eauto.
Qed.
End Cardinality.

Section AlignResults.
Context {F : Type} `{FloatOps F} `{Lapack F}.
Implicit Types (a fa sa : Atoms.t F).

(** C2. [align] fails with a [ValueError] (the mismatch of shapes that
    numpy and scipy report) whenever the unit has no connection point
    or their number differs from the number of points of the fragment,
    for a fragment of at least one point; no aligned unit is returned. *)
Theorem align_cardinality_mismatch w fragment sbu fa sa :
  heap w !! fragment = Some fa → heap w !! sbu = Some sa →
  Atoms.atom_list fa ≠ [] →
  Spec.connection_points sa = [] ∨
    length (Spec.connection_points sa) ≠ length (Atoms.atom_list fa) →
  ∃ msg, outcome (Autografs.align fragment sbu w) = inl (ValueError msg).
Proof.
  intros Hf Hs Hfa Hn. rewrite (align_run w fragment sbu fa sa Hf Hs).
  destruct (align_objects_mismatch fa sa) as [msg Hmsg].
  { destruct Hn as [Hn|Hn]; [|done]. rewrite Hn. by destruct (Atoms.atom_list fa). }
  unfold outcome. simpl. rewrite Hmsg. eauto.
Qed.

Lemma scaling_factor_matched (xs ys : list (vec3 F)) c :
  length xs = length ys →
  Autografs.scaling_factor xs ys c
  = inr (np.vmap (f_mul (f_mul f_two
            (np.mean (zip_with f_div (np.norm_axis1 xs) (np.norm_axis1 ys)))))
         (if f_lt (np.norm c) f_1em6 then np.ones_direction
          else np.vmap (λ x, f_div x (np.norm c)) c)).
Proof.
  intros Hlen. unfold Autografs.scaling_factor, np.divide.
  by rewrite decide_True by (unfold np.norm_axis1; by rewrite !length_fmap).
Qed.

Lemma ratios_spec fa sa :
  zip_with f_div
    (np.norm_axis1 (Atoms.positions (Summary.dummy_atoms (Summary.centre sa))))
    (np.norm_axis1 (Atoms.positions (Summary.centre fa)))
  = zip_with (λ x p, f_div (Spec.distance (Atom.position x) (Spec.centroid (Atoms.positions sa)))
                           (Spec.distance p (Spec.centroid (Atoms.positions fa))))
      (Spec.connection_points sa) (Atoms.positions fa).
Proof.
  rewrite positions_dummies_centre, positions_centre.
  unfold np.norm_axis1, np.sub_rows. rewrite <- !list_fmap_compose.
  rewrite zip_with_fmap_l, zip_with_fmap_r. done.
Qed.

(** C4. When the number of connection points is the number of points
    of the fragment and [align] returns, the scale vector it returns is
    the scale of the specification. *)
Theorem align_scale w fragment sbu fa sa r :
  heap w !! fragment = Some fa → heap w !! sbu = Some sa →
  length (Spec.connection_points sa) = length (Atoms.atom_list fa) →
  outcome (Autografs.align fragment sbu w) = inr r →
  r.2 = Spec.scale fa sa.
Proof.
  intros Hf Hs Hn. rewrite (align_run w fragment sbu fa sa Hf Hs).
  unfold outcome, Summary.align_objects. simpl.
  rewrite scaling_factor_matched.
  2:{ rewrite positions_dummies_centre, length_sub_rows, length_fmap.
      by rewrite length_positions, length_centre. }
  rewrite ratios_spec.
  destruct (scipy.orthogonal_procrustes _ _) as [e|Rs]; simpl; [done|].
  destruct (Summary.tag_rows _ _ _) as [[e|[]] sa3]; simpl; [done|].
  intros [= <-]. done.
Qed.
End AlignResults.

(** ** Infinities and NaNs *)

#[export] Instance binary64_nonfinite : NonFinite spec_float.
Proof.
  split.
  - reflexivity.
  - by intros [[]|[]| |[] m e].
  - intros [[]|[]| |[] m e] [[]|[]| |[] m' e']; by simpl.
  - intros [[]|[]| |[] m e] [[]|[]| |[] m' e']; by simpl.
  - intros [[]|[]| |[] m e] [[]|[]| |[] m' e']; by simpl.
  - intros [[]|[]| |[] m e] [[]|[]| |[] m' e']; by simpl.
  - intros [[]|[]| |[] m e] [[]|[]| |[] m' e']; by simpl.
Qed.

Section Degenerate.
Context {F : Type} `{NonFinite F} `{Lapack F}.
Implicit Types (a fa sa : Atoms.t F) (x y : F).

Lemma foldl_add_nonfinite_acc x (xs : list F) :
  f_isfinite x = false → f_isfinite (foldl f_add x xs) = false.
Proof.
  revert x. induction xs as [|y xs IH]; intros x Hx; simpl; [done|].
  apply IH. by apply add_nonfinite_l.
Qed.

Lemma foldl_add_nonfinite x (xs : list F) y :
  y ∈ xs → f_isfinite y = false → f_isfinite (foldl f_add x xs) = false.
Proof.
  revert x. induction xs as [|z xs IH]; intros x Hy Hfin; simpl.
  { by apply elem_of_nil in Hy. }
  apply elem_of_cons in Hy as [->|Hy].
  - apply foldl_add_nonfinite_acc. by apply add_nonfinite_r.
  - by apply IH.
Qed.






Lemma orthogonal_procrustes_nonfinite (a b : list (vec3 F)) :
  np.all_finite b = false →
  scipy.orthogonal_procrustes a b = inl scipy.nonfinite.
Proof.
  intros Hb. unfold scipy.orthogonal_procrustes.
  destruct (np.all_finite a); simpl; [|done]. by rewrite Hb.
Qed.








End Degenerate.


(** ** The order of floating-point numbers *)

Ltac compare_cases :=
  repeat match goal with
    | H : context [Z.compare ?a ?b] |- _ => destruct (Z.compare_spec a b); simpl in H
    | H : context [Pos.compare ?a ?b] |- _ => destruct (Pos.compare_spec a b); simpl in H
    | |- context [Z.compare ?a ?b] => destruct (Z.compare_spec a b); simpl
    | |- context [Pos.compare ?a ?b] => destruct (Pos.compare_spec a b); simpl
    end.

Lemma SFleb_total (x y : spec_float) :
  B64.isnan x = false → B64.isnan y = false → SFleb y x = true ∨ SFleb x y = true.
Proof.
  unfold SFleb, SFcompare.
  destruct x as [[]|[]| |[] m e], y as [[]|[]| |[] m' e']; simpl; intros ? ?; try done; auto;
    change (Pos.compare_cont Eq) with Pos.compare;
    compare_cases; auto; lia.
Qed.

Lemma SFleb_trans (x y z : spec_float) :
  SFleb x y = true → SFleb y z = true → SFleb x z = true.
Proof.
  unfold SFleb, SFcompare.
  destruct x as [[]|[]| |[] m e], y as [[]|[]| |[] m' e'], z as [[]|[]| |[] m'' e''];
    simpl; try done;
    change (Pos.compare_cont Eq) with Pos.compare;
    intros Hxy Hyz; compare_cases; try done; lia.
Qed.

#[export] Instance binary64_order : FloatOrder spec_float.
Proof.
  split.
  - intros x y Hx Hy. simpl. destruct (SFleb_total x y Hx Hy); auto.
  - intros x y z Hxy Hyz. simpl in *. by apply (SFleb_trans z y x).
Qed.

Section Argmin.
Context {F : Type} `{FloatOrder F}.
Implicit Types (x y mp : F) (xs pre : list F).

Lemma ge_refl x : f_isnan x = false → f_ge x x = true.
Proof. intros Hx. by destruct (ge_total x x Hx Hx). Qed.

Lemma argmin_from_spec pre xs mp best :
  (∀ x, x ∈ pre ++ xs → f_isnan x = false) →
  pre !! best = Some mp →
  (∀ k x, pre !! k = Some x → f_ge x mp = true) →
  (∀ k x, pre !! k = Some x → k < best → f_ge mp x = false) →
  first_least (pre ++ xs) (np.argmin_from mp best (length pre) xs).
Proof.
  revert pre mp best. induction xs as [|x xs IH]; intros pre mp best Hnan Hbest Hle Hlt; simpl.
  { rewrite app_nil_r. by exists mp. }
  assert (Hmp : f_isnan mp = false).
  { apply Hnan, elem_of_app. left. by eapply list_elem_of_lookup_2. }
  assert (Hx : f_isnan x = false).
  { apply Hnan, elem_of_app. right. by left. }
  assert (Hlen : length (pre ++ [x]) = S (length pre)).
  { rewrite length_app. simpl. lia. }
  assert (Happ : (pre ++ [x]) ++ xs = pre ++ x :: xs) by by rewrite <- app_assoc.
  destruct (f_ge x mp) eqn:Hge.
  - specialize (IH (pre ++ [x]) mp best). rewrite Hlen, Happ in IH. apply IH; clear IH.
    + done.
    + by apply lookup_app_l_Some.
    + intros k y Hk. apply lookup_app_Some in Hk as [Hk|[_ Hk]]; [by eapply Hle|].
      apply list_lookup_singleton_Some in Hk as [_ <-]. done.
    + intros k y Hk Hkb. apply lookup_lt_Some in Hbest.
      rewrite lookup_app_l in Hk by lia. by eapply Hlt.
  - rewrite Hx.
    assert (Hmx : f_ge mp x = true).
    { destruct (ge_total x mp Hx Hmp) as [Hc|Hc]; [congruence|done]. }
    specialize (IH (pre ++ [x]) x (length pre)). rewrite Hlen, Happ in IH. apply IH; clear IH.
    + done.
    + by rewrite list_lookup_middle.
    + intros k y Hk. apply lookup_app_Some in Hk as [Hk|[_ Hk]].
      * eapply ge_trans; [by eapply Hle|done].
      * apply list_lookup_singleton_Some in Hk as [_ <-]. by apply ge_refl.
    + intros k y Hk Hkb. rewrite lookup_app_l in Hk by lia.
      destruct (f_ge x y) eqn:Hxy; [|done].
      rewrite (ge_trans x y mp Hxy (Hle k y Hk)) in Hge. done.
Qed.

(** [argmin] of an array without NaN: the first index of a least
    element. *)
Lemma argmin_spec xs :
  xs ≠ [] → (∀ x, x ∈ xs → f_isnan x = false) →
  ∃ j, np.argmin xs = inr j ∧ first_least xs j.
Proof.
  intros Hxs Hnan. destruct xs as [|x xs]; [done|]. simpl.
  assert (Hx : f_isnan x = false) by (apply Hnan; by left).
  rewrite Hx. eexists. split; [done|].
  apply (argmin_from_spec [x] xs x 0); simpl.
  - done.
  - done.
  - intros k y Hk. apply list_lookup_singleton_Some in Hk as [_ <-]. by apply ge_refl.
  - intros; lia.
Qed.
End Argmin.

Section TagSpec.
Context {F : Type} `{FloatOrder F}.
Implicit Types (a fa sa : Atoms.t F) (x y : Atom.t F).

Lemma first_least_nearest (ps : list (vec3 F)) q j :
  first_least (np.norm_axis1 (np.sub_rows ps q)) j → Spec.nearest_first ps q j.
Proof.
  unfold np.norm_axis1, np.sub_rows. rewrite <- list_fmap_compose.
  intros (m & Hj & Hle & Hlt).
  rewrite list_lookup_fmap in Hj.
  destruct (ps !! j) as [pj|] eqn:Hpj; simplify_eq/=.
  exists pj. split; [done|]. split.
  - intros k p Hk. apply (Hle k). by rewrite list_lookup_fmap, Hk.
  - intros k p Hk Hkj. apply (Hlt k); [|done]. by rewrite list_lookup_fmap, Hk.
Qed.

Lemma tag_row_spec fa a i x :
  Atoms.atom_list fa ≠ [] →
  Atoms.atom_list a !! i = Some x →
  (Atom.symbol x = "X" → no_nan_distance fa x) →
  ∃ x', Summary.tag_row fa a i
        = (inr tt, Atoms.mk (<[i:=x']> (Atoms.atom_list a)) (Atoms.info a))
        ∧ tagged fa x x'.
Proof.
  intros Hfa Hi Hnan. unfold Summary.tag_row. rewrite Hi.
  destruct (decide (Atom.symbol x = "X")) as [HX|HX].
  - rewrite bool_decide_false by (by intros ?).
    destruct (argmin_spec (np.norm_axis1 (np.sub_rows (Atoms.positions fa) (Atom.position x))))
      as (j & -> & Hj).
    { unfold np.norm_axis1, np.sub_rows, Atoms.positions.
      destruct (Atoms.atom_list fa); [done|]. by rewrite !fmap_cons. }
    { intros d Hd. unfold np.norm_axis1, np.sub_rows in Hd.
      rewrite <- list_fmap_compose in Hd.
      apply list_elem_of_fmap in Hd as (p & -> & Hp). by apply Hnan. }
    apply first_least_nearest in Hj. pose proof Hj as (pj & Hpj & _).
    unfold Atoms.positions in Hpj. rewrite list_lookup_fmap in Hpj.
    destruct (Atoms.atom_list fa !! j) as [y|] eqn:Hy; simplify_eq/=.
    exists (Atom.mk (Atom.symbol x) (Atom.position x) (Atom.tag y)). split.
    + unfold ase.with_tag. f_equal. f_equal.
      apply list_eq. intros k. destruct (decide (i = k)) as [<-|Hne].
      * rewrite list_lookup_alter_eq, Hi.
        by rewrite list_lookup_insert_eq by (by eapply lookup_lt_Some).
      * by rewrite list_lookup_alter_ne, list_lookup_insert_ne.
    + unfold tagged. simpl. rewrite decide_True by done. eauto 10.
  - rewrite bool_decide_true by done. exists x. split.
    + by rewrite list_insert_id; [destruct a|].
    + unfold tagged. by rewrite decide_False.
Qed.

Lemma tagged_again fa x x' x'' :
  tagged fa x x' → tagged fa x' x'' → tagged fa x x''.
Proof.
  unfold tagged. intros (Hs & Hp & Ht) (Hs' & Hp' & Ht').
  rewrite Hs in Hs', Ht'. rewrite Hp in Hp', Ht'.
  split; [done|]. split; [done|].
  destruct (decide (Atom.symbol x = "X")); congruence.
Qed.

Lemma tagged_symbol_nan fa x x' :
  tagged fa x x' →
  (Atom.symbol x = "X" → no_nan_distance fa x) →
  (Atom.symbol x' = "X" → no_nan_distance fa x').
Proof.
  unfold tagged, no_nan_distance. intros (Hs & Hp & _) Hnan. rewrite Hs, Hp. done.
Qed.

(** The loop of [tag] over rows of the sbu: it runs to its end, keeps
    what it does not visit, and tags what it visits. *)
Lemma tag_rows_spec fa a rows :
  Atoms.atom_list fa ≠ [] →
  (∀ i, i ∈ rows → i < length (Atoms.atom_list a)) →
  (∀ x, x ∈ Atoms.atom_list a → Atom.symbol x = "X" → no_nan_distance fa x) →
  ∃ a', Summary.tag_rows fa a rows = (inr tt, a') ∧
    Atoms.info a' = Atoms.info a ∧
    length (Atoms.atom_list a') = length (Atoms.atom_list a) ∧
    ∀ i x, Atoms.atom_list a !! i = Some x →
      ∃ x', Atoms.atom_list a' !! i = Some x' ∧
            if decide (i ∈ rows) then tagged fa x x' else x' = x.
Proof.
  intros Hfa. revert a. induction rows as [|i rows IH]; intros a Hrows Hnan; simpl.
  { exists a. repeat split; try done. intros i x Hi. exists x.
    split; [done|]. done. }
  destruct (lookup_lt_is_Some_2 (Atoms.atom_list a) i) as [x Hx].
  { apply Hrows. by left. }
  destruct (tag_row_spec fa a i x Hfa Hx) as (x1 & -> & Hx1).
  { intros HX. apply Hnan; [|done]. by eapply list_elem_of_lookup_2. }
  set (a1 := Atoms.mk (<[i:=x1]> (Atoms.atom_list a)) (Atoms.info a)).
  destruct (IH a1) as (a' & -> & Hinfo & Hlen & Hrest).
  { intros k Hk. simpl. rewrite length_insert. apply Hrows. by right. }
  { intros y Hy. simpl in Hy. apply list_elem_of_lookup in Hy as [k Hk].
    destruct (decide (i = k)) as [<-|Hne].
    - rewrite list_lookup_insert_eq in Hk by (by eapply lookup_lt_Some).
      simplify_eq. eapply tagged_symbol_nan; [done|].
      intros HX. apply Hnan; [|done]. by eapply list_elem_of_lookup_2.
    - rewrite list_lookup_insert_ne in Hk by done.
      apply Hnan. by eapply list_elem_of_lookup_2. }
  exists a'. split; [done|]. split; [done|]. split.
  { rewrite Hlen. simpl. by rewrite length_insert. }
  intros k y Hk. destruct (decide (i = k)) as [<-|Hne].
  - destruct (Hrest i x1) as (x' & Hx' & Htag).
    { simpl. by rewrite list_lookup_insert_eq by (by eapply lookup_lt_Some). }
    simplify_eq. exists x'. split; [done|].
    rewrite decide_True by (by left).
    destruct (decide (i ∈ rows)); [by eapply tagged_again|by subst].
  - destruct (Hrest k y) as (x' & Hx' & Htag).
    { simpl. by rewrite list_lookup_insert_ne. }
    exists x'. split; [done|].
    destruct (decide (k ∈ rows)) as [Hin|Hin].
    + rewrite decide_True by (by right). done.
    + rewrite decide_False; [done|]. intros [->|?]%elem_of_cons; done.
Qed.

(** C6. After [tag] every dummy of the sbu carries the tag of the first
    of the points of the fragment nearest to it, and the other atoms,
    the symbols and the positions are as they were. *)
Theorem tag_nearest w sbu fragment sa fa :
  heap w !! sbu = Some sa → heap w !! fragment = Some fa → sbu ≠ fragment →
  Atoms.atom_list fa ≠ [] →
  (∀ x, x ∈ Atoms.atom_list sa → Atom.symbol x = "X" → no_nan_distance fa x) →
  ∃ sa', Autografs.tag sbu fragment w = (inr tt, mkWorld (<[sbu:=sa']> (heap w)) (rand w))
    ∧ length (Atoms.atom_list sa') = length (Atoms.atom_list sa)
    ∧ ∀ i x, Atoms.atom_list sa !! i = Some x →
        ∃ x', Atoms.atom_list sa' !! i = Some x' ∧ tagged fa x x'.
Proof.
  intros Hs Hf Hne Hfa Hnan. destruct w as [l r]. simpl in *.
  pose proof (tag_ext [] l r sbu fragment sa fa Hs Hf Hne) as Hrun. simpl in Hrun.
  destruct (tag_rows_spec fa sa (seq 0 (length (Atoms.atom_list sa))) Hfa)
    as (sa' & Hrows & _ & Hlen & Hat).
  { intros i Hi. apply elem_of_seq in Hi. lia. }
  { done. }
  rewrite Hrows in Hrun. simpl in Hrun.
  exists sa'. split; [done|]. split; [done|].
  intros i x Hi. destruct (Hat i x Hi) as (x' & Hx' & Htag).
  exists x'. split; [done|]. rewrite decide_True in Htag; [done|].
  apply elem_of_seq. apply lookup_lt_Some in Hi. lia.
Qed.
End TagSpec.

(** ** Computations that keep the objects of a store *)

Create HintDb keeps.

Section Keeps.
Context {F : Type}.
Implicit Types (n : nat) (l : loc).

Lemma keeps_ret {A} n (x : A) (Q : A → Prop) : Q x → keeps (F:=F) n (mret x) Q.
Proof. intros HQ w Hn. simpl. repeat split; [done|]. by intros ? [= <-]. Qed.

Lemma keeps_raise {A} n e (Q : A → Prop) : keeps (F:=F) n (raise e) Q.
Proof. intros w Hn. simpl. by repeat split. Qed.

Lemma keeps_lift {A} n (r : exn + A) (Q : A → Prop) :
  (∀ x, r = inr x → Q x) → keeps (F:=F) n (lift r) Q.
Proof. intros HQ w Hn. simpl. by repeat split. Qed.

Lemma keeps_lift_any {A} n (r : exn + A) : keeps (F:=F) n (lift r) (λ _, True).
Proof. by apply keeps_lift. Qed.

Lemma keeps_bind {A B} n (m : Py F A) (k : A → Py F B) (P : A → Prop) (Q : B → Prop) :
  keeps n m P → (∀ x, P x → keeps n (k x) Q) → keeps n (m ≫= k) Q.
Proof.
  intros Hm Hk w Hn. destruct (Hm w Hn) as (Hlen & Htake & HP).
  unfold mbind, py_bind. destruct (m w) as [[e|x] w1]; simpl in *; [done|].
  destruct (Hk x (HP x eq_refl) w1 Hlen) as (Hlen' & Htake' & HQ).
  repeat split; [done|congruence|done].
Qed.

Lemma keeps_weaken {A} n (m : Py F A) (P Q : A → Prop) :
  keeps n m P → (∀ x, P x → Q x) → keeps n m Q.
Proof.
  intros Hm HPQ w Hn. destruct (Hm w Hn) as (? & ? & HP). repeat split; auto.
Qed.

Lemma keeps_deref n l : keeps (F:=F) n (deref l) (λ _, True).
Proof. intros w Hn. unfold deref. by destruct (heap w !! l). Qed.

Lemma keeps_alloc n (a : Atoms.t F) : keeps n (alloc a) (λ l, n ≤ l).
Proof.
  intros w Hn. unfold alloc. simpl. rewrite length_app, take_app_le by done.
  repeat split; [lia|]. intros ? [= <-]. done.
Qed.

Lemma keeps_assign n l (a : Atoms.t F) : n ≤ l → keeps n (assign l a) (λ _, True).
Proof.
  intros Hl w Hn. unfold assign. simpl.
  by rewrite length_insert, take_insert_ge.
Qed.

Lemma keeps_copy n l : keeps (F:=F) n (ase.copy l) (λ l', n ≤ l').
Proof.
  unfold ase.copy. eapply keeps_bind; [apply keeps_deref|]. intros a _. apply keeps_alloc.
Qed.

Lemma keeps_len n l : keeps (F:=F) n (ase.len l) (λ _, True).
Proof.
  unfold ase.len. eapply keeps_bind; [apply keeps_deref|]. intros a _. by apply keeps_ret.
Qed.

Lemma keeps_get_positions n l : keeps (F:=F) n (ase.get_positions l) (λ _, True).
Proof.
  unfold ase.get_positions. eapply keeps_bind; [apply keeps_deref|].
  intros a _. by apply keeps_ret.
Qed.

Lemma keeps_set_positions n l (ps : list (vec3 F)) :
  n ≤ l → keeps n (ase.set_positions l ps) (λ _, True).
Proof.
  intros Hl. unfold ase.set_positions. eapply keeps_bind; [apply keeps_deref|].
  intros a _. destruct (decide _); [by apply keeps_assign|apply keeps_raise].
Qed.

Lemma keeps_getitem n l i : keeps (F:=F) n (ase.getitem l i) (λ _, True).
Proof.
  unfold ase.getitem. eapply keeps_bind; [apply keeps_deref|].
  intros a _. destruct (_ !! i); [by apply keeps_ret|apply keeps_raise].
Qed.

Lemma keeps_set_tag n l i t : n ≤ l → keeps (F:=F) n (ase.set_tag l i t) (λ _, True).
Proof.
  intros Hl. unfold ase.set_tag. eapply keeps_bind; [apply keeps_deref|].
  intros a _. by apply keeps_assign.
Qed.

Lemma keeps_getitem_list n l indices :
  keeps (F:=F) n (ase.getitem_list l indices) (λ l', n ≤ l').
Proof.
  unfold ase.getitem_list. eapply keeps_bind; [apply keeps_deref|].
  intros a _. destruct (mapM _ _); [apply keeps_alloc|apply keeps_raise].
Qed.
End Keeps.

#[export] Hint Resolve keeps_deref keeps_alloc keeps_assign keeps_copy keeps_len
  keeps_get_positions keeps_set_positions keeps_getitem keeps_set_tag
  keeps_getitem_list keeps_raise keeps_lift_any : keeps.

Ltac keeps_step :=
  eapply keeps_bind; [solve [eauto with keeps]|cbv beta; intros].

Section KeepsAlign.
Context {F : Type} `{FloatOps F} `{Lapack F}.

Lemma keeps_tag_loop n sbu fragment rows :
  n ≤ sbu → keeps (F:=F) n (Autografs.tag_loop sbu fragment rows) (λ _, True).
Proof.
  intros Hsbu. induction rows as [|i rows IH]; simpl; [by apply keeps_ret|].
  eapply (keeps_bind _ _ _ (λ _, True)); [|intros _ _; apply IH].
  unfold Autografs.tag_atom. keeps_step.
  destruct (bool_decide _); [by apply keeps_ret|].
  repeat keeps_step. eauto with keeps.
Qed.

Lemma keeps_tag n sbu fragment :
  n ≤ sbu → keeps (F:=F) n (Autografs.tag sbu fragment) (λ _, True).
Proof.
  intros Hsbu. unfold Autografs.tag. keeps_step. by apply keeps_tag_loop.
Qed.

(** [align] works on copies: the objects of the store it is called on
    are as they were when it ends, and the unit it returns is new. *)
Lemma keeps_align n fragment sbu :
  keeps (F:=F) n (Autografs.align fragment sbu) (λ r, n ≤ r.1).
Proof.
  unfold Autografs.align. repeat keeps_step.
  eapply keeps_bind; [by apply keeps_tag|]. intros _ _. by apply keeps_ret.
Qed.
End KeepsAlign.

Section KeepsMake.
Context {F : Type} `{FloatOps F} `{Lapack F} `{Collaborators F}.
Implicit Types (n : nat) (fw : Framework.t).

Lemma keeps_getitem_db n (d : gmap string loc) k :
  keeps (F:=F) n (getitem d k) (λ _, True).
Proof. unfold getitem. destruct (d !! k); [by apply keeps_ret|apply keeps_raise]. Qed.

Lemma keeps_random_choice {A} n (seq : list A) :
  keeps (F:=F) n (random_choice seq) (λ _, True).
Proof.
  intros w Hn. unfold random_choice. by destruct (seq !! _).
Qed.

Lemma keeps_add_slots n slots top :
  keeps (F:=F) n (Topology.add_slots slots top) (λ _, True).
Proof.
  revert top. induction slots as [|[[index fragment] shape] slots IH]; intros top; simpl.
  { by apply keeps_ret. }
  eapply keeps_bind; [apply keeps_alloc|]. intros l _. apply IH.
Qed.

Lemma keeps_topology_new n name atoms :
  keeps (F:=F) n (Topology.new name atoms) (λ _, True).
Proof.
  unfold Topology.new. eapply keeps_bind; [apply keeps_deref|].
  intros a _. apply keeps_add_slots.
Qed.

Lemma keeps_sbu_new n name atoms : keeps (F:=F) n (SBU.new name atoms) (λ _, True).
Proof.
  unfold SBU.new. eapply keeps_bind; [apply keeps_deref|]. intros a _. by apply keeps_ret.
Qed.

Lemma keeps_sbu_of_names n self names :
  keeps (F:=F) n (Autografs.sbu_of_names self names) (λ _, True).
Proof.
  induction names as [|name names IH]; simpl; [by apply keeps_ret|].
  eapply keeps_bind; [apply keeps_getitem_db|]. intros atoms _.
  eapply keeps_bind; [apply keeps_sbu_new|]. intros sbu _.
  eapply keeps_bind; [apply IH|]. intros rest _. by apply keeps_ret.
Qed.

Lemma keeps_get_sbu_dict_loop n self slots names d :
  keeps (F:=F) n (Autografs.get_sbu_dict_loop self slots names d) (λ _, True).
Proof.
  revert d. induction slots as [|[index shape] slots IH]; intros d; simpl.
  { by apply keeps_ret. }
  eapply (keeps_bind _ _ _ (λ _, True)).
  { destruct names; [by apply keeps_ret|apply keeps_raise]. }
  intros ns _. eapply keeps_bind; [apply keeps_sbu_of_names|]. intros units _.
  eapply keeps_bind; [apply keeps_random_choice|]. intros sbu _. apply IH.
Qed.

Lemma fresh_append n fw index l mmtypes bonds :
  fresh_fragments n fw → n ≤ l →
  fresh_fragments n (Framework.append fw index l mmtypes bonds).
Proof.
  unfold fresh_fragments, Framework.append. simpl.
  generalize (Framework.fragments fw). intros fs Hfs Hl.
  induction Hfs as [|[k f] fs Hf Hfs IH]; simpl.
  { by repeat constructor. }
  destruct (decide (k = index)); constructor; auto.
Qed.

Lemma keeps_make_slot n top idx sbu fw alpha :
  fresh_fragments n fw →
  keeps (F:=F) n (Autografs.make_slot top idx sbu fw alpha) (λ r, fresh_fragments n r.1).
Proof.
  intros Hfw. unfold Autografs.make_slot.
  eapply (keeps_bind _ _ _ (λ _, True)).
  { destruct (dict.get _ _); [by apply keeps_ret|apply keeps_raise]. }
  intros fl _. eapply keeps_bind; [apply keeps_deref|]. intros atoms _.
  eapply (keeps_bind _ _ _ (λ _, True)).
  { destruct (Atoms.info atoms !! "bonds"), (Atoms.info atoms !! "mmtypes");
      try (by apply keeps_ret);
      (eapply keeps_bind; [apply keeps_deref|]; intros; by apply keeps_ret). }
  intros bt _. eapply keeps_bind; [apply keeps_align|]. intros r Hr.
  apply keeps_ret. simpl. by apply fresh_append.
Qed.

Lemma keeps_make_loop n top items fw alpha :
  fresh_fragments n fw →
  keeps (F:=F) n (Autografs.make_loop top items fw alpha) (λ r, fresh_fragments n r.1).
Proof.
  revert fw alpha. induction items as [|[idx sbu] items IH]; intros fw alpha Hfw; simpl.
  { by apply keeps_ret. }
  eapply keeps_bind; [by apply keeps_make_slot|]. intros r Hr. by apply IH.
Qed.

Lemma keeps_all_positions n fs :
  keeps (F:=F) n (Framework.all_positions fs) (λ _, True).
Proof.
  induction fs as [|[index f] fs IH]; simpl; [by apply keeps_ret|].
  eapply keeps_bind; [apply keeps_get_positions|]. intros ps _.
  eapply keeps_bind; [apply IH|]. intros rest _. by apply keeps_ret.
Qed.

Lemma keeps_move n alpha0 all fs :
  Forall (λ kf, n ≤ Framework.sbu kf.2) fs →
  keeps (F:=F) n (Framework.move alpha0 all fs) (λ _, True).
Proof.
  induction 1 as [|[index f] fs Hf Hfs IH]; simpl; [by apply keeps_ret|].
  eapply keeps_bind; [by apply keeps_set_positions|]. intros _ _. apply IH.
Qed.

Lemma keeps_refine n fw alpha0 :
  fresh_fragments n fw → keeps (F:=F) n (Framework.refine fw alpha0) (λ _, True).
Proof.
  intros Hfw. unfold Framework.refine.
  eapply keeps_bind; [apply keeps_all_positions|]. intros all _. by apply keeps_move.
Qed.

Lemma keeps_make_assignment n self name names sd :
  keeps (F:=F) n (Autografs.make_assignment self name names sd)
    (λ r, fresh_fragments n r.1.2).
Proof.
  unfold Autografs.make_assignment.
  eapply keeps_bind; [apply keeps_getitem_db|]. intros atoms _.
  eapply keeps_bind; [apply keeps_topology_new|]. intros top _.
  eapply (keeps_bind _ _ _ (λ _, True)); [by apply keeps_ret|]. intros tatoms _.
  eapply (keeps_bind _ _ _ (λ _, True)).
  { destruct sd; [by apply keeps_ret|apply keeps_get_sbu_dict_loop]. }
  intros d _. apply keeps_ret. simpl. constructor.
Qed.

Lemma keeps_make_aligned n self name names sd :
  keeps (F:=F) n (Autografs.make_aligned self name names sd)
    (λ r, fresh_fragments n r.1).
Proof.
  unfold Autografs.make_aligned.
  eapply keeps_bind; [apply keeps_make_assignment|]. intros r Hr.
  by apply keeps_make_loop.
Qed.

Lemma keeps_make n self name names sd :
  keeps (F:=F) n (Autografs.make self name names sd) (λ _, True).
Proof.
  unfold Autografs.make.
  eapply keeps_bind; [apply keeps_make_aligned|]. intros r Hr.
  eapply keeps_bind; [by apply keeps_refine|]. intros _ _. by apply keeps_ret.
Qed.

Lemma keeps_lookup {A} n (m : Py F A) Q w l a :
  keeps n m Q → n = length (heap w) → heap w !! l = Some a →
  final_heap (m w) !! l = Some a.
Proof.
  intros Hm -> Hl. destruct (Hm w (le_n _)) as (_ & Htake & _).
  rewrite (take_ge (heap w)) in Htake by lia. unfold final_heap.
  rewrite <- (take_drop (length (heap w)) (heap (m w).2)), Htake.
  by apply lookup_app_l_Some.
Qed.
End KeepsMake.

Section Unchanged.
Context {F : Type} `{FloatOps F} `{Lapack F} `{Collaborators F}.

Lemma bind_assoc {A B C} (m : Py F A) (k1 : A → Py F B) (k2 : B → Py F C) w :
  ((m ≫= k1) ≫= k2) w = (m ≫= λ x, k1 x ≫= k2) w.
Proof. unfold mbind, py_bind. by destruct (m w) as [[e|x] w1]. Qed.

Lemma getitem_run (d : gmap string loc) k l (w : world F) :
  d !! k = Some l → getitem d k w = (inr l, w).
Proof. intros Hk. unfold getitem. by rewrite Hk. Qed.

(** [make] after the topology is built. *)
Lemma make_run_topology self name names sd (w : world F) tl top w1 :
  Self.topologies self !! name = Some tl →
  Topology.new name tl w = (inr top, w1) →
  ∃ rest : Py F Framework.t,
    Autografs.make self name names sd w = rest w1 ∧ ∀ n, keeps n rest (λ _, True).
Proof.
  intros Htl Htop. eexists. split.
  - unfold Autografs.make, Autografs.make_aligned, Autografs.make_assignment.
    rewrite !bind_assoc.
    rewrite (bind_run _ _ _ _ _ (getitem_run _ _ _ w Htl)).
    rewrite !bind_assoc.
    rewrite (bind_run _ _ _ _ _ Htop). done.
  - intros n. cbv beta.
    eapply (keeps_bind _ _ _ (λ r, fresh_fragments n r.1.2)).
    { eapply (keeps_bind _ _ _ (λ _, True)); [by apply keeps_ret|]. intros tatoms _.
      eapply (keeps_bind _ _ _ (λ _, True)).
      { destruct sd; [by apply keeps_ret|apply keeps_get_sbu_dict_loop]. }
      intros d _. apply keeps_ret. simpl. constructor. }
    intros tad Htad.
    eapply keeps_bind; [by apply keeps_make_loop|]. intros r Hr.
    eapply keeps_bind; [by apply keeps_refine|]. intros _ _. by apply keeps_ret.
Qed.

(** C9. [make] and [align] leave their inputs as they are: every object
    of the store [make] is called on, and every fragment of the topology
    it builds, is the same when [make] ends; and so is every object of a
    store [align] is called on. *)
Theorem inputs_unchanged self name names sd (w : world F) tl top w1 :
  Self.topologies self !! name = Some tl →
  Topology.new name tl w = (inr top, w1) →
  (∀ l a, heap w !! l = Some a ∨ heap w1 !! l = Some a →
     final_heap (Autografs.make self name names sd w) !! l = Some a)
  ∧ (∀ (w' : world F) fragment sbu l a, heap w' !! l = Some a →
       final_heap (Autografs.align fragment sbu w') !! l = Some a).
Proof.
  intros Htl Htop. split.
  - destruct (make_run_topology self name names sd w tl top w1 Htl Htop)
      as (rest & -> & Hrest).
    assert (Hgrow : ∀ l a, heap w !! l = Some a → heap w1 !! l = Some a).
    { intros l a Hl.
      pose proof (keeps_lookup _ _ _ w l a (keeps_topology_new _ name tl) eq_refl Hl) as Hk.
      unfold final_heap in Hk. by rewrite Htop in Hk. }
    intros l a [Hl|Hl]; eapply keeps_lookup; eauto.
  - intros w' fragment sbu l a Hl.
    eapply keeps_lookup; [apply keeps_align|done|done].
Qed.
End Unchanged.

Section Unfillable.
Context {F : Type} `{FloatOps F} `{Lapack F} `{Collaborators F}.
Implicit Types (h : list (Atoms.t F)) (w : world F) (pool : list string).

Lemma sbu_of_names_run self pool w :
  ∃ r, Autografs.sbu_of_names self pool w = (r, w) ∧
    (∀ units, r = inr units → Forall2 (λ name u, resolve self (heap w) name = Some u) pool units) ∧
    ((∀ name, name ∈ pool → is_Some (resolve self (heap w) name)) → ∃ units, r = inr units).
Proof.
  induction pool as [|name pool (r & Hr & Hunits & Hall)]; simpl.
  { exists (inr []). repeat split; [by intros ? [= <-]|eauto]. }
  unfold resolve in *.
  destruct (Self.sbu self !! name) as [l|] eqn:Hl.
  2:{ rewrite (bind_raise _ _ _ (KeyError name) w) by (unfold getitem; by rewrite Hl).
      eexists. split; [done|]. split; [done|]. intros Hres.
      destruct (Hres name) as [u Hu]; [by left|]. by rewrite Hl in Hu. }
  rewrite (bind_run _ _ _ l w) by (unfold getitem; by rewrite Hl).
  destruct (heap w !! l) as [a|] eqn:Ha.
  2:{ rewrite (bind_raise _ _ _ (TypeError "no such object") w)
        by (unfold SBU.new; apply bind_raise; unfold deref; by rewrite Ha).
      eexists. split; [done|]. split; [done|]. intros Hres.
      destruct (Hres name) as [u Hu]; [by left|]. rewrite Hl in Hu. simpl in Hu.
      by rewrite Ha in Hu. }
  rewrite (bind_run _ _ _ (SBU.mk name l (sbu_shape a)) w)
    by (unfold SBU.new; erewrite bind_run; [done|]; unfold deref; by rewrite Ha).
  destruct r as [e|units].
  - rewrite (bind_raise _ _ _ _ _ Hr).
    eexists. split; [done|]. split; [done|]. intros Hres.
    destruct Hall as [units Hunits']; [|done].
    intros name' Hname'. apply Hres. by right.
  - rewrite (bind_run _ _ _ _ _ Hr).
    eexists. split; [done|]. split.
    + intros ? [= <-]. constructor; [|by apply Hunits].
      rewrite Hl. simpl. by rewrite Ha.
    + eauto.
Qed.

Lemma by_shape_no_candidate self h pool units shape :
  no_candidate self h pool shape →
  Forall2 (λ name u, resolve self h name = Some u) pool units →
  Autografs.by_shape units shape = [].
Proof.
  intros Hno Hunits. unfold Autografs.by_shape.
  induction Hunits as [|name u pool units Hu Hunits IH]; [done|].
  rewrite filter_cons. rewrite decide_False.
  - apply IH. intros name' u' Hname'. apply Hno. by right.
  - apply (Hno name u); [by left|done].
Qed.

Lemma random_choice_heap {A} (seq : list A) w :
  heap (random_choice seq w).2 = heap w.
Proof. unfold random_choice. by destruct (seq !! _). Qed.

Lemma random_choice_error {A} (seq : list A) w e w' :
  random_choice seq w = (inl e, w') → e = empty_choice.
Proof. unfold random_choice. destruct (seq !! _); by intros [= <-]. Qed.

(** [get_sbu_dict] on slots one of which has a shape that no unit of
    the pool has. *)
Lemma get_sbu_dict_loop_unfillable self slots pool d w idx shape :
  (idx, shape) ∈ slots →
  no_candidate self (heap w) pool shape →
  ∃ e w', Autografs.get_sbu_dict_loop self slots (Some pool) d w = (inl e, w') ∧
    ((∀ name, name ∈ pool → is_Some (resolve self (heap w) name)) → e = empty_choice).
Proof.
  revert d w. induction slots as [|[i s] slots IH]; intros d w Hin Hno.
  { by apply elem_of_nil in Hin. }
  simpl. rewrite (bind_run _ _ _ pool w) by done.
  destruct (sbu_of_names_run self pool w) as (r & Hr & Hunits & Hall).
  destruct r as [e|units].
  { rewrite (bind_raise _ _ _ _ _ Hr). eexists _, _. split; [done|].
    intros Hres. by destruct (Hall Hres). }
  rewrite (bind_run _ _ _ _ _ Hr).
  destruct (random_choice (Autografs.by_shape units s) w) as [[e|u] w2] eqn:Hchoice.
  { rewrite (bind_raise _ _ _ _ _ Hchoice). eexists _, _. split; [done|].
    intros _. by eapply random_choice_error. }
  rewrite (bind_run _ _ _ _ _ Hchoice).
  pose proof (random_choice_heap (Autografs.by_shape units s) w) as Hheap.
  rewrite Hchoice in Hheap. simpl in Hheap.
  apply elem_of_cons in Hin as [[= <- <-]|Hin].
  - rewrite (by_shape_no_candidate self (heap w) pool units shape) in Hchoice by auto.
    unfold random_choice in Hchoice. simpl in Hchoice. done.
  - destruct (IH (dict.set d i u) w2 Hin) as (e & w' & Hloop & He).
    { by rewrite Hheap. }
    exists e, w'. split; [done|]. by rewrite Hheap in He.
Qed.

(** C5. When a slot of the topology has a shape that no unit of the
    supplied pool has, [make] raises and returns no framework; the
    exception is the [IndexError] of [random.choice] on the empty list of
    candidates as soon as every name of the pool stands for a unit. *)
Theorem make_unfillable_slot self name pool (w : world F) tl top w1 idx shape :
  Self.topologies self !! name = Some tl →
  Topology.new name tl w = (inr top, w1) →
  (idx, shape) ∈ Topology.shapes top →
  no_candidate self (heap w1) pool shape →
  raised (outcome (Autografs.make self name (Some pool) None w)) ∧
  ((∀ n, n ∈ pool → is_Some (resolve self (heap w1) n)) →
     outcome (Autografs.make self name (Some pool) None w) = inl empty_choice).
Proof.
  intros Htl Htop Hin Hno.
  destruct (get_sbu_dict_loop_unfillable self (Topology.shapes top) pool [] w1 idx shape Hin Hno)
    as (e & w' & Hloop & He).
  assert (Hmake : Autografs.make self name (Some pool) None w = (inl e, w')).
  { unfold Autografs.make, Autografs.make_aligned, Autografs.make_assignment.
    rewrite !bind_assoc.
    rewrite (bind_run _ _ _ _ _ (getitem_run _ _ _ w Htl)).
    rewrite !bind_assoc.
    rewrite (bind_run _ _ _ _ _ Htop).
    rewrite !bind_assoc.
    rewrite (bind_run _ _ _ (Topology.atoms top) w1) by done.
    rewrite !bind_assoc.
    by rewrite (bind_raise _ _ _ _ _ Hloop). }
  rewrite Hmake. split; [by exists e|]. intros Hres. simpl. f_equal. auto.
Qed.
End Unfillable.

Section MakeLoop.
Context {F : Type} `{FloatOps F} `{Lapack F} `{Collaborators F}.
Implicit Types (h : list (Atoms.t F)) (w : world F) (fw : Framework.t).

(** A turn of the loop of [make] that returns. *)
Lemma make_slot_success top idx sbu fw alpha w r w' :
  fragments_stored top (heap w) →
  Autografs.make_slot top idx sbu fw alpha w = (inr r, w') →
  ∃ fl fa sa v mmtypes bonds,
    dict.get (Topology.fragments top) idx = Some fl ∧
    heap w !! fl = Some fa ∧ heap w !! SBU.atoms sbu = Some sa ∧
    (Summary.align_objects fa sa).1 = inr v ∧
    r = (Framework.append fw idx (length (heap w)) mmtypes bonds, Autografs.iadd alpha v) ∧
    w' = mkWorld (heap w ++ (Summary.align_objects fa sa).2) (rand w).
Proof.
  intros Hfrag. unfold Autografs.make_slot.
  destruct (dict.get (Topology.fragments top) idx) as [fl|] eqn:Hfl.
  2:{ by rewrite (bind_raise _ _ _ (KeyError (pretty idx)) w). }
  rewrite (bind_run _ _ _ fl w) by done.
  destruct (Hfrag idx fl Hfl) as [fa Hfa].
  destruct (heap w !! SBU.atoms sbu) as [sa|] eqn:Hsa.
  2:{ rewrite (bind_raise _ _ _ (TypeError "no such object") w); [done|].
      unfold deref. by rewrite Hsa. }
  assert (Hderef : deref (SBU.atoms sbu) w = (inr sa, w)).
  { unfold deref. by rewrite Hsa. }
  rewrite (bind_run _ _ _ _ _ Hderef).
  set (bt := match Atoms.info sa !! "bonds", Atoms.info sa !! "mmtypes" with
             | Some b, Some t => (b, t)
             | _, _ => analyze_mm sa
             end).
  rewrite (bind_run _ _ _ bt w).
  2:{ unfold bt, SBU.get_atoms.
      destruct (Atoms.info sa !! "bonds"), (Atoms.info sa !! "mmtypes");
        try done; by rewrite (bind_run _ _ _ _ _ Hderef). }
  pose proof (align_run w fl (SBU.atoms sbu) fa sa Hfa Hsa) as Hrun.
  destruct (Summary.align_objects fa sa).1 as [e|v] eqn:Hv.
  { by rewrite (bind_raise _ _ _ _ _ Hrun). }
  rewrite (bind_run _ _ _ _ _ Hrun). intros [= <- <-].
  exists fl, fa, sa, v, bt.2, bt.1. done.
Qed.

Lemma fragments_stored_app top h extra :
  fragments_stored top h → fragments_stored top (h ++ extra).
Proof.
  intros Hfrag idx fl Hfl. destruct (Hfrag idx fl Hfl) as [a Ha].
  exists a. by apply lookup_app_l_Some.
Qed.

Lemma units_stored_app items h extra :
  units_stored items h → units_stored items (h ++ extra).
Proof.
  intros Hunits idx sbu Hin. destruct (Hunits idx sbu Hin) as [a Ha].
  exists a. by apply lookup_app_l_Some.
Qed.

(** What [align] returns depends on the fragment and on the unit, not on
    what else the store holds. *)
Lemma align_outcome_app w extra r' fl s :
  is_Some (heap w !! fl) → is_Some (heap w !! s) →
  match outcome (Autografs.align fl s (mkWorld (heap w ++ extra) r')) with
  | inr r => inr r.2
  | inl e => inl e
  end
  = match outcome (Autografs.align fl s w) with
    | inr r => inr r.2
    | inl e => inl e
    end.
Proof.
  intros [fa Hfa] [sa Hsa].
  rewrite (align_run w fl s fa sa Hfa Hsa).
  rewrite (align_run (mkWorld (heap w ++ extra) r') fl s fa sa)
    by (by apply lookup_app_l_Some).
  unfold outcome. simpl. by destruct (Summary.align_objects fa sa).1.
Qed.

Lemma slot_scale_app w extra r' top item :
  fragments_stored top (heap w) → is_Some (heap w !! SBU.atoms item.2) →
  slot_scale (mkWorld (heap w ++ extra) r') top item = slot_scale w top item.
Proof.
  intros Hfrag Hsbu. unfold slot_scale.
  destruct (dict.get _ _) as [fl|] eqn:Hfl; [|done].
  pose proof (align_outcome_app w extra r' fl (SBU.atoms item.2)
                (Hfrag _ _ Hfl) Hsbu) as Heq.
  destruct (outcome (Autografs.align fl _ (mkWorld _ _))),
           (outcome (Autografs.align fl _ w)); by simplify_eq.
Qed.

Lemma slot_aligned_app w extra r' top item :
  fragments_stored top (heap w) → is_Some (heap w !! SBU.atoms item.2) →
  slot_aligned (mkWorld (heap w ++ extra) r') top item → slot_aligned w top item.
Proof.
  intros Hfrag Hsbu (fl & r & Hfl & Hr). exists fl.
  pose proof (align_outcome_app w extra r' fl (SBU.atoms item.2)
                (Hfrag _ _ Hfl) Hsbu) as Heq.
  rewrite Hr in Heq. destruct (outcome (Autografs.align fl _ w)) as [|r0]; [done|].
  by exists r0.
Qed.

(** The loop of [make], when it returns: the scale is the sum, from left
    to right, of the scales [align] returns for the slots. *)
Lemma make_loop_scale top items fw alpha w r w' :
  fragments_stored top (heap w) → units_stored items (heap w) →
  Autografs.make_loop top items fw alpha w = (inr r, w') →
  r.2 = foldl Autografs.iadd alpha (slot_scale w top <$> items)
  ∧ Forall (slot_aligned w top) items.
Proof.
  revert fw alpha w. induction items as [|[idx sbu] items IH]; intros fw alpha w Hfrag Hunits.
  { simpl. by intros [= <- <-]. }
  simpl. destruct (Autografs.make_slot top idx sbu fw alpha w) as [[e|r1] w1] eqn:Hslot.
  { by rewrite (bind_raise _ _ _ _ _ Hslot). }
  rewrite (bind_run _ _ _ _ _ Hslot). intros Hloop.
  destruct (make_slot_success top idx sbu fw alpha w r1 w1 Hfrag Hslot)
    as (fl & fa & sa & v & mmtypes & bonds & Hfl & Hfa & Hsa & Hv & -> & ->).
  apply IH in Hloop as [Hr Hall]; simpl.
  2:{ by apply fragments_stored_app. }
  2:{ apply units_stored_app. intros i s Hin. apply (Hunits i s). by right. }
  assert (Hhead : outcome (Autografs.align fl (SBU.atoms sbu) w) = inr (length (heap w), v)).
  { rewrite (align_run w fl (SBU.atoms sbu) fa sa Hfa Hsa). unfold outcome. simpl. by rewrite Hv. }
  split.
  - rewrite Hr. simpl. f_equal.
    + unfold slot_scale. simpl. by rewrite Hfl, Hhead.
    + apply list_fmap_ext. intros k item Hk. apply slot_scale_app; [done|].
      destruct item as [i s]. apply (Hunits i s). right. by eapply list_elem_of_lookup_2.
  - constructor.
    + exists fl, (length (heap w), v). by split.
    + apply Forall_forall. intros item Hitem.
      rewrite Forall_forall in Hall. specialize (Hall item Hitem).
      eapply slot_aligned_app; [done| |done].
      destruct item as [i s]. apply (Hunits i s). by right.
Qed.
End MakeLoop.

(** ** Dictionaries *)

Section DictFacts.
Context {K V : Type} `{EqDecision K}.
Implicit Types (d : list (K * V)).

Lemma dict_get_set d k v k' :
  dict.get (dict.set d k v) k' = if decide (k = k') then Some v else dict.get d k'.
Proof.
  induction d as [|[k0 v0] d IH]; simpl.
  { destruct (decide (k = k')); by simpl. }
  destruct (decide (k0 = k)) as [->|Hne]; simpl.
  - by destruct (decide (k = k')).
  - destruct (decide (k0 = k')) as [->|Hne']; [by rewrite decide_False|done].
Qed.

Lemma dict_keys_set d k v :
  dict.keys (dict.set d k v)
  = if decide (k ∈ dict.keys d) then dict.keys d else dict.keys d ++ [k].
Proof.
  unfold dict.keys. induction d as [|[k0 v0] d IH].
  { cbn. rewrite decide_False; [done|]. apply not_elem_of_nil. }
  cbn [dict.set]. destruct (decide (k0 = k)) as [->|Hne]; rewrite !fmap_cons; cbn [fst].
  - rewrite decide_True; [done|]. by left.
  - rewrite IH. destruct (decide (k ∈ d.*1)) as [Hin|Hin].
    + rewrite decide_True; [done|]. by right.
    + rewrite decide_False; [done|]. intros [?|?]%elem_of_cons; congruence.
Qed.

Lemma dict_set_elem_of d k v k' v' :
  (k', v') ∈ dict.set d k v → (k', v') = (k, v) ∨ (k', v') ∈ d.
Proof.
  induction d as [|[k0 v0] d IH]; simpl.
  { intros ->%list_elem_of_singleton. by left. }
  destruct (decide (k0 = k)) as [->|Hne].
  - intros [->|Hin]%elem_of_cons; [by left|right; by right].
  - intros [->|Hin]%elem_of_cons; [right; by left|].
    destruct (IH Hin) as [?|?]; [by left|right; by right].
Qed.
End DictFacts.

Section Assignment.
Context {F : Type} `{FloatOps F} `{Lapack F} `{Collaborators F}.
Implicit Types (h : list (Atoms.t F)) (w : world F) (fw : Framework.t).

Lemma add_slots_stored slots top w top' w' :
  fragments_stored top (heap w) →
  Topology.add_slots slots top w = (inr top', w') →
  fragments_stored top' (heap w') ∧ ∃ extra, heap w' = heap w ++ extra.
Proof.
  revert top w. induction slots as [|[[index fragment] shape] slots IH]; intros top w Hfrag; simpl.
  { intros [= <- <-]. split; [done|]. exists []. by rewrite app_nil_r. }
  rewrite (bind_run _ _ _ (length (heap w)) (mkWorld (heap w ++ [fragment]) (rand w))) by done.
  intros Hrest. apply IH in Hrest as [Hstored [extra Hextra]].
  - split; [done|]. simpl in Hextra. rewrite Hextra, <- app_assoc. eauto.
  - intros idx fl. simpl. rewrite dict_get_set.
    destruct (decide (index = idx)) as [->|Hne].
    + intros [= <-]. by rewrite list_lookup_middle.
    + intros Hfl. destruct (Hfrag idx fl Hfl) as [a Ha].
      exists a. by apply lookup_app_l_Some.
Qed.

Lemma topology_new_stored name tl w top w1 :
  Topology.new name tl w = (inr top, w1) →
  fragments_stored top (heap w1) ∧ ∃ extra, heap w1 = heap w ++ extra.
Proof.
  unfold Topology.new, deref. unfold mbind, py_bind.
  destruct (heap w !! tl) as [a|]; [|done].
  apply add_slots_stored. intros idx fl. done.
Qed.

Lemma sbu_of_names_world self pool w :
  (Autografs.sbu_of_names self pool w).2 = w.
Proof.
  destruct (sbu_of_names_run self pool w) as (r & Hr & _). by rewrite Hr.
Qed.

Lemma get_sbu_dict_loop_heap self slots names d w :
  heap (Autografs.get_sbu_dict_loop self slots names d w).2 = heap w.
Proof.
  revert d w. induction slots as [|[index shape] slots IH]; intros d w; simpl; [done|].
  destruct names as [pool|].
  2:{ by rewrite (bind_raise _ _ _ (TypeError "'NoneType' object is not iterable") w). }
  rewrite (bind_run _ _ _ pool w) by done.
  destruct (sbu_of_names_run self pool w) as ([e|units] & Hr & _).
  { by rewrite (bind_raise _ _ _ _ _ Hr). }
  rewrite (bind_run _ _ _ _ _ Hr).
  pose proof (random_choice_heap (Autografs.by_shape units shape) w) as Hheap.
  destruct (random_choice _ w) as [[e|u] w2] eqn:Hchoice; simpl in Hheap.
  { by rewrite (bind_raise _ _ _ _ _ Hchoice). }
  rewrite (bind_run _ _ _ _ _ Hchoice). by rewrite IH.
Qed.

(** [make] down to the slot assignment, when that returns: the
    fragments of the topology are in the store and the framework is
    empty. *)
Lemma make_assignment_success self name names sd w top fw0 d w1 :
  Autografs.make_assignment self name names sd w = (inr (top, fw0, d), w1) →
  fragments_stored top (heap w1) ∧ Framework.fragments fw0 = [].
Proof.
  unfold Autografs.make_assignment.
  destruct (Self.topologies self !! name) as [tl|] eqn:Htl.
  2:{ rewrite (bind_raise _ _ _ (KeyError name) w); [done|]. unfold getitem. by rewrite Htl. }
  rewrite (bind_run _ _ _ _ _ (getitem_run _ _ _ w Htl)).
  destruct (Topology.new name tl w) as [[e|top'] w0] eqn:Htop.
  { by rewrite (bind_raise _ _ _ _ _ Htop). }
  rewrite (bind_run _ _ _ _ _ Htop).
  rewrite (bind_run _ _ _ (Topology.atoms top') w0) by done.
  apply topology_new_stored in Htop as [Hstored _].
  destruct sd as [d0|].
  - rewrite (bind_run _ _ _ d0 w0) by done. by intros [= <- <- <- <-].
  - pose proof (get_sbu_dict_loop_heap self (Topology.shapes top') names [] w0) as Hheap.
    unfold Autografs.get_sbu_dict.
    destruct (Autografs.get_sbu_dict_loop _ _ _ _ _) as [[e|d0] w2] eqn:Hdict.
    { by rewrite (bind_raise _ _ _ _ _ Hdict). }
    rewrite (bind_run _ _ _ _ _ Hdict). intros [= <- <- <- <-].
    simpl in Hheap. by rewrite Hheap.
Qed.
End Assignment.

(** ** Sums of scales *)

Section Sums.
Context {F : Type} `{FloatOps F} `{Lapack F} `{Collaborators F}.

Lemma iadd_swap `{!ExactAdd F} (alpha : F + vec3 F) (u v : vec3 F) :
  Autografs.iadd (Autografs.iadd alpha u) v = Autografs.iadd (Autografs.iadd alpha v) u.
Proof.
  assert (Hswap : ∀ a b c : F, f_add (f_add a b) c = f_add (f_add a c) b).
  { intros a b c. by rewrite !add_assoc, (add_comm b c). }
  destruct alpha as [x|a]; simpl; unfold np.vzip, np.vmap; simpl;
    do 2 f_equal; apply Hswap.
Qed.

Lemma foldl_iadd_permutation `{!ExactAdd F} (alpha : F + vec3 F) (us vs : list (vec3 F)) :
  us ≡ₚ vs → foldl Autografs.iadd alpha us = foldl Autografs.iadd alpha vs.
Proof.
  intros Hperm. revert alpha.
  induction Hperm as [|u us vs _ IH|u v us|us vs ws _ IH1 _ IH2]; intros alpha; simpl.
  - done.
  - apply IH.
  - by rewrite iadd_swap.
  - by rewrite IH1.
Qed.

(** C8, as the code has it. The scale [make] hands to [refine] is the
    sum of the scales [align] returns for the slots, added from left to
    right in the order of the slot assignment, starting from 0.0; where
    addition does not round, it is the same for every order of the
    slots. *)
Theorem scale_accumulated self name names sd (w : world F) top fw0 d w1 fw alpha w' :
  Autografs.make_assignment self name names sd w = (inr (top, fw0, d), w1) →
  units_stored d (heap w1) →
  Autografs.make_aligned self name names sd w = (inr (fw, alpha), w') →
  alpha = foldl Autografs.iadd (inl f_zero) (slot_scale w1 top <$> d)
  ∧ Forall (slot_aligned w1 top) d
  ∧ (ExactAdd F → ∀ d', d' ≡ₚ d →
       foldl Autografs.iadd (inl f_zero) (slot_scale w1 top <$> d')
       = foldl Autografs.iadd (inl f_zero) (slot_scale w1 top <$> d)).
Proof.
  intros Hassign Hunits. unfold Autografs.make_aligned.
  rewrite (bind_run _ _ _ _ _ Hassign). simpl. intros Hloop.
  apply make_assignment_success in Hassign as [Hstored _].
  apply make_loop_scale in Hloop as [Halpha Hall]; [|done|done].
  split; [done|]. split; [done|].
  intros Hexact d' Hperm. apply foldl_iadd_permutation. by apply fmap_Permutation.
Qed.
End Sums.

Section Symbols.
Context {F : Type} `{FloatOps F} `{Lapack F} `{Collaborators F}.
Implicit Types (h : list (Atoms.t F)) (w : world F) (fw : Framework.t) (a fa sa : Atoms.t F).

Lemma symbols_with_tag a i t : Atoms.symbols (ase.with_tag a i t) = Atoms.symbols a.
Proof.
  unfold Atoms.symbols, ase.with_tag. cbn [Atoms.atom_list].
  apply list_eq. intros k. rewrite !list_lookup_fmap.
  destruct (decide (i = k)) as [<-|Hne].
  - rewrite list_lookup_alter_eq. by destruct (Atoms.atom_list a !! i).
  - by rewrite list_lookup_alter_ne.
Qed.

Lemma symbols_tag_row fa a i : Atoms.symbols (Summary.tag_row fa a i).2 = Atoms.symbols a.
Proof.
  unfold Summary.tag_row. destruct (Atoms.atom_list a !! i) as [x|]; [|done].
  destruct (bool_decide _); [done|].
  destruct (np.argmin _) as [e|fi]; [done|].
  destruct (Atoms.atom_list fa !! fi); [|done]. apply symbols_with_tag.
Qed.

Lemma symbols_tag_rows fa a rows : Atoms.symbols (Summary.tag_rows fa a rows).2 = Atoms.symbols a.
Proof.
  revert a. induction rows as [|i rows IH]; intros a; simpl; [done|].
  pose proof (symbols_tag_row fa a i) as Hrow.
  destruct (Summary.tag_row fa a i) as [[e|[]] a']; simpl in *; [done|].
  by rewrite IH.
Qed.

Lemma symbols_centre a : Atoms.symbols (Summary.centre a) = Atoms.symbols a.
Proof.
  apply symbols_with_positions. by rewrite length_sub_rows, length_positions.
Qed.

(** The unit [align] returns has the symbols of the unit it is given,
    in the same order. *)
Lemma align_objects_symbols fa sa v :
  (Summary.align_objects fa sa).1 = inr v →
  ∃ sa' rest, (Summary.align_objects fa sa).2 = sa' :: rest ∧
    Atoms.symbols sa' = Atoms.symbols sa.
Proof.
  unfold Summary.align_objects.
  destruct (Autografs.scaling_factor _ _ _) as [e|alpha]; [done|].
  destruct (scipy.orthogonal_procrustes _ _) as [e|Rs]; [done|].
  match goal with |- context [Summary.tag_rows ?f ?a ?r] =>
    pose proof (symbols_tag_rows f a r) as Hsym;
    destruct (Summary.tag_rows f a r) as [[e|[]] sa3] end; [done|].
  simpl in *. intros _. eexists _, _. split; [done|].
  rewrite Hsym, symbols_with_positions, symbols_centre; [done|].
  by rewrite length_dot, length_positions.
Qed.

Lemma foldl_add_key_fresh ks0 ks : NoDup (ks0 ++ ks) → foldl add_key ks0 ks = ks0 ++ ks.
Proof.
  revert ks0. induction ks as [|k ks IH]; intros ks0 Hnd; simpl.
  { by rewrite app_nil_r. }
  unfold add_key at 2. rewrite decide_False.
  - rewrite IH; rewrite <- app_assoc; done.
  - apply NoDup_app in Hnd as (_ & Hdisj & _). intros Hin.
    apply (Hdisj k Hin). by left.
Qed.

(** The loop of [make], when it returns: one fragment for every slot of
    the assignment, holding a unit with the symbols of its source. *)
Lemma make_loop_fragments top items fw alpha w r w' :
  fragments_stored top (heap w) → units_stored items (heap w) →
  Autografs.make_loop top items fw alpha w = (inr r, w') →
  (∃ extra, heap w' = heap w ++ extra) ∧
  dict.keys (Framework.fragments r.1) = foldl add_key (dict.keys (Framework.fragments fw)) items.*1 ∧
  (∀ k, k ∉ items.*1 →
     dict.get (Framework.fragments r.1) k = dict.get (Framework.fragments fw) k) ∧
  (NoDup items.*1 → ∀ idx sbu, (idx, sbu) ∈ items →
     ∃ fr sa sa', dict.get (Framework.fragments r.1) idx = Some fr ∧
       heap w !! SBU.atoms sbu = Some sa ∧
       heap w' !! Framework.sbu fr = Some sa' ∧
       Atoms.symbols sa' = Atoms.symbols sa).
Proof.
  revert fw alpha w. induction items as [|[idx sbu] items IH]; intros fw alpha w Hfrag Hunits.
  { simpl. intros [= <- <-]. split; [exists []; by rewrite app_nil_r|].
    split; [done|]. split; [done|]. intros _ ? ? Hin. by apply elem_of_nil in Hin. }
  simpl. destruct (Autografs.make_slot top idx sbu fw alpha w) as [[e|r1] w1] eqn:Hslot.
  { by rewrite (bind_raise _ _ _ _ _ Hslot). }
  rewrite (bind_run _ _ _ _ _ Hslot). intros Hloop.
  destruct (make_slot_success top idx sbu fw alpha w r1 w1 Hfrag Hslot)
    as (fl & fa & sa & v & mmtypes & bonds & Hfl & Hfa & Hsa & Hv & -> & ->).
  destruct (align_objects_symbols fa sa v Hv) as (sa3 & rest & Hobjs & Hsym).
  apply IH in Hloop as ([extra Hextra] & Hkeys & Hother & Hin); simpl in *.
  2:{ by apply fragments_stored_app. }
  2:{ apply units_stored_app. intros i s ?. apply (Hunits i s). by right. }
  split; [exists ((Summary.align_objects fa sa).2 ++ extra); by rewrite Hextra, <- app_assoc|].
  split; [by rewrite Hkeys, dict_keys_set|].
  split.
  { intros k Hk. rewrite Hother by (intros ?; apply Hk; by right).
    rewrite dict_get_set, decide_False; [done|]. intros ->. apply Hk. by left. }
  intros Hnd i s Hi. apply NoDup_cons in Hnd as [Hidx Hnd].
  apply elem_of_cons in Hi as [[= -> ->]|Hi].
  - eexists _, sa, sa3. rewrite Hother, dict_get_set, decide_True by done.
    split; [done|]. split; [done|]. split; [|done].
    simpl. rewrite Hextra, Hobjs, <- app_assoc. simpl. by rewrite list_lookup_middle.
  - destruct (Hin Hnd i s Hi) as (fr & sa0 & sa' & Hfr & Hsa0 & Hsa' & Hsym').
    destruct (Hunits i s) as [sa1 Hsa1]; [by right|].
    rewrite (lookup_app_l_Some _ _ _ _ Hsa1) in Hsa0. simplify_eq.
    by exists fr, sa0, sa'.
Qed.

Lemma bind_world {A B} (m : Py F A) (k : A → Py F B) w :
  (m w).2 = w → (∀ x, (k x w).2 = w) → ((m ≫= k) w).2 = w.
Proof.
  intros Hm Hk. unfold mbind, py_bind.
  destruct (m w) as [[e|x] w1]; simpl in *; subst; [done|]. apply Hk.
Qed.

Lemma get_positions_world l w : (ase.get_positions (F:=F) l w).2 = w.
Proof.
  unfold ase.get_positions. apply bind_world; [|done].
  unfold deref. by destruct (heap w !! l).
Qed.

Lemma all_positions_world fs w : (Framework.all_positions fs w).2 = w.
Proof.
  induction fs as [|[index f] fs IH]; simpl; [done|].
  apply bind_world; [apply get_positions_world|]. intros ps.
  apply bind_world; [apply IH|done].
Qed.

Lemma set_positions_symbols l (ps : list (vec3 F)) w w' :
  ase.set_positions l ps w = (inr tt, w') → same_symbols (heap w) (heap w').
Proof.
  unfold ase.set_positions, deref. unfold mbind, py_bind.
  destruct (heap w !! l) as [a|] eqn:Ha; [|done].
  destruct (decide _) as [Hlen|]; [|done]. unfold assign. intros [= <-]. simpl.
  intros l' a' Hl'. destruct (decide (l = l')) as [<-|Hne].
  - assert (a' = a) as -> by congruence. exists (ase.with_positions a ps).
    rewrite list_lookup_insert_eq by (by eapply lookup_lt_Some).
    split; [done|]. by apply symbols_with_positions.
  - exists a'. by rewrite list_lookup_insert_ne.
Qed.

Lemma same_symbols_trans h1 h2 h3 :
  same_symbols h1 h2 → same_symbols h2 h3 → same_symbols h1 h3.
Proof.
  intros H12 H23 l a Hl. destruct (H12 l a Hl) as (a2 & Hl2 & Hs2).
  destruct (H23 l a2 Hl2) as (a3 & Hl3 & Hs3). exists a3. split; [done|congruence].
Qed.

Lemma move_symbols alpha0 all fs w w' :
  Framework.move alpha0 all fs w = (inr tt, w') → same_symbols (heap w) (heap w').
Proof.
  revert w. induction fs as [|[index f] fs IH]; intros w; simpl.
  { intros [= <-]. intros l a Hl. by exists a. }
  destruct (ase.set_positions (Framework.sbu f) (refined_positions alpha0 all index) w)
    as [[e|[]] w1] eqn:Hset.
  { by rewrite (bind_raise _ _ _ _ _ Hset). }
  rewrite (bind_run _ _ _ _ _ Hset). intros Hmove.
  eapply same_symbols_trans; [by eapply set_positions_symbols|by apply IH].
Qed.

Lemma refine_symbols fw alpha0 w w' :
  Framework.refine fw alpha0 w = (inr tt, w') → same_symbols (heap w) (heap w').
Proof.
  unfold Framework.refine.
  pose proof (all_positions_world (Framework.fragments fw) w) as Hw.
  destruct (Framework.all_positions _ w) as [[e|all] w1] eqn:Hall; simpl in Hw; subst w1.
  { by rewrite (bind_raise _ _ _ _ _ Hall). }
  rewrite (bind_run _ _ _ _ _ Hall). apply move_symbols.
Qed.

(** C7. When [make] returns, the framework holds one aligned fragment
    for every slot index of the slot assignment and no other, and the
    unit of each has the symbols of the building unit it was made from,
    in the same order: as many atoms, in the same order. *)
Theorem make_complete self name names sd (w : world F) top fw0 d w1 fw w' :
  Autografs.make_assignment self name names sd w = (inr (top, fw0, d), w1) →
  NoDup d.*1 → units_stored d (heap w1) →
  Autografs.make self name names sd w = (inr fw, w') →
  dict.keys (Framework.fragments fw) = d.*1 ∧
  ∀ idx sbu, (idx, sbu) ∈ d →
    ∃ fr sa sa', dict.get (Framework.fragments fw) idx = Some fr ∧
      heap w1 !! SBU.atoms sbu = Some sa ∧
      heap w' !! Framework.sbu fr = Some sa' ∧
      Atoms.symbols sa' = Atoms.symbols sa ∧
      length (Atoms.atom_list sa') = length (Atoms.atom_list sa).
Proof.
  intros Hassign Hnd Hunits. unfold Autografs.make, Autografs.make_aligned.
  rewrite bind_assoc. rewrite (bind_run _ _ _ _ _ Hassign). simpl.
  apply make_assignment_success in Hassign as [Hstored Hempty].
  destruct (Autografs.make_loop top d fw0 (inl f_zero) w1) as [[e|r] w2] eqn:Hloop.
  { by rewrite (bind_raise _ _ _ _ _ Hloop). }
  rewrite (bind_run _ _ _ _ _ Hloop).
  destruct (Framework.refine r.1 r.2 w2) as [[e|[]] w3] eqn:Hrefine.
  { by rewrite (bind_raise _ _ _ _ _ Hrefine). }
  rewrite (bind_run _ _ _ _ _ Hrefine). intros [= <- <-].
  apply make_loop_fragments in Hloop as (_ & Hkeys & _ & Hin); [|done|done].
  apply refine_symbols in Hrefine.
  split.
  { rewrite Hkeys, Hempty. by apply (foldl_add_key_fresh []). }
  intros idx sbu Hi. destruct (Hin Hnd idx sbu Hi) as (fr & sa & sa2 & Hfr & Hsa & Hsa2 & Hsym).
  destruct (Hrefine _ _ Hsa2) as (sa' & Hsa' & Hsym').
  exists fr, sa, sa'. repeat split; try done; [congruence|].
  assert (Hlen : length (Atoms.symbols sa') = length (Atoms.symbols sa)) by congruence.
  unfold Atoms.symbols in Hlen. by rewrite !length_fmap in Hlen.
Qed.
End Symbols.

Section Listing.
Context {F : Type} `{FloatOps F} `{Lapack F} `{Collaborators F}.

(** C10. [list_available_sbu] raises for every topology name, on its
    first line: the local [shapes] is read before it is bound. The
    exception is an [UnboundLocalError], a [NameError]; no dictionary is
    returned and the world is as it was. *)
Theorem list_available_sbu_raises (self : Self.t) (topology : string) (w : world F) :
  Autografs.list_available_sbu self topology w = (inl (UnboundLocalError "shapes"), w)
  ∧ isinstance_NameError (UnboundLocalError "shapes") = true.
Proof. split; reflexivity. Qed.
End Listing.

(** ** Rotations, in real arithmetic *)

Section RotationFacts.
Import Rotation Spec.
Open Scope R_scope.

Ltac mat_components :=
  repeat match goal with
    | m : mat3 R |- _ => destruct m as [[? ? ?] [? ? ?] [? ? ?]]
    | v : vec3 R |- _ => destruct v as [? ? ?]
    end.

Ltac mat_ring :=
  mat_components; unfold np.matmul, np.transpose, np.vec_dot, np.dot3, np.col0, np.col1,
    np.col2, identity, diag, det; cbn;
  first [ring | f_equal; f_equal; ring].

Lemma matmul_assoc (a b c : mat3 R) :
  np.matmul (np.matmul a b) c = np.matmul a (np.matmul b c).
Proof. mat_ring. Qed.

Lemma transpose_matmul (a b : mat3 R) :
  np.transpose (np.matmul a b) = np.matmul (np.transpose b) (np.transpose a).
Proof. mat_ring. Qed.

Lemma matmul_identity_l (a : mat3 R) : np.matmul identity a = a.
Proof. mat_ring. Qed.

Lemma det_matmul (a b : mat3 R) : det (np.matmul a b) = det a * det b.
Proof. mat_ring. Qed.

Lemma det_transpose (a : mat3 R) : det (np.transpose a) = det a.
Proof. mat_ring. Qed.

Lemma det_identity : det identity = 1.
Proof. unfold det, identity. cbn. ring. Qed.

Lemma det_diag (w : vec3 R) : det (diag w) = vx w * vy w * vz w.
Proof. mat_ring. Qed.

Lemma orthogonal_matmul (a b : mat3 R) :
  orthogonal a → orthogonal b → orthogonal (np.matmul a b).
Proof.
  unfold orthogonal. intros Ha Hb.
  rewrite transpose_matmul, matmul_assoc, <- (matmul_assoc b), Hb, matmul_identity_l.
  done.
Qed.

Lemma orthogonal_det (a : mat3 R) : orthogonal a → det a = 1 ∨ det a = -1.
Proof.
  unfold orthogonal. intros Ha.
  assert (Hsq : det a * det a = 1).
  { rewrite <- (det_transpose a) at 2. by rewrite <- det_matmul, Ha, det_identity. }
  assert (Hz : (det a - 1) * (det a + 1) = 0) by lra.
  apply Rmult_integral in Hz as [Hz|Hz]; [left|right]; lra.
Qed.

(** The product of the outer factors of a decomposition of a matrix
    with a negative determinant is a reflection. *)
Lemma svd_reflection (m u : mat3 R) (w : vec3 R) (vt : mat3 R) :
  is_svd m u w vt → det m < 0 → det (np.matmul u vt) = -1.
Proof.
  intros (Hu & Hvt & Hx & Hy & Hz & ->) Hdet.
  rewrite !det_matmul, det_diag in Hdet. rewrite det_matmul.
  assert (Hw : 0 <= vx w * vy w * vz w).
  { apply Rmult_le_pos; [apply Rmult_le_pos|]; done. }
  destruct (orthogonal_det u Hu) as [Hdu|Hdu], (orthogonal_det vt Hvt) as [Hdv|Hdv];
    rewrite Hdu, Hdv in *; nra.
Qed.
End RotationFacts.

Section PositionsKept.
Context {F : Type} `{FloatOps F}.
Implicit Types (a fa : Atoms.t F).

Lemma positions_with_tag a i t : Atoms.positions (ase.with_tag a i t) = Atoms.positions a.
Proof.
  unfold Atoms.positions, ase.with_tag. cbn [Atoms.atom_list].
  apply list_eq. intros k. rewrite !list_lookup_fmap.
  destruct (decide (i = k)) as [<-|Hne].
  - rewrite list_lookup_alter_eq. by destruct (Atoms.atom_list a !! i).
  - by rewrite list_lookup_alter_ne.
Qed.

Lemma positions_tag_row fa a i : Atoms.positions (Summary.tag_row fa a i).2 = Atoms.positions a.
Proof.
  unfold Summary.tag_row. destruct (Atoms.atom_list a !! i) as [x|]; [|done].
  destruct (bool_decide _); [done|].
  destruct (np.argmin _) as [e|fi]; [done|].
  destruct (Atoms.atom_list fa !! fi); [|done]. apply positions_with_tag.
Qed.

Lemma positions_tag_rows fa a rows :
  Atoms.positions (Summary.tag_rows fa a rows).2 = Atoms.positions a.
Proof.
  revert a. induction rows as [|i rows IH]; intros a; simpl; [done|].
  pose proof (positions_tag_row fa a i) as Hrow.
  destruct (Summary.tag_row fa a i) as [[e|[]] a']; simpl in *; [done|].
  by rewrite IH.
Qed.

(** When [align] returns, the unit it returns is the centred unit
    multiplied by the matrix of [Summary.rotation]. *)
Lemma align_objects_rotation `{Lapack F} fa sa v :
  (Summary.align_objects fa sa).1 = inr v →
  ∃ rot sa' rest, Summary.rotation fa sa = inr rot ∧
    (Summary.align_objects fa sa).2 = sa' :: rest ∧
    Atoms.positions sa' = np.dot (Atoms.positions (Summary.centre sa)) rot.
Proof.
  unfold Summary.align_objects, Summary.rotation.
  destruct (Autografs.scaling_factor _ _ _) as [e|alpha]; [done|]. simpl.
  destruct (scipy.orthogonal_procrustes _ _) as [e|Rs]; [done|]. simpl.
  match goal with |- context [Summary.tag_rows ?f ?a ?r] =>
    pose proof (positions_tag_rows f a r) as Hpos;
    destruct (Summary.tag_rows f a r) as [[e|[]] sa3] end; [done|].
  simpl in *. intros _. eexists _, _, _. split; [done|]. split; [done|].
  rewrite Hpos. apply positions_with_positions.
  by rewrite length_dot, length_positions.
Qed.
End PositionsKept.

Section RealRotation.
Context `{LapackSpec}.
Import Rotation.

(** In real arithmetic, with a decomposition from LAPACK, the matrix of
    [orthogonal_procrustes] is orthogonal: a rotation or a reflection. *)
Lemma orthogonal_procrustes_orthogonal (a b : list (vec3 R)) rot s :
  scipy.orthogonal_procrustes a b = inr (rot, s) →
  Spec.orthogonal rot ∧ (Spec.det rot = 1 ∨ Spec.det rot = -1)%R.
Proof.
  unfold scipy.orthogonal_procrustes, scipy.svd.
  destruct (negb (np.all_finite a)); [done|].
  destruct (negb (np.all_finite b)); [done|].
  destruct (negb (bool_decide _)); [done|].
  destruct (np.mat_finite _); [|done].
  destruct (gesdd _) as [[[u w] vt]|] eqn:Hsvd; [|done].
  simpl. intros [= <- _].
  apply gesdd_svd in Hsvd as (Hu & Hvt & _).
  assert (Horth : Spec.orthogonal (np.matmul u vt)) by by apply orthogonal_matmul.
  split; [done|]. by apply orthogonal_det.
Qed.

(** In real arithmetic, with a decomposition from LAPACK, the matrix
    [R] that [align] computes and applies to every atom of the centred
    unit is orthogonal, and its determinant is 1 or -1: a rotation or a
    reflection. Nothing in [align] tells the one from the other. *)
Lemma align_rotation_orthogonal (w : world R) fragment sbu fa sa r :
  heap w !! fragment = Some fa → heap w !! sbu = Some sa →
  outcome (Autografs.align fragment sbu w) = inr r →
  ∃ rot sa', Summary.rotation fa sa = inr rot ∧
    final_heap (Autografs.align fragment sbu w) !! r.1 = Some sa' ∧
    Atoms.positions sa' = np.dot (Atoms.positions (Summary.centre sa)) rot ∧
    Spec.orthogonal rot ∧ (Spec.det rot = 1 ∨ Spec.det rot = -1)%R.
Proof.
  intros Hf Hs. rewrite (align_run w fragment sbu fa sa Hf Hs).
  unfold outcome, final_heap. simpl.
  destruct (Summary.align_objects fa sa).1 as [e|v] eqn:Hv; [done|].
  intros [= <-]. simpl.
  destruct (align_objects_rotation fa sa v Hv) as (rot & sa' & rest & Hrot & Hobjs & Hpos).
  exists rot, sa'. split; [done|]. split; [by rewrite Hobjs, list_lookup_middle|].
  split; [done|].
  unfold Summary.rotation in Hrot.
  destruct (Autografs.scaling_factor _ _ _) as [e|alpha]; [done|]. simpl in Hrot.
  destruct (scipy.orthogonal_procrustes _ _) as [e|[rot' s]] eqn:Hproc; [done|].
  simpl in Hrot. injection Hrot as ->.
  by eapply orthogonal_procrustes_orthogonal.
Qed.
End RealRotation.

#[export] Instance real_order : FloatOrder R.
Proof.
  split.
  - intros x y _ _. simpl. unfold Real.geb.
    destruct (Rge_dec x y), (Rge_dec y x); auto; lra.
  - intros x y z. simpl. unfold Real.geb.
    destruct (Rge_dec x y), (Rge_dec y z), (Rge_dec x z); auto; lra.
Qed.

#[export] Instance real_exact_add : ExactAdd R.
Proof. split; intros; simpl; lra. Qed.

Section Returns.
Context {F : Type} `{FloatOrder F} `{Lapack F}.

(** Where no number is a NaN, [align] returns as soon as the Procrustes
    problem is solved, for a fragment of as many points as the unit has
    connection points and at least one. *)
Lemma align_returns w fragment sbu fa sa rot :
  (∀ x : F, f_isnan x = false) →
  heap w !! fragment = Some fa → heap w !! sbu = Some sa →
  length (Spec.connection_points sa) = length (Atoms.atom_list fa) →
  Atoms.atom_list fa ≠ [] →
  Summary.rotation fa sa = inr rot →
  outcome (Autografs.align fragment sbu w) = inr (length (heap w), Spec.scale fa sa).
Proof.
  intros Hnan Hf Hs Hn Hfa Hrot. rewrite (align_run w fragment sbu fa sa Hf Hs).
  unfold outcome, Summary.align_objects, Summary.rotation in *. cbn [fst snd].
  rewrite scaling_factor_matched in *.
  2,3: rewrite positions_dummies_centre, length_sub_rows, length_fmap;
       by rewrite length_positions, length_centre.
  rewrite ratios_spec in *. cbn [mbind sum_bind] in Hrot.
  destruct (scipy.orthogonal_procrustes _ _) as [e|Rs]; [done|].
  match goal with |- context [Summary.tag_rows ?f ?a ?r] =>
    destruct (tag_rows_spec f a r) as (a' & -> & _) end; try done.
  - intros Hnil. apply Hfa. apply (f_equal length) in Hnil.
    rewrite length_with_positions, length_centre in Hnil
      by (by rewrite length_dot, length_positions).
    by destruct (Atoms.atom_list fa).
  - intros i Hi. apply elem_of_seq in Hi. lia.
  - intros x _ _ p _. apply Hnan.
Qed.
End Returns.

Section RealExampleFacts.
Import RealExample.
Open Scope R_scope.

Lemma is_zero_true x : is_zero x = true → x = 0.
Proof. unfold is_zero. by destruct (Req_dec_T x 0). Qed.

Lemma is_zero_0 x : x = 0 → is_zero x = true.
Proof. intros ->. unfold is_zero. by destruct (Req_dec_T 0 0). Qed.

Lemma sign_square x : sign x * sign x = 1.
Proof. unfold sign. destruct (Rle_dec 0 x); lra. Qed.

Lemma sign_abs x : sign x * Rabs x = x.
Proof.
  unfold sign. destruct (Rle_dec 0 x) as [Hx|Hx].
  - rewrite Rabs_right; lra.
  - rewrite Rabs_left; lra.
Qed.

#[export] Instance lapack_spec : LapackSpec.
Proof.
  intros m u w vt. simpl. unfold gesdd_signed.
  destruct (is_zero (vy (row0 m))) eqn:H01; [|done].
  destruct (is_zero (vz (row0 m))) eqn:H02; [|done].
  destruct (is_zero (vx (row1 m))) eqn:H10; [|done].
  destruct (is_zero (vz (row1 m))) eqn:H12; [|done].
  destruct (is_zero (vx (row2 m))) eqn:H20; [|done].
  destruct (is_zero (vy (row2 m))) eqn:H21; [|done].
  simpl. intros [= <- <- <-].
  apply is_zero_true in H01, H02, H10, H12, H20, H21.
  destruct m as [[m00 m01 m02] [m10 m11 m12] [m20 m21 m22]]. simpl in *. subst.
  pose proof (sign_square m00). pose proof (sign_square m11). pose proof (sign_square m22).
  pose proof (sign_abs m00). pose proof (sign_abs m11). pose proof (sign_abs m22).
  pose proof (Rabs_pos m00). pose proof (Rabs_pos m11). pose proof (Rabs_pos m22).
  unfold Rotation.is_svd, Spec.orthogonal, Spec.identity, Rotation.diag, np.matmul,
    np.transpose, np.vec_dot, np.dot3, np.col0, np.col1, np.col2. cbn.
  repeat split; try done; f_equal; f_equal; nra.
Qed.

Lemma gesdd_signed_diagonal (m : mat3 R) :
  vy (row0 m) = 0 → vz (row0 m) = 0 → vx (row1 m) = 0 → vz (row1 m) = 0 →
  vx (row2 m) = 0 → vy (row2 m) = 0 →
  gesdd_signed m
  = Some (Rotation.diag (V3 (sign (vx (row0 m))) (sign (vy (row1 m))) (sign (vz (row2 m)))),
          V3 (Rabs (vx (row0 m))) (Rabs (vy (row1 m))) (Rabs (vz (row2 m))), Spec.identity).
Proof.
  intros H01 H02 H10 H12 H20 H21. unfold gesdd_signed.
  by rewrite !is_zero_0.
Qed.

(** [align] on the example: the Procrustes problem is solved. *)
Lemma example_rotation : ∃ rot, Summary.rotation fragment unit = inr rot.
Proof.
  unfold Summary.rotation.
  rewrite scaling_factor_matched by reflexivity.
  cbn [mbind sum_bind].
  match goal with |- context [np.vmap (f_mul ?m) ?d] =>
    generalize (np.vmap (f_mul m) d) end.
  intros [ax ay az].
  unfold scipy.orthogonal_procrustes.
  change (np.all_finite _) with true at 1. cbn [negb].
  change (np.all_finite _) with true at 1. cbn [negb].
  change (bool_decide _) with true at 1. cbn [negb].
  unfold scipy.svd.
  change (np.mat_finite _) with true at 1. cbv iota.
  change (gesdd ?m) with (gesdd_signed m).
  rewrite gesdd_signed_diagonal.
  - cbn [mbind sum_bind mret sum_ret]. eauto.
  - vm_compute. lra.
  - vm_compute. lra.
  - vm_compute. lra.
  - vm_compute. lra.
  - vm_compute. lra.
  - vm_compute. lra.
Qed.
End RealExampleFacts.

(** ** The theorems on the examples *)

Section OnExamples.
Import Example.

Ltac members H :=
  repeat (apply elem_of_cons in H as [H|H]; [try subst|]);
  try (by apply elem_of_nil in H).

(** C2 on an example: a unit without connection point, a fragment of
    two points. *)
Lemma align_cardinality_mismatch_witness :
  ∃ msg, outcome (Autografs.align 0 1 (pair_world slot0 bare)) = inl (ValueError msg).
Proof.
  apply (align_cardinality_mismatch (pair_world slot0 bare) 0 1 slot0 bare);
    [reflexivity|reflexivity|discriminate|left; reflexivity].
Defined.


(** The two examples take the two ways: one dummy and one point can be
    broadcast, two dummies and three points cannot. *)
Lemma degenerate_examples_broadcast :
  broadcast (length (Spec.connection_points single)) (length (Atoms.atom_list point_fragment))
  ∧ ¬ broadcast (length (Spec.connection_points (linear (i 2))))
        (length (Atoms.atom_list Example2.line_fragment)).
Proof.
  split; [by left|]. vm_compute. intros [|[|]]; discriminate.
Qed.


(** C4 on an example: the first slot of the chain and a linear unit. *)
Lemma align_scale_witness :
  (2, V3 (i 4) zero zero).2 = Spec.scale slot0 (linear (i 2)).
Proof.
  apply (align_scale (pair_world slot0 (linear (i 2))) 0 1 slot0 (linear (i 2))
           (2, V3 (i 4) zero zero));
    [reflexivity|reflexivity|reflexivity|vm_compute; reflexivity].
Defined.

(** C6 on an example. *)
Lemma tag_nearest_witness :
  ∃ sa', Autografs.tag 1 0 (pair_world slot0 (linear (i 2)))
         = (inr tt, mkWorld (<[1:=sa']> [slot0; linear (i 2)]) rng0)
    ∧ length (Atoms.atom_list sa') = length (Atoms.atom_list (linear (i 2)))
    ∧ ∀ k x, Atoms.atom_list (linear (i 2)) !! k = Some x →
        ∃ x', Atoms.atom_list sa' !! k = Some x' ∧ tagged slot0 x x'.
Proof.
  apply (tag_nearest (pair_world slot0 (linear (i 2))) 1 0 (linear (i 2)) slot0);
    [reflexivity|reflexivity|discriminate|discriminate|].
  intros x Hx _ p Hp. members Hx; members Hp; vm_compute; reflexivity.
Defined.

(** C5 on an example: a net with a slot of three points, a pool of
    linear units. *)
Lemma make_unfillable_slot_witness :
  raised (outcome (Autografs.make self "triangle" (Some ["A"; "B"]) None world0)) ∧
  ((∀ n, n ∈ ["A"; "B"] → is_Some (resolve self (heap triangle_built.2) n)) →
     outcome (Autografs.make self "triangle" (Some ["A"; "B"]) None world0) = inl empty_choice).
Proof.
  apply (make_unfillable_slot self "triangle" ["A"; "B"] world0 4 triangle_topology
           triangle_built.2 0 "triangle");
    [reflexivity|reflexivity|by left|].
  intros name u Hname. members Hname; vm_compute; intros [= <-]; discriminate.
Defined.

Lemma assignment_stored : units_stored assignment (heap chain_built.2).
Proof. intros idx sbu Hin. members Hin; injection Hin as -> ->; vm_compute; eauto. Qed.

(** C7 on an example: the chain of three slots. *)
Lemma make_complete_witness :
  dict.keys (Framework.fragments chain_framework) = assignment.*1 ∧
  ∀ idx sbu, (idx, sbu) ∈ assignment →
    ∃ fr sa sa', dict.get (Framework.fragments chain_framework) idx = Some fr ∧
      heap chain_built.2 !! SBU.atoms sbu = Some sa ∧
      heap chain_made.2 !! Framework.sbu fr = Some sa' ∧
      Atoms.symbols sa' = Atoms.symbols sa ∧
      length (Atoms.atom_list sa') = length (Atoms.atom_list sa).
Proof.
  apply (make_complete self "chain" None (Some assignment) world0 chain_topology
           (Framework.set_topology Framework.new 0) assignment chain_built.2
           chain_framework chain_made.2);
    [vm_compute; reflexivity| |apply assignment_stored|vm_compute; reflexivity].
  apply (bool_decide_unpack (NoDup (assignment.*1))). vm_compute. exact I.
Defined.

(** C8 on an example. *)
Lemma scale_accumulated_witness :
  chain_scale = foldl Autografs.iadd (inl f_zero) (slot_scale chain_built.2 chain_topology <$> assignment)
  ∧ Forall (slot_aligned chain_built.2 chain_topology) assignment
  ∧ (ExactAdd spec_float → ∀ d', d' ≡ₚ assignment →
       foldl Autografs.iadd (inl f_zero) (slot_scale chain_built.2 chain_topology <$> d')
       = foldl Autografs.iadd (inl f_zero) (slot_scale chain_built.2 chain_topology <$> assignment)).
Proof.
  apply (scale_accumulated self "chain" None (Some assignment) world0 chain_topology
           (Framework.set_topology Framework.new 0) assignment chain_built.2
           chain_framework chain_scale chain_aligned.2);
    [vm_compute; reflexivity|apply assignment_stored|vm_compute; reflexivity].
Defined.

(** C8, as it is stated, fails on binary64: the three slots of the
    chain, filled in one order and in the opposite order, give [refine]
    two different scales (0.6000000000000001 and 0.6 on the first
    axis). *)
Lemma scale_depends_on_order :
  assignment_reversed ≡ₚ assignment ∧
  match outcome (Autografs.make_aligned self "chain" None (Some assignment) world0),
        outcome (Autografs.make_aligned self "chain" None (Some assignment_reversed) world0) with
  | inr r1, inr r2 =>
      r1.2 = inr (V3 (S754_finite false 5404319552844596 (-53)) zero zero)
      ∧ r2.2 = inr (V3 (B64.dec 6 1) zero zero) ∧ r1.2 ≠ r2.2
  | _, _ => False
  end.
Proof.
  split; [symmetry; apply (Permutation_rev assignment)|].
  vm_compute. repeat split; discriminate.
Qed.

(** C9 on an example. *)
Lemma inputs_unchanged_witness :
  (∀ l a, heap world0 !! l = Some a ∨ heap chain_built.2 !! l = Some a →
     final_heap (Autografs.make self "chain" (Some ["A"; "B"]) None world0) !! l = Some a)
  ∧ (∀ (w' : world spec_float) fragment sbu l a, heap w' !! l = Some a →
       final_heap (Autografs.align fragment sbu w') !! l = Some a).
Proof.
  apply (inputs_unchanged self "chain" (Some ["A"; "B"]) None world0 0 chain_topology
           chain_built.2); reflexivity.
Defined.

(** C1. The code at the input where it breaks the claim: the octahedral
    fragment, six points none of which is at the centroid, and the unit
    whose six dummies are its mirror image. [align] returns, and the
    matrix it has computed and applied to every atom of the centred unit
    is the reflection in the plane of the first two axes: orthogonal, of
    determinant -1 and not 1. The docstring of [align] has the unit
    "rotated on top of the fragment", and the comment on the call of
    scipy is "getting the rotation matrix". *)
Theorem align_reflection :
  Summary.rotation octahedron mirrored = inr reflection
  ∧ Spec.orthogonal reflection
  ∧ Spec.det reflection = SFopp f_one
  ∧ Spec.det reflection ≠ f_one
  ∧ ∃ r sa', outcome (Autografs.align 0 1 (pair_world octahedron mirrored)) = inr r
      ∧ final_heap (Autografs.align 0 1 (pair_world octahedron mirrored)) !! r.1 = Some sa'
      ∧ Atoms.positions sa' = np.dot (Atoms.positions (Summary.centre mirrored)) reflection.
Proof.
  split; [vm_compute; reflexivity|]. split; [vm_compute; reflexivity|].
  split; [vm_compute; reflexivity|]. split; [vm_compute; discriminate|].
  eexists _, _. vm_compute. repeat split; reflexivity.
Qed.
End OnExamples.

Section OnRealExample.
Import RealExample.

(** The matrix of [align] on an example in real arithmetic. *)
Lemma align_rotation_orthogonal_witness :
  ∃ rot sa', Summary.rotation fragment unit = inr rot ∧
    final_heap (Autografs.align 0 1 world0) !! (2, Spec.scale fragment unit).1 = Some sa' ∧
    Atoms.positions sa' = np.dot (Atoms.positions (Summary.centre unit)) rot ∧
    Spec.orthogonal rot ∧ (Spec.det rot = 1 ∨ Spec.det rot = -1)%R.
Proof.
  apply (align_rotation_orthogonal world0 0 1 fragment unit (2, Spec.scale fragment unit));
    [reflexivity|reflexivity|].
  destruct example_rotation as [rot Hrot].
  apply (align_returns world0 0 1 fragment unit rot);
    [reflexivity|reflexivity|reflexivity|reflexivity|discriminate|exact Hrot].
Defined.
End OnRealExample.

(** ** More on [tag] *)

Section TagFacts.
Context {F : Type} `{FloatOps F}.
Implicit Types (a fa sa : Atoms.t F) (x y : Atom.t F) (rows : list nat).

Lemma tag_row_retag fa a i :
  Summary.tag_row fa a i
  = match Atoms.atom_list a !! i with
    | None => (inl (IndexError "index out of range"), a)
    | Some x =>
        match retag fa x with
        | inl e => (inl e, a)
        | inr x' => (inr tt, Atoms.mk (<[i:=x']> (Atoms.atom_list a)) (Atoms.info a))
        end
    end.
Proof.
  unfold Summary.tag_row, retag.
  destruct (Atoms.atom_list a !! i) as [x|] eqn:Hi; [|done].
  case_bool_decide.
  - rewrite list_insert_id by done. by destruct a.
  - destruct (np.argmin _) as [e|fi]; [done|].
    destruct (Atoms.atom_list fa !! fi) as [y|]; [|done].
    unfold ase.with_tag. do 2 f_equal.
    apply list_eq. intros k. destruct (decide (i = k)) as [<-|Hne].
    + rewrite list_lookup_alter_eq, Hi.
      by rewrite list_lookup_insert_eq by (by eapply lookup_lt_Some).
    + by rewrite list_lookup_alter_ne, list_lookup_insert_ne.
Qed.

Lemma retag_symbol fa x x' : retag fa x = inr x' → Atom.symbol x' = Atom.symbol x.
Proof.
  unfold retag. case_bool_decide; [by intros [= <-]|].
  destruct (np.argmin _); [done|]. destruct (_ !! _); [|done]. by intros [= <-].
Qed.

Lemma retag_position fa x x' : retag fa x = inr x' → Atom.position x' = Atom.position x.
Proof.
  unfold retag. case_bool_decide; [by intros [= <-]|].
  destruct (np.argmin _); [done|]. destruct (_ !! _); [|done]. by intros [= <-].
Qed.

(** An atom that went through the loop goes through it unchanged. *)
Lemma retag_fixed fa x x' : retag fa x = inr x' → retag fa x' = inr x'.
Proof.
  intros Hx. pose proof (retag_symbol _ _ _ Hx) as Hs.
  pose proof (retag_position _ _ _ Hx) as Hp. revert Hx.
  unfold retag. rewrite Hs, Hp. case_bool_decide; [by intros [= <-]|].
  destruct (np.argmin _); [done|]. destruct (_ !! _); [|done].
  intros [= <-]. done.
Qed.

Lemma retag_tag fa x x' :
  retag fa x = inr x' →
  if decide (Atom.symbol x = "X") then Atom.tag x' ∈ Atoms.tags fa
  else Atom.tag x' = Atom.tag x.
Proof.
  unfold retag. destruct (decide (Atom.symbol x = "X")) as [HX|HX].
  - rewrite bool_decide_false by (by intros ?).
    destruct (np.argmin _) as [|fi]; [done|].
    destruct (Atoms.atom_list fa !! fi) as [y|] eqn:Hy; [|done].
    intros [= <-]. simpl. unfold Atoms.tags.
    apply list_elem_of_fmap. exists y. split; [done|]. by eapply list_elem_of_lookup_2.
  - rewrite bool_decide_true by done. by intros [= <-].
Qed.

(** The rows the loop of [tag] went through are rows of the unit. *)
Lemma tag_rows_valid fa a rows a' :
  Summary.tag_rows fa a rows = (inr tt, a') →
  ∀ i, i ∈ rows → i < length (Atoms.atom_list a).
Proof.
  revert a. induction rows as [|k rows IH]; intros a; simpl.
  - intros _ i Hi. by apply elem_of_nil in Hi.
  - rewrite tag_row_retag.
    destruct (Atoms.atom_list a !! k) as [xk|] eqn:Hk; [|done].
    destruct (retag fa xk) as [e|xk']; [done|].
    intros Hrows i [->|Hi]%elem_of_cons; [by eapply lookup_lt_Some|].
    pose proof (IH _ Hrows i Hi) as Hlt. simpl in Hlt.
    by rewrite length_insert in Hlt.
Qed.

(** The loop of [tag] on the value of the unit, row by row. *)
Lemma tag_rows_retag fa a rows a' :
  Summary.tag_rows fa a rows = (inr tt, a') →
  Atoms.info a' = Atoms.info a ∧
  length (Atoms.atom_list a') = length (Atoms.atom_list a) ∧
  ∀ i x, Atoms.atom_list a !! i = Some x →
    ∃ x', Atoms.atom_list a' !! i = Some x' ∧
      if decide (i ∈ rows) then retag fa x = inr x' else x' = x.
Proof.
  revert a. induction rows as [|i rows IH]; intros a; simpl.
  - intros [= <-]. repeat split; [done..|]. intros i x Hi. exists x.
    split; [done|]. done.
  - rewrite tag_row_retag.
    destruct (Atoms.atom_list a !! i) as [xi|] eqn:Hi; [|done].
    destruct (retag fa xi) as [e|xi'] eqn:Hxi; [done|].
    intros Hrows. apply IH in Hrows as (Hinfo & Hlen & Hat). simpl in *.
    rewrite length_insert in Hlen. repeat split; [done..|].
    intros k x Hk. destruct (decide (k = i)) as [->|Hne].
    + destruct (Hat i xi') as (x' & Hx' & Hcase).
      { apply list_lookup_insert_eq. by eapply lookup_lt_Some. }
      exists x'. split; [done|]. rewrite decide_True by (by left).
      assert (x = xi) as -> by congruence.
      destruct (decide (i ∈ rows)); [|by subst].
      pose proof (retag_fixed _ _ _ Hxi) as Hfix. congruence.
    + destruct (Hat k x) as (x' & Hx' & Hcase).
      { by rewrite list_lookup_insert_ne. }
      exists x'. split; [done|].
      destruct (decide (k ∈ rows)) as [Hin|Hin].
      * rewrite decide_True by (by right). done.
      * rewrite decide_False; [done|]. by intros [->|?]%elem_of_cons.
Qed.

Lemma tag_rows_fixed fa a rows :
  (∀ i, i ∈ rows → ∃ x, Atoms.atom_list a !! i = Some x ∧ retag fa x = inr x) →
  Summary.tag_rows fa a rows = (inr tt, a).
Proof.
  induction rows as [|i rows IH]; intros Hrows; simpl; [done|].
  rewrite tag_row_retag.
  destruct (Hrows i) as (x & Hi & Hx); [by left|]. rewrite Hi, Hx.
  rewrite list_insert_id by done.
  replace (Atoms.mk (Atoms.atom_list a) (Atoms.info a)) with a by (by destruct a).
  apply IH. intros k Hk. apply Hrows. by right.
Qed.

Lemma tag_rows_again fa a rows a' :
  Summary.tag_rows fa a rows = (inr tt, a') →
  Summary.tag_rows fa a' rows = (inr tt, a').
Proof.
  intros Hrows. apply tag_rows_fixed. intros i Hi.
  destruct (lookup_lt_is_Some_2 (Atoms.atom_list a) i) as [x Hx].
  { by eapply tag_rows_valid. }
  apply tag_rows_retag in Hrows as (_ & _ & Hat).
  destruct (Hat i x Hx) as (x' & Hx' & Hcase).
  rewrite decide_True in Hcase by done.
  exists x'. split; [done|]. by eapply retag_fixed.
Qed.

(** The loop stops at the first dummy when the fragment has no point. *)
Lemma tag_rows_empty_fragment fa a rows :
  Atoms.atom_list fa = [] →
  (∀ i, i ∈ rows → i < length (Atoms.atom_list a)) →
  (∃ i x, i ∈ rows ∧ Atoms.atom_list a !! i = Some x ∧ Atom.symbol x = "X") →
  Summary.tag_rows fa a rows = (inl empty_argmin, a).
Proof.
  intros Hfa. induction rows as [|k rows IH]; intros Hvalid (i & x & Hi & Hx & HX).
  { by apply elem_of_nil in Hi. }
  simpl. rewrite tag_row_retag.
  destruct (lookup_lt_is_Some_2 (Atoms.atom_list a) k) as [xk Hk].
  { apply Hvalid. by left. }
  rewrite Hk. unfold retag. case_bool_decide as Hsym.
  - rewrite list_insert_id by done.
    replace (Atoms.mk (Atoms.atom_list a) (Atoms.info a)) with a by (by destruct a).
    apply IH.
    + intros j Hj. apply Hvalid. by right.
    + apply elem_of_cons in Hi as [->|Hi]; [congruence|]. eauto.
  - unfold Atoms.positions. rewrite Hfa. done.
Qed.
End TagFacts.

Section TagTheorems.
Context {F : Type} `{FloatOps F}.
Implicit Types (a fa sa : Atoms.t F) (w : world F).

Lemma tag_loop_without_dummies sbu fragment rows w sa :
  heap w !! sbu = Some sa →
  (∀ i, i ∈ rows → ∃ x, Atoms.atom_list sa !! i = Some x ∧ Atom.symbol x ≠ "X") →
  Autografs.tag_loop sbu fragment rows w = (inr tt, w).
Proof.
  intros Hs. induction rows as [|i rows IH]; intros Hrows; simpl; [done|].
  destruct (Hrows i) as (x & Hi & HX); [by left|].
  assert (Hatom : Autografs.tag_atom sbu fragment i w = (inr tt, w)).
  { unfold Autografs.tag_atom.
    assert (Hget : ase.getitem sbu i w = (inr x, w)).
    { destruct w as [l r]. pose proof (getitem_ext [] l r sbu sa i Hs) as Hrun.
      simpl in *. by rewrite Hrun, Hi. }
    rewrite (bind_run _ _ _ _ _ Hget). by rewrite bool_decide_true. }
  rewrite (bind_run _ _ _ _ _ Hatom). apply IH. intros k Hk. apply Hrows. by right.
Qed.

(** X1. [tag] on a unit without dummy does nothing: no tag is written
    and the fragment is not read, whatever it is. *)
Theorem tag_without_dummies w sbu fragment sa :
  heap w !! sbu = Some sa →
  Forall (λ x, Atom.symbol x ≠ "X") (Atoms.atom_list sa) →
  Autografs.tag sbu fragment w = (inr tt, w).
Proof.
  intros Hs Hall. unfold Autografs.tag.
  assert (Hlen : ase.len sbu w = (inr (length (Atoms.atom_list sa)), w)).
  { destruct w as [l r]. pose proof (len_ext [] l r sbu sa Hs) as Hrun. done. }
  rewrite (bind_run _ _ _ _ _ Hlen).
  apply (tag_loop_without_dummies _ _ _ _ sa Hs).
  intros i Hi. apply elem_of_seq in Hi as [_ Hi]. simpl in Hi.
  destruct (lookup_lt_is_Some_2 (Atoms.atom_list sa) i Hi) as [x Hx].
  exists x. split; [done|].
  rewrite Forall_forall in Hall. apply Hall. by eapply list_elem_of_lookup_2.
Qed.

(** X2. [tag] on a fragment without point raises the [ValueError] of
    [numpy.argmin] as soon as the unit has a dummy, and has written no
    tag by then. *)
Theorem tag_empty_fragment w sbu fragment sa fa :
  heap w !! sbu = Some sa → heap w !! fragment = Some fa →
  Atoms.atom_list fa = [] →
  Exists (λ x, Atom.symbol x = "X") (Atoms.atom_list sa) →
  Autografs.tag sbu fragment w = (inl empty_argmin, w).
Proof.
  intros Hs Hf Hfa Hex.
  assert (Hne : sbu ≠ fragment).
  { intros ->. assert (sa = fa) as -> by congruence.
    rewrite Hfa in Hex. by apply Exists_nil in Hex. }
  destruct w as [l r]. simpl in *.
  pose proof (tag_ext [] l r sbu fragment sa fa Hs Hf Hne) as Hrun. simpl in Hrun.
  rewrite Hrun, tag_rows_empty_fragment; [|done| |].
  - simpl. by rewrite list_insert_id.
  - intros i Hi. by apply elem_of_seq in Hi as [_ Hi].
  - apply Exists_exists in Hex as (x & Hx & HX).
    apply list_elem_of_lookup_1 in Hx as [i Hi]. exists i, x.
    split; [|done]. apply elem_of_seq. split; [lia|]. simpl.
    by eapply lookup_lt_Some.
Qed.

(** X3. [tag] twice is [tag] once: the second run finds every dummy
    with the tag it would give it, and an exception of the first run is
    the outcome. *)
Theorem tag_idempotent w sbu fragment sa fa :
  heap w !! sbu = Some sa → heap w !! fragment = Some fa → sbu ≠ fragment →
  (Autografs.tag sbu fragment ≫= λ _, Autografs.tag sbu fragment) w
  = Autografs.tag sbu fragment w.
Proof.
  intros Hs Hf Hne. destruct w as [l r]. simpl in *.
  pose proof (tag_ext [] l r sbu fragment sa fa Hs Hf Hne) as Hrun. simpl in Hrun.
  destruct (Summary.tag_rows fa sa (seq 0 (length (Atoms.atom_list sa))))
    as [[e|[]] sa'] eqn:Hrows; simpl in Hrun.
  { by rewrite (bind_raise _ _ _ _ _ Hrun). }
  rewrite (bind_run _ _ _ _ _ Hrun), Hrun.
  pose proof (tag_rows_retag _ _ _ _ Hrows) as (_ & Hlen & _).
  assert (Hs' : <[sbu:=sa']> l !! sbu = Some sa').
  { apply list_lookup_insert_eq. by eapply lookup_lt_Some. }
  assert (Hf' : <[sbu:=sa']> l !! fragment = Some fa).
  { by rewrite list_lookup_insert_ne. }
  pose proof (tag_ext [] (<[sbu:=sa']> l) r sbu fragment sa' fa Hs' Hf' Hne) as Hrun'.
  simpl in Hrun'. rewrite Hrun', Hlen, (tag_rows_again _ _ _ _ Hrows). simpl.
  by rewrite list_insert_insert_eq.
Qed.
End TagTheorems.

(** ** More on [align] *)

Section AlignFacts.
Context {F : Type} `{FloatOps F} `{Lapack F}.
Implicit Types (a fa sa : Atoms.t F) (w : world F).

Lemma align_objects_three fa sa :
  ∃ a b c, (Summary.align_objects fa sa).2 = [a; b; c].
Proof.
  unfold Summary.align_objects.
  destruct (Autografs.scaling_factor _ _ _); [by eexists _, _, _|].
  destruct (scipy.orthogonal_procrustes _ _); [by eexists _, _, _|].
  destruct (Summary.tag_rows _ _ _) as [[?|?] ?]; by eexists _, _, _.
Qed.

Lemma tags_centre a : Atoms.tags (Summary.centre a) = Atoms.tags a.
Proof.
  unfold Summary.centre. apply tags_with_positions.
  by rewrite length_sub_rows, length_positions.
Qed.

Lemma lookup_symbols a i x :
  Atoms.atom_list a !! i = Some x → Atoms.symbols a !! i = Some (Atom.symbol x).
Proof. intros Hi. unfold Atoms.symbols. by rewrite list_lookup_fmap, Hi. Qed.

Lemma lookup_tags a i x :
  Atoms.atom_list a !! i = Some x → Atoms.tags a !! i = Some (Atom.tag x).
Proof. intros Hi. unfold Atoms.tags. by rewrite list_lookup_fmap, Hi. Qed.

(** The unit [align] returns, atom by atom. *)
Lemma align_objects_atoms fa sa v :
  (Summary.align_objects fa sa).1 = inr v →
  ∃ sa' rest, (Summary.align_objects fa sa).2 = sa' :: rest ∧
    Atoms.info sa' = Atoms.info sa ∧
    Forall2 (aligned_atom fa) (Atoms.atom_list sa) (Atoms.atom_list sa').
Proof.
  unfold Summary.align_objects.
  destruct (Autografs.scaling_factor _ _ _) as [e|alpha]; [done|].
  destruct (scipy.orthogonal_procrustes _ _) as [e|Rs]; [done|].
  match goal with |- context [Summary.tag_rows ?f ?a ?r] =>
    set (fa2 := f); set (sa2 := a) end.
  destruct (Summary.tag_rows fa2 sa2 _) as [[e|[]] sa3] eqn:Hrows; simpl; [done|].
  intros _. exists sa3. eexists. split; [done|].
  assert (Hlen2 : length (Atoms.atom_list sa2) = length (Atoms.atom_list sa)).
  { unfold sa2. rewrite length_with_positions, length_centre; [done|].
    by rewrite length_dot, length_positions. }
  assert (Hsym2 : Atoms.symbols sa2 = Atoms.symbols sa).
  { unfold sa2. rewrite symbols_with_positions, symbols_centre; [done|].
    by rewrite length_dot, length_positions. }
  assert (Htag2 : Atoms.tags sa2 = Atoms.tags sa).
  { unfold sa2. rewrite tags_with_positions, tags_centre; [done|].
    by rewrite length_dot, length_positions. }
  assert (Htagf : Atoms.tags fa2 = Atoms.tags fa).
  { unfold fa2. rewrite tags_with_positions, tags_centre; [done|].
    by rewrite length_dot, length_positions. }
  apply tag_rows_retag in Hrows as (Hinfo & Hlen & Hat). split.
  { rewrite Hinfo. done. }
  apply Forall2_same_length_lookup_2; [congruence|].
  intros i x x' Hx Hx'.
  destruct (lookup_lt_is_Some_2 (Atoms.atom_list sa2) i) as [x2 Hx2].
  { rewrite Hlen2. by eapply lookup_lt_Some. }
  destruct (Hat i x2 Hx2) as (x3 & Hx3 & Hcase).
  assert (x3 = x') as -> by congruence.
  rewrite decide_True in Hcase.
  2:{ apply elem_of_seq. split; [lia|]. simpl. by eapply lookup_lt_Some. }
  assert (Hs : Atom.symbol x2 = Atom.symbol x).
  { pose proof (lookup_symbols _ _ _ Hx2) as H2. rewrite Hsym2 in H2.
    rewrite (lookup_symbols _ _ _ Hx) in H2. congruence. }
  assert (Ht : Atom.tag x2 = Atom.tag x).
  { pose proof (lookup_tags _ _ _ Hx2) as H2. rewrite Htag2 in H2.
    rewrite (lookup_tags _ _ _ Hx) in H2. congruence. }
  split.
  - apply retag_symbol in Hcase. congruence.
  - apply retag_tag in Hcase. rewrite Hs, Htagf, Ht in Hcase. done.
Qed.

Lemma align_objects_scale fa sa v :
  (Summary.align_objects fa sa).1 = inr v →
  Autografs.scaling_factor (Atoms.positions (Summary.dummy_atoms (Summary.centre sa)))
    (Atoms.positions (Summary.centre fa)) (np.mean_axis0 (Atoms.positions fa)) = inr v.
Proof.
  unfold Summary.align_objects.
  destruct (Autografs.scaling_factor _ _ _) as [e|alpha]; [done|].
  destruct (scipy.orthogonal_procrustes _ _) as [e|Rs]; [done|].
  destruct (Summary.tag_rows _ _ _) as [[e|[]] sa3]; [done|]. done.
Qed.

(** X4. [align] creates three objects whatever its outcome: the copy of
    the unit, the copy of the fragment and the dummies; it makes no
    random draw, and what it returns is the first of the three, an
    object that was not in the store. *)
Theorem align_creates_objects w fragment sbu fa sa :
  heap w !! fragment = Some fa → heap w !! sbu = Some sa →
  ∃ a b c, final_heap (Autografs.align fragment sbu w) = heap w ++ [a; b; c] ∧
    rand (Autografs.align fragment sbu w).2 = rand w ∧
    ∀ r, outcome (Autografs.align fragment sbu w) = inr r →
      r.1 = length (heap w) ∧ heap w !! r.1 = None.
Proof.
  intros Hf Hs. rewrite (align_run w fragment sbu fa sa Hf Hs).
  destruct (align_objects_three fa sa) as (a & b & c & Hobjs).
  exists a, b, c. unfold final_heap, outcome. simpl. rewrite Hobjs.
  split; [done|]. split; [done|].
  destruct (Summary.align_objects fa sa).1; [done|].
  intros r [= <-]. simpl. split; [done|]. by apply lookup_ge_None_2.
Qed.

(** X5. The unit [align] returns has the atoms of the unit it was given,
    one for one and in order: the same symbols and the same [info]; its
    dummies carry tags of the fragment, its other atoms the tags they
    had. *)
Theorem align_keeps_atoms w fragment sbu fa sa r :
  heap w !! fragment = Some fa → heap w !! sbu = Some sa →
  outcome (Autografs.align fragment sbu w) = inr r →
  ∃ sa', final_heap (Autografs.align fragment sbu w) !! r.1 = Some sa' ∧
    Atoms.info sa' = Atoms.info sa ∧
    Forall2 (aligned_atom fa) (Atoms.atom_list sa) (Atoms.atom_list sa').
Proof.
  intros Hf Hs. rewrite (align_run w fragment sbu fa sa Hf Hs).
  unfold final_heap, outcome. simpl.
  destruct (Summary.align_objects fa sa).1 as [e|v] eqn:Hv; [done|].
  intros [= <-]. simpl.
  destruct (align_objects_atoms fa sa v Hv) as (sa' & rest & Hobjs & Hinfo & Hatoms).
  exists sa'. split; [|done].
  rewrite Hobjs, lookup_app_r by done. by rewrite Nat.sub_diag.
Qed.

(** X6. For a fragment whose centroid is nearer to the origin than 1e-6
    the scale [align] returns is isotropic: its three components are
    the same number. *)
Theorem align_scale_isotropic w fragment sbu fa sa r :
  heap w !! fragment = Some fa → heap w !! sbu = Some sa →
  f_lt (np.norm (Spec.centroid (Atoms.positions fa))) f_1em6 = true →
  outcome (Autografs.align fragment sbu w) = inr r →
  vx r.2 = vy r.2 ∧ vy r.2 = vz r.2.
Proof.
  intros Hf Hs Hnear. rewrite (align_run w fragment sbu fa sa Hf Hs).
  unfold outcome. simpl.
  destruct (Summary.align_objects fa sa).1 as [e|v] eqn:Hv; [done|].
  intros [= <-]. simpl. apply align_objects_scale in Hv. revert Hv.
  unfold Autografs.scaling_factor. unfold Spec.centroid in Hnear. rewrite Hnear.
  destruct (np.divide _ _) as [e|ratio]; [done|]. simpl.
  intros [= <-]. done.
Qed.
End AlignFacts.

(** ** Coordinates that are not finite *)

Section NonFiniteInputs.
Context {F : Type} `{NonFinite F} `{Lapack F}.
Hypothesis sub_nonfinite_r : ∀ x y : F, f_isfinite y = false → f_isfinite (f_sub x y) = false.
Implicit Types (a fa sa : Atoms.t F) (p q m : vec3 F) (ps : list (vec3 F)).

(** One coordinate of the vectors, whichever it is. *)
Section Coordinate.
Variable pr : vec3 F → F.
Hypothesis pr_vzip : ∀ f u v, pr (np.vzip f u v) = f (pr u) (pr v).
Hypothesis pr_vmap : ∀ f v, pr (np.vmap f v) = f (pr v).

Lemma pr_foldl_add p ps :
  pr (foldl (np.vzip f_add) p ps) = foldl f_add (pr p) (pr <$> ps).
Proof.
  revert p. induction ps as [|q ps IH]; intros p; simpl; [done|].
  by rewrite IH, pr_vzip.
Qed.

Lemma mean_axis0_nonfinite ps q :
  q ∈ ps → f_isfinite (pr q) = false → f_isfinite (pr (np.mean_axis0 ps)) = false.
Proof.
  intros Hq Hinf. unfold np.mean_axis0. rewrite pr_vmap. apply div_nonfinite.
  destruct ps as [|p ps]; [by apply elem_of_nil in Hq|]. simpl.
  rewrite pr_foldl_add. apply elem_of_cons in Hq as [->|Hq].
  - by apply foldl_add_nonfinite_acc.
  - apply (foldl_add_nonfinite _ _ (pr q)); [|done].
    apply list_elem_of_fmap. eauto.
Qed.

Lemma sub_rows_nonfinite ps m q :
  f_isfinite (pr m) = false → q ∈ np.sub_rows ps m → f_isfinite (pr q) = false.
Proof.
  intros Hm Hq. unfold np.sub_rows in Hq.
  apply list_elem_of_fmap in Hq as (p & -> & _).
  rewrite pr_vzip. by apply sub_nonfinite_r.
Qed.

Lemma centred_nonfinite ps ps' q q' :
  q ∈ ps → f_isfinite (pr q) = false →
  q' ∈ np.sub_rows ps' (np.mean_axis0 ps) → f_isfinite (pr q') = false.
Proof.
  intros Hq Hinf. apply sub_rows_nonfinite. by eapply mean_axis0_nonfinite.
Qed.
End Coordinate.

Lemma vall_false (g : F → bool) p :
  np.vall g p = false → g (vx p) = false ∨ g (vy p) = false ∨ g (vz p) = false.
Proof.
  unfold np.vall. destruct (g (vx p)), (g (vy p)), (g (vz p)); simpl; auto.
Qed.

Lemma vall_false_vx (g : F → bool) p : g (vx p) = false → np.vall g p = false.
Proof. unfold np.vall. by intros ->. Qed.

Lemma vall_false_vy (g : F → bool) p : g (vy p) = false → np.vall g p = false.
Proof. unfold np.vall. intros ->. by destruct (g (vx p)). Qed.

Lemma vall_false_vz (g : F → bool) p : g (vz p) = false → np.vall g p = false.
Proof. unfold np.vall. intros ->. by destruct (g (vx p)), (g (vy p)). Qed.

(** An infinity or a NaN anywhere in an array is in every row of the
    array, and of a part of its rows, once the mean of the rows is
    taken off. *)
Lemma centred_rows_nonfinite ps ps' q q' :
  q ∈ ps → np.vall f_isfinite q = false →
  q' ∈ np.sub_rows ps' (np.mean_axis0 ps) → np.vall f_isfinite q' = false.
Proof.
  intros Hq Hinf Hq'. apply vall_false in Hinf as [Hinf|[Hinf|Hinf]].
  - apply vall_false_vx. by apply (centred_nonfinite vx) with ps ps' q.
  - apply vall_false_vy. by apply (centred_nonfinite vy) with ps ps' q.
  - apply vall_false_vz. by apply (centred_nonfinite vz) with ps ps' q.
Qed.

Lemma all_finite_false ps q :
  q ∈ ps → np.vall f_isfinite q = false → np.all_finite ps = false.
Proof.
  intros Hq Hinf. unfold np.all_finite. apply not_true_is_false. intros Hall.
  rewrite forallb_forall in Hall. rewrite Hall in Hinf; [done|].
  by apply list_elem_of_In.
Qed.

Lemma dot3_nonfinite_l p v :
  np.vall f_isfinite p = false → f_isfinite (np.dot3 p v) = false.
Proof.
  intros Hinf. unfold np.dot3. apply vall_false in Hinf as [Hinf|[Hinf|Hinf]].
  - apply add_nonfinite_l, add_nonfinite_l. by apply mul_nonfinite_l.
  - apply add_nonfinite_l, add_nonfinite_r. by apply mul_nonfinite_l.
  - apply add_nonfinite_r. by apply mul_nonfinite_l.
Qed.

Lemma dot_nonfinite ps (mat : mat3 F) q :
  q ∈ ps → np.vall f_isfinite q = false → np.all_finite (np.dot ps mat) = false.
Proof.
  intros Hq Hinf. apply (all_finite_false _ (np.vec_dot q mat)).
  - unfold np.dot. apply list_elem_of_fmap. eauto.
  - apply vall_false_vx. simpl. by apply dot3_nonfinite_l.
Qed.

Lemma orthogonal_procrustes_nonfinite_l (xs ys : list (vec3 F)) :
  np.all_finite xs = false → scipy.orthogonal_procrustes xs ys = inl scipy.nonfinite.
Proof. intros Hxs. unfold scipy.orthogonal_procrustes. by rewrite Hxs. Qed.

Lemma align_objects_nonfinite fa sa :
  Exists (λ y, np.vall f_isfinite (Atom.position y) = false) (Atoms.atom_list fa)
  ∨ (Exists (λ y, np.vall f_isfinite (Atom.position y) = false) (Atoms.atom_list sa)
     ∧ Exists (λ x, Atom.symbol x = "X") (Atoms.atom_list sa)) →
  ∃ msg, (Summary.align_objects fa sa).1 = inl (ValueError msg).
Proof.
  intros Hinf. unfold Summary.align_objects.
  destruct (Autografs.scaling_factor _ _ _) as [e|alpha] eqn:Hscale; simpl.
  { apply scaling_factor_error in Hscale. subst e. eauto. }
  destruct Hinf as [Hf|[Hs HX]].
  - apply Exists_exists in Hf as (y & Hy & Hinf).
    rewrite orthogonal_procrustes_nonfinite; [simpl; unfold scipy.nonfinite; eauto|].
    rewrite positions_with_positions by (by rewrite length_dot, length_positions).
    rewrite positions_centre.
    apply (dot_nonfinite _ _ (np.vzip f_sub (Atom.position y)
                                (np.mean_axis0 (Atoms.positions fa)))).
    + unfold np.sub_rows, Atoms.positions. rewrite <- list_fmap_compose.
      apply list_elem_of_fmap. eauto.
    + apply (centred_rows_nonfinite (Atoms.positions fa) (Atoms.positions fa)
               (Atom.position y)); [|done|].
      * unfold Atoms.positions. apply list_elem_of_fmap. eauto.
      * unfold np.sub_rows, Atoms.positions. rewrite <- list_fmap_compose.
        apply list_elem_of_fmap. eauto.
  - apply Exists_exists in Hs as (y & Hy & Hinf).
    apply Exists_exists in HX as (x & Hx & HX).
    rewrite orthogonal_procrustes_nonfinite_l; [simpl; unfold scipy.nonfinite; eauto|].
    rewrite positions_dummies_centre.
    assert (Hin : np.vzip f_sub (Atom.position x) (np.mean_axis0 (Atoms.positions sa))
                  ∈ np.sub_rows (Atom.position <$> Spec.connection_points sa)
                      (np.mean_axis0 (Atoms.positions sa))).
    { unfold np.sub_rows. rewrite <- list_fmap_compose.
      apply list_elem_of_fmap. exists x. split; [done|].
      unfold Spec.connection_points. by apply list_elem_of_filter. }
    apply (all_finite_false _ _ Hin).
    apply (centred_rows_nonfinite (Atoms.positions sa)
             (Atom.position <$> Spec.connection_points sa) (Atom.position y)); [|done|done].
    unfold Atoms.positions. apply list_elem_of_fmap. eauto.
Qed.
End NonFiniteInputs.

Lemma SFsub_nonfinite_r (x y : spec_float) :
  f_isfinite y = false → f_isfinite (f_sub x y) = false.
Proof. destruct x as [[]|[]| |], y as [[]|[]| |]; simpl; done. Qed.

(** X7. On binary64, [align] raises a [ValueError] when a coordinate of
    the fragment is an infinity or a NaN, and when a coordinate of any
    atom of a unit with a dummy is: the centroid and with it every
    centred row is not finite, and scipy refuses the arrays. *)
Theorem align_rejects_nonfinite `{Lapack spec_float}
    (w : world spec_float) fragment sbu fa sa :
  heap w !! fragment = Some fa → heap w !! sbu = Some sa →
  Exists (λ y, np.vall f_isfinite (Atom.position y) = false) (Atoms.atom_list fa)
  ∨ (Exists (λ y, np.vall f_isfinite (Atom.position y) = false) (Atoms.atom_list sa)
     ∧ Exists (λ x, Atom.symbol x = "X") (Atoms.atom_list sa)) →
  ∃ msg, outcome (Autografs.align fragment sbu w) = inl (ValueError msg).
Proof.
  intros Hf Hs Hinf. rewrite (align_run w fragment sbu fa sa Hf Hs).
  destruct (align_objects_nonfinite SFsub_nonfinite_r fa sa Hinf)
    as [msg Hmsg].
  unfold outcome. simpl. rewrite Hmsg. eauto.
Qed.

(** ** More on [get_sbu_dict] *)

Section Assigning.
Context {F : Type} `{FloatOps F} `{Lapack F} `{Collaborators F}.
Implicit Types (h : list (Atoms.t F)) (w : world F) (pool : list string).

Lemma random_choice_run {A} (seq : list A) w x w' :
  random_choice seq w = (inr x, w') →
  x ∈ seq ∧ w' = mkWorld (heap w) (mkRandom (draws (rand w)) (S (cursor (rand w)))).
Proof.
  unfold random_choice. destruct (seq !! _) as [y|] eqn:Hy; [|done].
  intros [= <- <-]. split; [|done]. by eapply list_elem_of_lookup_2.
Qed.

Lemma resolve_name self h name u : resolve self h name = Some u → SBU.name u = name.
Proof.
  unfold resolve. destruct (Self.sbu self !! name) as [l|]; [|done]. simpl.
  destruct (h !! l); [|done]. simpl. by intros [= <-].
Qed.

Lemma resolved_units self h pool units u :
  Forall2 (λ name u, resolve self h name = Some u) pool units → u ∈ units →
  SBU.name u ∈ pool ∧ resolve self h (SBU.name u) = Some u.
Proof.
  induction 1 as [|name v pool units Hv _ IH]; intros Hu.
  { by apply elem_of_nil in Hu. }
  apply elem_of_cons in Hu as [->|Hu].
  - rewrite (resolve_name _ _ _ _ Hv). split; [by left|done].
  - destruct (IH Hu). split; [by right|done].
Qed.

Lemma get_sbu_dict_loop_fills self slots pool d0 w d w' :
  Autografs.get_sbu_dict_loop self slots (Some pool) d0 w = (inr d, w') →
  (∀ idx, is_Some (dict.get d0 idx) ∨ idx ∈ slots.*1 → is_Some (dict.get d idx)) ∧
  (∀ idx sbu, (idx, sbu) ∈ d →
     (idx, sbu) ∈ d0 ∨
     ((idx, SBU.shape sbu) ∈ slots ∧ SBU.name sbu ∈ pool ∧
      resolve self (heap w) (SBU.name sbu) = Some sbu)).
Proof.
  revert d0 w. induction slots as [|[i s] slots IH]; intros d0 w; simpl.
  { intros [= <- <-]. split; [|by left].
    intros idx [?|Hin]; [done|]. by apply elem_of_nil in Hin. }
  rewrite (bind_run _ _ _ pool w) by done.
  destruct (sbu_of_names_run self pool w) as (r & Hr & Hunits & _).
  destruct r as [e|units]; [by rewrite (bind_raise _ _ _ _ _ Hr)|].
  rewrite (bind_run _ _ _ _ _ Hr). specialize (Hunits units eq_refl).
  destruct (random_choice (Autografs.by_shape units s) w) as [[e|u] w2] eqn:Hchoice.
  { by rewrite (bind_raise _ _ _ _ _ Hchoice). }
  rewrite (bind_run _ _ _ _ _ Hchoice).
  apply random_choice_run in Hchoice as [Hu ->].
  apply list_elem_of_filter in Hu as [Hshape Hu].
  destruct (resolved_units _ _ _ _ _ Hunits Hu) as [Hname Hres].
  intros Hloop. apply IH in Hloop as [Hfilled Hfrom]. simpl in Hfrom. split.
  - intros idx Hidx. apply Hfilled. rewrite dict_get_set.
    destruct (decide (i = idx)) as [->|Hne]; [left; eauto|].
    destruct Hidx as [?|Hin]; [by left|right].
    apply elem_of_cons in Hin as [->|Hin]; done.
  - intros idx sbu Hin. destruct (Hfrom idx sbu Hin) as [Hset|(Hslot & Hpool & Hsbu)].
    + apply dict_set_elem_of in Hset as [[= -> ->]|Hd0]; [|by left].
      right. split; [|done]. rewrite Hshape. by left.
    + right. split; [by right|done].
Qed.

Lemma get_sbu_dict_loop_draws self slots names d0 w d w' :
  Autografs.get_sbu_dict_loop self slots names d0 w = (inr d, w') →
  w' = mkWorld (heap w) (mkRandom (draws (rand w)) (cursor (rand w) + length slots)).
Proof.
  revert d0 w. induction slots as [|[i s] slots IH]; intros d0 w; simpl.
  { intros [= <- <-]. destruct w as [h [dr c]]. simpl. by rewrite Nat.add_0_r. }
  destruct names as [pool|]; [|by unfold mbind, py_bind, raise].
  rewrite (bind_run _ _ _ pool w) by done.
  destruct (sbu_of_names_run self pool w) as (r & Hr & _ & _).
  destruct r as [e|units]; [by rewrite (bind_raise _ _ _ _ _ Hr)|].
  rewrite (bind_run _ _ _ _ _ Hr).
  destruct (random_choice (Autografs.by_shape units s) w) as [[e|u] w2] eqn:Hchoice.
  { by rewrite (bind_raise _ _ _ _ _ Hchoice). }
  rewrite (bind_run _ _ _ _ _ Hchoice).
  apply random_choice_run in Hchoice as [_ ->].
  intros Hloop. apply IH in Hloop as ->. simpl. do 2 f_equal. lia.
Qed.

Lemma sbu_of_names_unknown self pre name post w :
  (∀ n, n ∈ pre → is_Some (resolve self (heap w) n)) →
  Self.sbu self !! name = None →
  Autografs.sbu_of_names self (pre ++ name :: post) w = (inl (KeyError name), w).
Proof.
  intros Hpre Hname. induction pre as [|n pre IH]; simpl.
  { apply bind_raise. unfold getitem. by rewrite Hname. }
  destruct (Hpre n) as [u Hu]; [by left|]. unfold resolve in Hu.
  destruct (Self.sbu self !! n) as [l|] eqn:Hl; [|done]. simpl in Hu.
  destruct (heap w !! l) as [a|] eqn:Ha; [|done].
  rewrite (bind_run _ _ _ l w) by (unfold getitem; by rewrite Hl).
  rewrite (bind_run _ _ _ (SBU.mk n l (sbu_shape a)) w)
    by (unfold SBU.new; erewrite bind_run; [done|]; unfold deref; by rewrite Ha).
  apply bind_raise, IH. intros n' Hn'. apply Hpre. by right.
Qed.

(** X8. The slot assignment [get_sbu_dict] returns fills every slot of
    the topology, and fills it with a unit of the pool that has the
    shape of the slot: the unit the database holds under that name. *)
Theorem get_sbu_dict_fills self top pool w d w' :
  Autografs.get_sbu_dict self top (Some pool) w = (inr d, w') →
  (∀ idx shape, (idx, shape) ∈ Topology.shapes top → is_Some (dict.get d idx)) ∧
  (∀ idx sbu, (idx, sbu) ∈ d →
     (idx, SBU.shape sbu) ∈ Topology.shapes top ∧ SBU.name sbu ∈ pool ∧
     resolve self (heap w) (SBU.name sbu) = Some sbu).
Proof.
  unfold Autografs.get_sbu_dict. intros Hloop.
  apply get_sbu_dict_loop_fills in Hloop as [Hfilled Hfrom]. split.
  - intros idx shape Hin. apply Hfilled. right.
    apply list_elem_of_fmap. by exists (idx, shape).
  - intros idx sbu Hin. destruct (Hfrom idx sbu Hin) as [Hnil|?]; [|done].
    by apply elem_of_nil in Hnil.
Qed.

(** X9. [get_sbu_dict] reads the store and writes nothing to it; when it
    returns it has drawn one random number for every slot of the
    topology, no more. *)
Theorem get_sbu_dict_draws self top names w d w' :
  Autografs.get_sbu_dict self top names w = (inr d, w') →
  w' = mkWorld (heap w)
         (mkRandom (draws (rand w)) (cursor (rand w) + length (Topology.shapes top))).
Proof. apply get_sbu_dict_loop_draws. Qed.

(** X10. For a topology with a slot, a name of the pool that the
    database of units does not hold makes [get_sbu_dict] raise the
    [KeyError] of that name, the first of them, before any random
    draw. *)
Theorem get_sbu_dict_unknown_name self top pre name post w :
  Topology.shapes top ≠ [] →
  (∀ n, n ∈ pre → is_Some (resolve self (heap w) n)) →
  Self.sbu self !! name = None →
  Autografs.get_sbu_dict self top (Some (pre ++ name :: post)) w = (inl (KeyError name), w).
Proof.
  intros Hslots Hpre Hname. unfold Autografs.get_sbu_dict.
  destruct (Topology.shapes top) as [|[i s] slots]; [done|]. simpl.
  rewrite (bind_run _ _ _ (pre ++ name :: post) w) by done.
  apply bind_raise. by apply sbu_of_names_unknown.
Qed.
End Assigning.

(** ** More on [make] *)

Section Quiet.
Context {F : Type}.

Lemma draws_nothing_ret {A} (x : A) : draws_nothing (F:=F) (mret x).
Proof. done. Qed.

Lemma draws_nothing_raise {A} e : draws_nothing (F:=F) (A:=A) (raise e).
Proof. done. Qed.

Lemma draws_nothing_lift {A} (r : exn + A) : draws_nothing (F:=F) (lift r).
Proof. done. Qed.

Lemma draws_nothing_bind {A B} (m : Py F A) (k : A → Py F B) :
  draws_nothing m → (∀ x, draws_nothing (k x)) → draws_nothing (m ≫= k).
Proof.
  intros Hm Hk w. unfold mbind, py_bind. specialize (Hm w).
  destruct (m w) as [[e|x] w1]; simpl in *; [done|]. by rewrite Hk.
Qed.

Lemma draws_nothing_deref l : draws_nothing (F:=F) (deref l).
Proof. intros w. unfold deref. by destruct (heap w !! l). Qed.

Lemma draws_nothing_alloc (a : Atoms.t F) : draws_nothing (alloc a).
Proof. done. Qed.

Lemma draws_nothing_assign l (a : Atoms.t F) : draws_nothing (assign l a).
Proof. done. Qed.

Lemma draws_nothing_getitem_db (d : gmap string loc) k : draws_nothing (F:=F) (getitem d k).
Proof. intros w. unfold getitem. by destruct (d !! k). Qed.
End Quiet.

Create HintDb quiet.

#[export] Hint Resolve draws_nothing_ret draws_nothing_raise draws_nothing_lift
  draws_nothing_deref draws_nothing_alloc draws_nothing_assign
  draws_nothing_getitem_db : quiet.

Ltac quiet :=
  repeat first
    [ solve [eauto with quiet]
    | match goal with
      | |- ∀ _, draws_nothing _ => intro
      | |- draws_nothing (match ?x with _ => _ end) => destruct x
      | |- draws_nothing (if ?b then _ else _) => destruct b
      end
    | apply draws_nothing_bind ].

Section QuietMake.
Context {F : Type} `{FloatOps F} `{Lapack F} `{Collaborators F}.

Lemma draws_nothing_tag_loop sbu fragment rows :
  draws_nothing (F:=F) (Autografs.tag_loop sbu fragment rows).
Proof.
  induction rows as [|i rows IH]; simpl; [quiet|].
  apply draws_nothing_bind; [|done].
  unfold Autografs.tag_atom, ase.getitem, ase.get_positions, ase.set_tag. quiet.
Qed.

Hint Resolve draws_nothing_tag_loop : quiet.

Lemma draws_nothing_align fragment sbu :
  draws_nothing (F:=F) (Autografs.align fragment sbu).
Proof.
  unfold Autografs.align, Autografs.tag, ase.copy, ase.get_positions, ase.set_positions,
    ase.getitem_list, ase.len.
  quiet.
Qed.

Hint Resolve draws_nothing_align : quiet.

Lemma draws_nothing_add_slots slots top :
  draws_nothing (F:=F) (Topology.add_slots slots top).
Proof.
  revert top. induction slots as [|[[index fragment] shape] slots IH]; intros top; simpl.
  - quiet.
  - apply draws_nothing_bind; [quiet|]. intros l. apply IH.
Qed.

Lemma draws_nothing_make_loop top items fw alpha :
  draws_nothing (F:=F) (Autografs.make_loop top items fw alpha).
Proof.
  revert fw alpha. induction items as [|[idx sbu] items IH]; intros fw alpha; simpl.
  { quiet. }
  apply draws_nothing_bind; [|intros r; apply IH].
  unfold Autografs.make_slot, SBU.get_atoms.
  quiet.
Qed.

Lemma draws_nothing_refine fw alpha0 :
  draws_nothing (F:=F) (Framework.refine fw alpha0).
Proof.
  unfold Framework.refine. apply draws_nothing_bind.
  - induction (Framework.fragments fw) as [|[index f] fs IH]; simpl; [quiet|].
    unfold ase.get_positions. quiet.
  - intros all. induction (Framework.fragments fw) as [|[index f] fs IH]; simpl; [quiet|].
    unfold ase.set_positions. quiet.
Qed.

(** X11. [make] with a slot assignment of the caller draws no random
    number, whether it returns or raises, and the names of units it is
    given besides play no part. *)
Theorem make_explicit_assignment self name names names' d (w : world F) :
  rand (Autografs.make self name names (Some d) w).2 = rand w ∧
  Autografs.make self name names (Some d) w = Autografs.make self name names' (Some d) w.
Proof.
  split; [|done]. revert w.
  change (draws_nothing (Autografs.make self name names (Some d))).
  unfold Autografs.make, Autografs.make_aligned, Autografs.make_assignment.
  apply draws_nothing_bind.
  - apply draws_nothing_bind.
    + unfold Topology.new, Topology.get_atoms. quiet. apply draws_nothing_add_slots.
    + intros tad. apply draws_nothing_make_loop.
  - intros r. apply draws_nothing_bind; [apply draws_nothing_refine|quiet].
Qed.

(** X12. [make] with the name of a topology that the database does not
    hold raises the [KeyError] of that name, and has touched nothing by
    then. *)
Theorem make_unknown_topology self name names sd (w : world F) :
  Self.topologies self !! name = None →
  Autografs.make self name names sd w = (inl (KeyError name), w).
Proof.
  intros Hname. unfold Autografs.make, Autografs.make_aligned, Autografs.make_assignment.
  do 3 apply bind_raise. unfold getitem. by rewrite Hname.
Qed.

Lemma make_slot_force_field top idx sbu fw alpha w r w' sa :
  heap w !! SBU.atoms sbu = Some sa →
  Autografs.make_slot top idx sbu fw alpha w = (inr r, w') →
  ∃ l, r.1 = Framework.append fw idx l (force_field sa).2 (force_field sa).1.
Proof.
  intros Hsa. unfold Autografs.make_slot.
  destruct (dict.get (Topology.fragments top) idx) as [fl|] eqn:Hfl.
  2:{ by rewrite (bind_raise _ _ _ (KeyError (pretty idx)) w). }
  rewrite (bind_run _ _ _ fl w) by done.
  assert (Hderef : deref (SBU.atoms sbu) w = (inr sa, w)).
  { unfold deref. by rewrite Hsa. }
  rewrite (bind_run _ _ _ _ _ Hderef).
  rewrite (bind_run _ _ _ (force_field sa) w).
  2:{ unfold force_field, SBU.get_atoms.
      destruct (Atoms.info sa !! "bonds"), (Atoms.info sa !! "mmtypes");
        try done; by rewrite (bind_run _ _ _ _ _ Hderef). }
  destruct (Autografs.align fl (SBU.atoms sbu) w) as [[e|ra] w2] eqn:Halign.
  { by rewrite (bind_raise _ _ _ _ _ Halign). }
  rewrite (bind_run _ _ _ _ _ Halign). intros [= <- <-]. by exists ra.1.
Qed.

Lemma make_loop_force_field top items fw alpha w r w' :
  fragments_stored top (heap w) → units_stored items (heap w) →
  Autografs.make_loop top items fw alpha w = (inr r, w') →
  NoDup items.*1 → ∀ idx sbu, (idx, sbu) ∈ items →
    ∃ fr sa, dict.get (Framework.fragments r.1) idx = Some fr ∧
      heap w !! SBU.atoms sbu = Some sa ∧
      (Framework.bonds fr, Framework.mmtypes fr) = force_field sa.
Proof.
  revert fw alpha w. induction items as [|[idx sbu] items IH]; intros fw alpha w Hfrag Hunits.
  { intros _ _ ? ? Hin. by apply elem_of_nil in Hin. }
  simpl. destruct (Autografs.make_slot top idx sbu fw alpha w) as [[e|r1] w1] eqn:Hslot.
  { by rewrite (bind_raise _ _ _ _ _ Hslot). }
  rewrite (bind_run _ _ _ _ _ Hslot). intros Hloop Hnd i s Hi.
  destruct (make_slot_success top idx sbu fw alpha w r1 w1 Hfrag Hslot)
    as (fl & fa & sa & v & mmtypes & bonds & Hfl & Hfa & Hsa & Hv & Hr1 & ->).
  destruct (make_slot_force_field _ _ _ _ _ _ _ _ _ Hsa Hslot) as [l Hl].
  apply NoDup_cons in Hnd as [Hidx Hnd].
  assert (Hunits' : units_stored items (heap w ++ (Summary.align_objects fa sa).2)).
  { apply units_stored_app. intros i' s' ?. apply (Hunits i' s'). by right. }
  pose proof Hloop as Hkeep.
  apply make_loop_fragments in Hkeep as (_ & _ & Hother & _);
    [|by apply fragments_stored_app|done].
  apply elem_of_cons in Hi as [[= -> ->]|Hi].
  - exists (Framework.mkFragment l (force_field sa).2 (force_field sa).1), sa.
    rewrite Hother by done. rewrite Hl. simpl.
    rewrite dict_get_set, decide_True by done. by destruct (force_field sa).
  - assert (Hfrag' : fragments_stored top (heap w ++ (Summary.align_objects fa sa).2))
      by (by apply fragments_stored_app).
    destruct (IH r1.1 r1.2 (mkWorld (heap w ++ (Summary.align_objects fa sa).2) (rand w))
                Hfrag' Hunits' Hloop Hnd i s Hi) as (fr & sa0 & Hfr & Hsa0 & Hff).
    destruct (Hunits i s) as [sa1 Hsa1]; [by right|].
    simpl in Hsa0. rewrite (lookup_app_l_Some _ _ _ _ Hsa1) in Hsa0. simplify_eq.
    by exists fr, sa0.
Qed.

(** X13. The fragment [make] appends for a slot carries the bonds and
    the types of the [info] of its unit when the [info] has both, and
    those [analyze_mm] computes for the unit when it lacks one of
    them: a unit with one of the two keys has it ignored. *)
Theorem make_force_field self name names sd (w : world F) top fw0 d w1 fw w' :
  Autografs.make_assignment self name names sd w = (inr (top, fw0, d), w1) →
  NoDup d.*1 → units_stored d (heap w1) →
  Autografs.make self name names sd w = (inr fw, w') →
  ∀ idx sbu, (idx, sbu) ∈ d →
    ∃ fr sa, dict.get (Framework.fragments fw) idx = Some fr ∧
      heap w1 !! SBU.atoms sbu = Some sa ∧
      (Framework.bonds fr, Framework.mmtypes fr) = force_field sa.
Proof.
  intros Hassign Hnd Hunits. unfold Autografs.make, Autografs.make_aligned.
  rewrite bind_assoc. rewrite (bind_run _ _ _ _ _ Hassign). simpl.
  apply make_assignment_success in Hassign as [Hstored Hempty].
  destruct (Autografs.make_loop top d fw0 (inl f_zero) w1) as [[e|r] w2] eqn:Hloop.
  { by rewrite (bind_raise _ _ _ _ _ Hloop). }
  rewrite (bind_run _ _ _ _ _ Hloop).
  destruct (Framework.refine r.1 r.2 w2) as [[e|[]] w3] eqn:Hrefine.
  { by rewrite (bind_raise _ _ _ _ _ Hrefine). }
  rewrite (bind_run _ _ _ _ _ Hrefine). intros [= <- <-].
  by eapply make_loop_force_field.
Qed.

(** X20. [make] with an empty slot assignment aligns nothing: the
    framework has the atoms of the topology and no fragment, and the
    scale it is refined from is the float 0.0 that [alpha] starts as,
    not a vector. *)
Theorem make_aligned_empty self name names (w : world F) tl top w1 :
  Self.topologies self !! name = Some tl →
  Topology.new name tl w = (inr top, w1) →
  Autografs.make_aligned self name names (Some []) w
  = (inr (Framework.mk (Some (Topology.atoms top)) [], inl f_zero), w1).
Proof.
  intros Hname Htop. unfold Autografs.make_aligned, Autografs.make_assignment.
  rewrite bind_assoc, (bind_run _ _ _ tl w) by (by apply getitem_run).
  rewrite bind_assoc, (bind_run _ _ _ _ _ Htop). done.
Qed.

(** X21. [make] with the name of a topology alone, its other arguments
    left to their default [None], raises a [TypeError] for a topology
    with a slot: [get_sbu_dict] goes through the names of the units,
    and there is none to go through. *)
Theorem make_without_units self name (w : world F) tl top w1 :
  Self.topologies self !! name = Some tl →
  Topology.new name tl w = (inr top, w1) →
  Topology.shapes top ≠ [] →
  Autografs.make self name None None w
  = (inl (TypeError "'NoneType' object is not iterable"), w1).
Proof.
  intros Hname Htop Hslots.
  unfold Autografs.make, Autografs.make_aligned, Autografs.make_assignment.
  do 2 apply bind_raise.
  rewrite (bind_run _ _ _ tl w) by (by apply getitem_run).
  rewrite (bind_run _ _ _ _ _ Htop).
  unfold Topology.get_atoms, Autografs.get_sbu_dict.
  destruct (Topology.shapes top) as [|[i s] slots]; [done|]. done.
Qed.
End QuietMake.

(** ** [list_available_topologies] *)

Section Topologies.
Context {F : Type} `{FloatOps F} `{Lapack F} `{Collaborators F}.

(** X14. [list_available_topologies] without a name of a unit, its
    default, returns the names of the database of topologies, each one
    once, whatever [full] is, and leaves the world as it is. *)
Theorem list_available_topologies_all (self : Self.t) (full : bool) (w : world F) :
  ∃ names, Autografs.list_available_topologies self [] full w = (inr names, w) ∧
    NoDup names ∧ ∀ name, name ∈ names ↔ is_Some (Self.topologies self !! name).
Proof.
  eexists. split; [done|]. split.
  - apply NoDup_fst_map_to_list.
  - intros name. rewrite list_elem_of_fmap. split.
    + intros ([k l] & -> & Hin). apply elem_of_map_to_list in Hin. by exists l.
    + intros [l Hl]. exists (name, l). split; [done|]. by apply elem_of_map_to_list.
Qed.

(** X15. [list_available_topologies] with a name of a unit returns no
    list: reading the shape of the first name raises, and the world is
    as it was. The exception is the [KeyError] of that name when the
    database of units does not hold it. *)
Theorem list_available_topologies_raises (self : Self.t) name rest (full : bool)
    (w : world F) :
  ∃ e, Autografs.list_available_topologies self (name :: rest) full w
       = (inl (Autografs.Raised e), w)
    ∧ (Self.sbu self !! name = None → e = KeyError name).
Proof.
  unfold Autografs.list_available_topologies, Autografs.shapes_of_names.
  rewrite bool_decide_true by done. simpl.
  unfold mbind at 1, py_bind at 1. unfold mbind at 1, py_bind at 1.
  unfold getitem. destruct (Self.sbu self !! name) as [l|]; simpl.
  - eexists. split; [done|]. done.
  - eexists. split; [done|]. done.
Qed.
End Topologies.

(** ** The loop of [read_cgd] over the lines of a topology *)

Section Lines.
Context {F : Type} `{FloatOps F} `{Parsers F}.
Implicit Types (b : cgd.block (F:=F)) (l : list string).

Lemma read_line_lengths b l b' :
  cgd.read_line b l = inr b' →
  length (cgd.symbols b) = length (cgd.nodes b) →
  length (cgd.symbols b') = length (cgd.nodes b').
Proof.
  intros Hread Hlen. unfold cgd.read_line in Hread.
  unfold mbind, sum_bind, mret, sum_ret in Hread.
  repeat match type of Hread with
    | context [match ?x with _ => _ end] => destruct x eqn:?; simplify_eq/=
    end;
    rewrite ?length_app; simpl; lia.
Qed.

(** X16. The loop over the lines keeps one symbol for every node: the
    lists [symbols] and [nodes] that [read_cgd] hands to [crystal] have
    the same length. *)
Theorem read_lines_lengths b lines b' :
  cgd.read_lines b lines = inr b' →
  length (cgd.symbols b) = length (cgd.nodes b) →
  length (cgd.symbols b') = length (cgd.nodes b').
Proof.
  revert b. induction lines as [|l lines IH]; intros b; simpl.
  { by intros [= <-]. }
  destruct (cgd.read_line b l) as [e|b1] eqn:Hline; [done|]. simpl.
  intros Hlines Hlen. apply (IH b1 Hlines). by eapply read_line_lengths.
Qed.

Lemma prefix_edge kw :
  cgd.startswith kw "EDGE" = true →
  cgd.startswith kw "NAME" = false ∧ cgd.startswith kw "GROUP" = false ∧
  cgd.startswith kw "CELL" = false ∧ cgd.startswith kw "NODE" = false ∧
  cgd.startswith kw "#" = false.
Proof.
  unfold cgd.startswith. destruct kw as [|a kw]; [done|].
  cbn [String.prefix]. intros Hkw.
  match type of Hkw with
  | context [Ascii.ascii_dec ?c a] => destruct (Ascii.ascii_dec c a) as [<-|]; [|done]
  end.
  done.
Qed.

Lemma float32_array_words (words : list string) :
  Forall (λ c, is_Some (float32 (F:=F) c)) words →
  ∃ xs, cgd.float32_array words = inr xs ∧ length xs = length words.
Proof.
  intros Hall. unfold cgd.float32_array.
  destruct (mapM float32 words) as [xs|] eqn:Hxs.
  - exists xs. split; [done|]. symmetry. by eapply length_mapM.
  - assert (is_Some (mapM (float32 (F:=F)) words)) as [? ?]; [|congruence].
    by apply mapM_is_Some.
Qed.

(** X17. A line "EDGE" with an odd number of coordinates raises a
    [ValueError]: the two ends it is cut into have not the same
    length, and [read_cgd] gives up the topology. *)
Theorem read_line_edge_odd b kw coords :
  cgd.startswith kw "EDGE" = true →
  Forall (λ c, is_Some (float32 (F:=F) c)) coords →
  Nat.Odd (length coords) →
  ∃ msg, cgd.read_line b (kw :: coords) = inl (ValueError msg).
Proof.
  intros Hkw Hall [s Hs]. unfold cgd.read_line.
  change (cgd.subscript (kw :: coords) 0) with (@inr exn string kw).
  unfold mbind, sum_bind, mret, sum_ret. cbv beta iota.
  destruct (prefix_edge kw Hkw) as (-> & -> & -> & -> & ->). rewrite Hkw.
  cbn [length].
  assert (Hmid : (S (length coords) + 1) / 2 = S s).
  { rewrite Hs. replace (S (2 * s + 1) + 1) with (1 + (s + 1) * 2) by lia.
    rewrite Nat.div_add by lia. simpl. lia. }
  rewrite Hmid. cbn [drop take Nat.sub]. rewrite Nat.sub_0_r, drop_0.
  destruct (float32_array_words (take s coords)) as (x0 & -> & Hx0).
  { by apply Forall_take. }
  destruct (float32_array_words (drop s coords)) as (x1 & -> & Hx1).
  { by apply Forall_drop. }
  unfold cgd.edge_nodes.
  rewrite length_take in Hx0. rewrite length_drop in Hx1.
  rewrite bool_decide_false by lia. cbn [negb]. eauto.
Qed.
End Lines.

(** ** The group of a topology and its setting *)

Section Group.
Context {F : Type} `{Parsers F}.

Lemma split_colon_plain (word : string) :
  cgd.has_colon word = false → cgd.split_colon word = [word].
Proof.
  induction word as [|c word IH]; simpl; [done|].
  destruct (Ascii.eqb c cgd.colon); simpl; [done|]. intros Hword. by rewrite IH.
Qed.

Lemma split_colon_app (part rest : string) :
  cgd.has_colon part = false →
  cgd.split_colon (String.append part (String cgd.colon rest))
  = part :: cgd.split_colon rest.
Proof.
  induction part as [|c part IH]; simpl.
  { by intros _. }
  destruct (Ascii.eqb c cgd.colon); simpl; [done|]. intros Hpart. by rewrite IH.
Qed.

Lemma has_colon_app (part rest : string) :
  cgd.has_colon (String.append part (String cgd.colon rest)) = true.
Proof.
  induction part as [|c part IH]; simpl.
  - done.
  - rewrite IH. by destruct (Ascii.eqb c cgd.colon).
Qed.

(** Cutting at the colons what was joined with colons gives the parts. *)
Lemma split_colon_join (parts : list string) :
  parts ≠ [] → Forall (λ p, cgd.has_colon p = false) parts →
  cgd.split_colon (cgd.join_colon parts) = parts.
Proof.
  induction parts as [|p parts IH]; [done|]. intros _ Hparts.
  apply Forall_cons in Hparts as [Hp Hparts].
  destruct parts as [|q parts]; simpl.
  - by apply split_colon_plain.
  - rewrite split_colon_app by done. f_equal. by apply IH.
Qed.

(** X18. The group of a topology, as the parts its name has between
    colons: one part is the group, with the setting 1; two parts are
    the group and the setting, which is 1 when the second part is no
    integer; more parts raise the [ValueError] of the unpacking, and
    [read_cgd] gives up the topology. *)
Theorem group_setting_parts (parts : list string) :
  parts ≠ [] → Forall (λ p, cgd.has_colon p = false) parts →
  cgd.group_setting (F:=F) (Some (cgd.join_colon parts))
  = match parts with
    | [g] => inr (g, 1%Z)
    | [g; setting] => inr (g, default 1%Z (int (cgd.strip setting)))
    | _ => inl (ValueError "too many values to unpack (expected 2)")
    end.
Proof.
  intros Hne Hparts. unfold cgd.group_setting.
  pose proof (split_colon_join parts Hne Hparts) as Hsplit.
  destruct parts as [|g [|setting rest]]; [done| |].
  - simpl. apply Forall_cons in Hparts as [-> _]. done.
  - rewrite Hsplit. change (cgd.join_colon (g :: setting :: rest))
      with (String.append g (String cgd.colon (cgd.join_colon (setting :: rest)))).
    rewrite has_colon_app. by destruct rest.
Qed.
End Group.

(** ** The dummies of an edge, in real arithmetic *)

Section EdgeReal.
Open Scope R_scope.

Lemma foldl_Rplus (a : R) (xs : list R) : foldl Rplus a xs = a + foldr Rplus 0 xs.
Proof.
  revert a. induction xs as [|x xs IH]; intros a; simpl; [lra|]. rewrite IH. lra.
Qed.

Lemma add_reduce_sum (xs : list R) : np.add_reduce xs = foldr Rplus 0 xs.
Proof. destruct xs as [|x xs]; simpl; [done|]. apply foldl_Rplus. Qed.

Lemma sum_column (s j : nat) (c : R) (r : list R) (n : nat) :
  (j < s)%nat →
  foldr Rplus 0
    (zip_with (λ x row, x * default 0 (row !! j)) r
       ((λ k, (λ j', (if bool_decide (k = j') then 1 else 0) * c) <$> seq 0 s)
          <$> seq n (length r)))
  = match r !! (j - n)%nat with
    | Some x => if decide (n ≤ j)%nat then x * c else 0
    | None => 0
    end.
Proof.
  intros Hj. revert n. induction r as [|x r IH]; intros n; simpl; [done|].
  rewrite IH. rewrite list_lookup_fmap, lookup_seq_lt by done. simpl.
  destruct (decide (n ≤ j)%nat) as [Hle|Hgt].
  - destruct (decide (n = j)) as [->|Hne].
    + rewrite bool_decide_true by done. rewrite Nat.sub_diag. simpl.
      replace (j - S j)%nat with 0%nat by lia.
      destruct (r !! 0%nat); [rewrite decide_False by lia|]; lra.
    + rewrite bool_decide_false by done.
      replace (j - n)%nat with (S (j - S n)) by lia. simpl.
      destruct (r !! (j - S n)%nat); [rewrite decide_True by lia|]; lra.
  - rewrite bool_decide_false by lia.
    destruct (r !! (j - S n)%nat); [rewrite decide_False by lia|];
      destruct ((x :: r) !! (j - n)%nat); lra.
Qed.

Lemma row_dot_eye (s : nat) (c : R) (r : list R) :
  length r = s → cgd.row_dot s r (cgd.eye_times s c) = (λ x, x * c) <$> r.
Proof.
  intros <-. unfold cgd.row_dot, cgd.eye_times. apply list_eq. intros j.
  rewrite !list_lookup_fmap. destruct (decide (j < length r)%nat) as [Hj|Hj].
  - rewrite lookup_seq_lt by done. simpl. rewrite add_reduce_sum.
    rewrite (sum_column (length r) j c r 0 Hj).
    rewrite Nat.sub_0_r. destruct (r !! j) as [x|] eqn:Hx; simpl.
    + done.
    + apply lookup_ge_None in Hx. lia.
  - rewrite lookup_seq_ge by lia. simpl.
    rewrite (proj2 (lookup_ge_None r j)); [done|lia].
Qed.

Lemma edge_quarter_first (x0 x1 : list R) :
  zip_with Rplus
    ((λ x, x * (1 / 2)) <$> zip_with (λ a c, a - c) x0 (zip_with (λ a b, (a + b) / 2) x0 x1))
    (zip_with (λ a b, (a + b) / 2) x0 x1)
  = zip_with (λ a b, (3 * a + b) / 4) x0 x1.
Proof.
  revert x1. induction x0 as [|a x0 IH]; intros [|b x1]; try done.
  cbn [zip_with fmap list_fmap]. f_equal; [lra|apply IH].
Qed.

Lemma edge_quarter_second (x0 x1 : list R) :
  zip_with Rplus
    ((λ x, x * (1 / 2)) <$> zip_with (λ a c, a - c) x1 (zip_with (λ a b, (a + b) / 2) x0 x1))
    (zip_with (λ a b, (a + b) / 2) x0 x1)
  = zip_with (λ a b, (a + 3 * b) / 4) x0 x1.
Proof.
  revert x1. induction x0 as [|a x0 IH]; intros [|b x1]; try done.
  cbn [zip_with fmap list_fmap]. f_equal; [lra|apply IH].
Qed.

(** X19. In real arithmetic the two dummies [read_cgd] puts on an edge
    are the points at one quarter and at three quarters of the edge:
    half way between the centre of the edge and each of its ends. *)
Theorem edge_nodes_quarters (x0 x1 : list R) :
  length x0 = length x1 →
  cgd.edge_nodes (length x0) x0 x1
  = inr (zip_with (λ a b, (3 * a + b) / 4) x0 x1,
         zip_with (λ a b, (a + 3 * b) / 4) x0 x1).
Proof.
  intros Hlen. unfold cgd.edge_nodes.
  rewrite !bool_decide_true by done. simpl.
  rewrite !row_dot_eye.
  - unfold cgd.half. simpl. by rewrite edge_quarter_first, edge_quarter_second.
  - rewrite !length_zip_with. lia.
  - rewrite !length_zip_with. lia.
Qed.
End EdgeReal.

(** ** The further theorems on the examples *)

Section OnMoreExamples.
Import Example Example2.

Ltac among H :=
  repeat (apply elem_of_cons in H as [H|H]; [try subst|]);
  try (by apply elem_of_nil in H).

(** X1 on an example: a unit of two carbons. *)
Lemma tag_without_dummies_witness :
  Autografs.tag 1 0 (pair_world slot0 bare) = (inr tt, pair_world slot0 bare).
Proof.
  apply (tag_without_dummies (pair_world slot0 bare) 1 0 bare); [reflexivity|].
  repeat constructor; discriminate.
Defined.

(** X2 on an example: a linear unit and the fragment without point. *)
Lemma tag_empty_fragment_witness :
  Autografs.tag 1 0 (pair_world no_point (linear (i 2)))
  = (inl empty_argmin, pair_world no_point (linear (i 2))).
Proof.
  apply (tag_empty_fragment (pair_world no_point (linear (i 2))) 1 0 (linear (i 2)) no_point);
    [reflexivity|reflexivity|reflexivity|].
  apply Exists_cons_hd. reflexivity.
Defined.

(** X3 on an example. *)
Lemma tag_idempotent_witness :
  (Autografs.tag 1 0 ≫= λ _, Autografs.tag 1 0) (pair_world slot0 (linear (i 2)))
  = Autografs.tag 1 0 (pair_world slot0 (linear (i 2))).
Proof.
  apply (tag_idempotent (pair_world slot0 (linear (i 2))) 1 0 (linear (i 2)) slot0);
    [reflexivity|reflexivity|discriminate].
Defined.

(** X4 on an example. *)
Lemma align_creates_objects_witness :
  ∃ a b c,
    final_heap (Autografs.align 0 1 (pair_world slot0 (linear (i 2))))
    = heap (pair_world slot0 (linear (i 2))) ++ [a; b; c] ∧
    rand (Autografs.align 0 1 (pair_world slot0 (linear (i 2)))).2
    = rand (pair_world slot0 (linear (i 2))) ∧
    ∀ r, outcome (Autografs.align 0 1 (pair_world slot0 (linear (i 2)))) = inr r →
      r.1 = length (heap (pair_world slot0 (linear (i 2)))) ∧
      heap (pair_world slot0 (linear (i 2))) !! r.1 = None.
Proof.
  apply (align_creates_objects (pair_world slot0 (linear (i 2))) 0 1 slot0 (linear (i 2)));
    reflexivity.
Defined.

(** X5 on an example. *)
Lemma align_keeps_atoms_witness :
  ∃ sa', final_heap (Autografs.align 0 1 (pair_world slot0 (linear (i 2))))
           !! (2, V3 (i 4) zero zero).1 = Some sa' ∧
    Atoms.info sa' = Atoms.info (linear (i 2)) ∧
    Forall2 (aligned_atom slot0) (Atoms.atom_list (linear (i 2))) (Atoms.atom_list sa').
Proof.
  apply (align_keeps_atoms (pair_world slot0 (linear (i 2))) 0 1 slot0 (linear (i 2))
           (2, V3 (i 4) zero zero));
    [reflexivity|reflexivity|vm_compute; reflexivity].
Defined.

(** X6 on an example: a slot around the origin. *)
Lemma align_scale_isotropic_witness :
  vx (2, origin_scale).2 = vy (2, origin_scale).2 ∧
  vy (2, origin_scale).2 = vz (2, origin_scale).2.
Proof.
  apply (align_scale_isotropic (pair_world origin_slot (linear (i 2))) 0 1 origin_slot
           (linear (i 2)) (2, origin_scale));
    [reflexivity|reflexivity|vm_compute; reflexivity|vm_compute; reflexivity].
Defined.

(** X7 on an example: a fragment with a NaN. *)
Lemma align_rejects_nonfinite_witness :
  ∃ msg, outcome (Autografs.align 0 1 (pair_world nan_fragment (linear (i 2))))
         = inl (ValueError msg).
Proof.
  apply (align_rejects_nonfinite (pair_world nan_fragment (linear (i 2))) 0 1 nan_fragment
           (linear (i 2))); [reflexivity|reflexivity|].
  left. apply Exists_cons_hd. reflexivity.
Defined.

(** X8 on an example: the net "chain" and a pool of two linear units. *)
Lemma get_sbu_dict_fills_witness :
  (∀ idx shape, (idx, shape) ∈ Topology.shapes chain_topology →
     is_Some (dict.get chain_assignment idx)) ∧
  (∀ idx sbu, (idx, sbu) ∈ chain_assignment →
     (idx, SBU.shape sbu) ∈ Topology.shapes chain_topology ∧ SBU.name sbu ∈ ["A"; "B"] ∧
     resolve self (heap chain_built.2) (SBU.name sbu) = Some sbu).
Proof.
  apply (get_sbu_dict_fills self chain_topology ["A"; "B"] chain_built.2 chain_assignment
           chain_assigned.2).
  vm_compute. reflexivity.
Defined.

(** X9 on an example. *)
Lemma get_sbu_dict_draws_witness :
  chain_assigned.2
  = mkWorld (heap chain_built.2)
      (mkRandom (draws (rand chain_built.2))
         (cursor (rand chain_built.2) + length (Topology.shapes chain_topology))).
Proof.
  apply (get_sbu_dict_draws self chain_topology (Some ["A"; "B"]) chain_built.2
           chain_assignment chain_assigned.2).
  vm_compute. reflexivity.
Defined.

(** X10 on an example: a pool with a name the database does not hold. *)
Lemma get_sbu_dict_unknown_name_witness :
  Autografs.get_sbu_dict self chain_topology (Some (["A"] ++ "Z" :: ["B"])) chain_built.2
  = (inl (KeyError "Z"), chain_built.2).
Proof.
  apply (get_sbu_dict_unknown_name self chain_topology ["A"] "Z" ["B"] chain_built.2).
  - vm_compute. discriminate.
  - intros n Hn. among Hn. vm_compute. eauto.
  - reflexivity.
Defined.

(** X12 on an example. *)
Lemma make_unknown_topology_witness :
  Autografs.make self "pcu" (Some ["A"]) None world0 = (inl (KeyError "pcu"), world0).
Proof.
  apply (make_unknown_topology self "pcu" (Some ["A"]) None world0). reflexivity.
Defined.

Lemma assignment_units : units_stored assignment (heap chain_built.2).
Proof. intros idx sbu Hin. among Hin; injection Hin as -> ->; vm_compute; eauto. Qed.

(** X13 on an example: the first slot of the chain of three slots. *)
Lemma make_force_field_witness :
  ∃ fr sa, dict.get (Framework.fragments chain_framework) 0 = Some fr ∧
    heap chain_built.2 !! SBU.atoms unit_a = Some sa ∧
    (Framework.bonds fr, Framework.mmtypes fr) = force_field sa.
Proof.
  apply (make_force_field self "chain" None (Some assignment) world0 chain_topology
           (Framework.set_topology Framework.new 0) assignment chain_built.2
           chain_framework chain_made.2);
    [vm_compute; reflexivity| |apply assignment_units|vm_compute; reflexivity|by left].
  apply (bool_decide_unpack (NoDup (assignment.*1))). vm_compute. exact I.
Defined.

(** X20 on an example: the net "chain" and no slot to fill. *)
Lemma make_aligned_empty_witness :
  Autografs.make_aligned self "chain" None (Some []) world0
  = (inr (Framework.mk (Some (Topology.atoms chain_topology)) [], inl f_zero), chain_built.2).
Proof.
  apply (make_aligned_empty self "chain" None world0 0 chain_topology chain_built.2);
    reflexivity.
Defined.

(** X21 on an example: the net "chain" and nothing else. *)
Lemma make_without_units_witness :
  Autografs.make self "chain" None None world0
  = (inl (TypeError "'NoneType' object is not iterable"), chain_built.2).
Proof.
  apply (make_without_units self "chain" world0 0 chain_topology chain_built.2);
    [reflexivity|reflexivity|].
  vm_compute. discriminate.
Defined.

(** X16 on an example: a net of one node and one edge. *)
Lemma read_lines_lengths_witness :
  length (cgd.symbols net_read) = length (cgd.nodes net_read).
Proof.
  apply (read_lines_lengths cgd.empty net_lines net_read); [|reflexivity].
  vm_compute. reflexivity.
Defined.

(** X17 on an example: an edge of three coordinates. *)
Lemma read_line_edge_odd_witness :
  ∃ msg, cgd.read_line (F:=spec_float) cgd.empty ("EDGE" :: ["0"; "0"; "1"])
         = inl (ValueError msg).
Proof.
  apply (read_line_edge_odd cgd.empty "EDGE" ["0"; "0"; "1"]).
  - reflexivity.
  - repeat constructor; vm_compute; eauto.
  - exists 1. reflexivity.
Defined.

(** X18 on an example: the group "P4" in its second setting. *)
Lemma group_setting_parts_witness :
  cgd.group_setting (F:=spec_float) (Some (cgd.join_colon ["P4"; "2"]))
  = inr ("P4", default 1%Z (int (cgd.strip "2"))).
Proof.
  apply (group_setting_parts (F:=spec_float) ["P4"; "2"]); [discriminate|].
  repeat constructor.
Defined.
End OnMoreExamples.

(** X19 on an example: the edge from the origin to (1,0,0). *)
Lemma edge_nodes_quarters_witness :
  cgd.edge_nodes (length [0; 0; 0]%R) [0; 0; 0]%R [1; 0; 0]%R
  = inr (zip_with (λ a b, (3 * a + b) / 4)%R [0; 0; 0]%R [1; 0; 0]%R,
         zip_with (λ a b, (a + 3 * b) / 4)%R [0; 0; 0]%R [1; 0; 0]%R).
Proof. apply (edge_nodes_quarters [0; 0; 0]%R [1; 0; 0]%R). reflexivity. Defined.
